(** * Axium recipe backend: response parsing, orchestration and interaction log

    A shallow embedding of the Python services of the repository
    ([models.py], [services/gemini_service.py], [services/recipe_service.py],
    [services/storage_service.py], [main.py]) together with the properties
    stated for them in the specification.

    A Python [str] is a sequence of Unicode code points: text is modelled by
    [string], a list of characters of type [char], the code points.  The
    built-ins [str.strip], [str.find], [str.rfind], [in] and slicing are
    defined on it; [str.lower], which depends on the Unicode character
    database, is a parameter with the laws the services rely on.
    Exceptions are values of type [exn] carried by the [result] monad; a
    [try]/[except] is a [match] on the result.  A Python [float] is a
    binary64 number of the IEEE 754 specification [SpecFloat]. *)

From Stdlib Require Import List ZArith NArith Bool Arith Lia.
From Stdlib Require Import Strings.Byte Floats.SpecFloat.
Import ListNotations.

Local Open Scope list_scope.

(** ** Characters and text *)

(** A character is a code point. *)
Definition char : Set := N.

Module Char.

Definition eqb (a b : char) : bool := N.eqb a b.

(** A character written between quotes stands for its code point; only
    ASCII characters are written that way, the others by their number. *)
Definition of_bytes (l : list byte) : option N :=
  match l with
  | [b] => if (Byte.to_N b <? 128)%N then Some (Byte.to_N b) else None
  | _ => None
  end.

Definition to_bytes (c : N) : option (list byte) := None.

End Char.

Declare Scope char_scope.
Delimit Scope char_scope with char.
String Notation N Char.of_bytes Char.to_bytes : char_scope.
Bind Scope char_scope with char.
Arguments Char.eqb (a b)%_char_scope.

Module Text.

Inductive string : Set :=
| EmptyString
| String (c : char) (s : string).

(** A text written between quotes is the sequence of its characters, which
    are ASCII characters. *)
Fixpoint of_bytes (l : list byte) : option string :=
  match l with
  | [] => Some EmptyString
  | b :: l' =>
      if (Byte.to_N b <? 128)%N then
        match of_bytes l' with
        | Some s => Some (String (Byte.to_N b) s)
        | None => None
        end
      else None
  end.

Fixpoint to_bytes (s : string) : option (list byte) :=
  match s with
  | EmptyString => Some []
  | String c s' =>
      if (c <? 128)%N then
        match Byte.of_N c, to_bytes s' with
        | Some b, Some l => Some (b :: l)
        | _, _ => None
        end
      else None
  end.

(** [len(s)] *)
Fixpoint length (s : string) : nat :=
  match s with
  | EmptyString => 0
  | String _ s' => S (length s')
  end.

(** [s1 + s2] *)
Fixpoint append (s1 s2 : string) : string :=
  match s1 with
  | EmptyString => s2
  | String c s1' => String c (append s1' s2)
  end.

(** The [m] characters of [s] from index [n] on, or those there are. *)
Fixpoint substring (n m : nat) (s : string) : string :=
  match n with
  | O =>
      match m with
      | O => EmptyString
      | S m' =>
          match s with
          | EmptyString => EmptyString
          | String c s' => String c (substring 0 m' s')
          end
      end
  | S n' =>
      match s with
      | EmptyString => EmptyString
      | String _ s' => substring n' m s'
      end
  end.

(** [s1 == s2] *)
Fixpoint eqb (s1 s2 : string) : bool :=
  match s1, s2 with
  | EmptyString, EmptyString => true
  | String c1 s1', String c2 s2' => Char.eqb c1 c2 && eqb s1' s2'
  | _, _ => false
  end.

(** [sep.join(ls)] *)
Fixpoint concat (sep : string) (ls : list string) : string :=
  match ls with
  | [] => EmptyString
  | [x] => x
  | x :: xs => append x (append sep (concat sep xs))
  end.

End Text.

Import Text.

Declare Scope text_scope.
Delimit Scope text_scope with text.
Bind Scope text_scope with string.
String Notation string Text.of_bytes Text.to_bytes : text_scope.
Arguments String c%_char_scope s%_text_scope.
Notation "s1 ++ s2" := (append s1 s2)
  (right associativity, at level 60) : text_scope.
Local Open Scope text_scope.

(** ** Python built-ins used by the services *)

Module Py.

(** The double quote, the backslash and the line feed, as one-character
    strings and as characters. *)
Definition dquote : char := 34%N.
Definition backslash : char := 92%N.
Definition q : string := String dquote "".
Definition nl : string := String 10%N "".

(** The characters [str.strip] removes, those for which [str.isspace]
    holds: TAB, LF, VT, FF, CR, the separators FS, GS, RS, US, the space,
    and the white space outside ASCII, which is U+0085, U+00A0, U+1680,
    U+2000 to U+200A, U+2028, U+2029, U+202F, U+205F and U+3000. *)
Definition isspace (c : char) : bool :=
  (((9 <=? c) && (c <=? 13)) || ((28 <=? c) && (c <=? 32))
   || (c =? 0x85) || (c =? 0xA0) || (c =? 0x1680)
   || ((0x2000 <=? c) && (c <=? 0x200A))
   || (c =? 0x2028) || (c =? 0x2029) || (c =? 0x202F) || (c =? 0x205F)
   || (c =? 0x3000))%N.

Fixpoint lstrip (s : string) : string :=
  match s with
  | EmptyString => EmptyString
  | String c s' => if isspace c then lstrip s' else s
  end.

Fixpoint rstrip (s : string) : string :=
  match s with
  | EmptyString => EmptyString
  | String c s' =>
      match rstrip s' with
      | EmptyString => if isspace c then EmptyString else String c EmptyString
      | r => String c r
      end
  end.

(** [s.strip()] *)
Definition strip (s : string) : string := rstrip (lstrip s).

(** [s.lower()].  The lowercase form of a text is read from the Unicode
    character database of the interpreter, and for one letter it depends on
    the letters around it.  The services rely on four facts about it: only
    the empty text has an empty lowercase form; a lowercase form is its own
    lowercase form; white space is neither produced nor removed at the ends
    of a text, so that trimming and lowercasing can be done in either
    order; and no text gets shorter.  A text can get longer: the lowercase
    form of U+0130 has two characters. *)
Class Casing : Type := {
  lower : string -> string;
  lower_is_empty : forall s, lower s = EmptyString <-> s = EmptyString;
  lower_lower : forall s, lower (lower s) = lower s;
  lower_strip : forall s, strip (lower s) = lower (strip s);
  lower_not_shorter : forall s, Text.length s <= Text.length (lower s)
}.

(** Truth value of a string: [if s] holds when [s] is not empty. *)
Definition truthy (s : string) : bool :=
  match s with EmptyString => false | String _ _ => true end.

(** [s.startswith(sub)] *)
Fixpoint startswith (sub s : string) : bool :=
  match sub, s with
  | EmptyString, _ => true
  | String _ _, EmptyString => false
  | String a sub', String b s' => Char.eqb a b && startswith sub' s'
  end.

(** Lowest index at which [sub] occurs in [s]. *)
Fixpoint find_index (sub s : string) : option nat :=
  if startswith sub s then Some 0
  else match s with
       | EmptyString => None
       | String _ s' => option_map S (find_index sub s')
       end.

(** Highest index at which [sub] occurs in [s]. *)
Fixpoint rfind_index (sub s : string) : option nat :=
  match s with
  | EmptyString => if startswith sub s then Some 0 else None
  | String _ s' =>
      match rfind_index sub s' with
      | Some i => Some (S i)
      | None => if startswith sub s then Some 0 else None
      end
  end.

Definition index_or_minus1 (o : option nat) : Z :=
  match o with Some i => Z.of_nat i | None => (-1)%Z end.

(** [s.find(sub)] and [s.rfind(sub)]: an index, or -1. *)
Definition find (s sub : string) : Z := index_or_minus1 (find_index sub s).
Definition rfind (s sub : string) : Z := index_or_minus1 (rfind_index sub s).

(** [sub in s] *)
Definition contains (sub s : string) : bool :=
  match find_index sub s with Some _ => true | None => false end.

(** A slice bound, as Python resolves it against a length: a negative
    bound counts from the end, and the result is clamped to [0, len]. *)
Definition slice_bound (len i : Z) : Z :=
  if (i <? 0)%Z then Z.max 0 (i + len) else Z.min i len.

(** [s[start:stop]] on a string. *)
Definition slice (s : string) (start stop : Z) : string :=
  let len := Z.of_nat (Text.length s) in
  let a := slice_bound len start in
  let b := slice_bound len stop in
  if (a <? b)%Z then substring (Z.to_nat a) (Z.to_nat (b - a)) s
  else EmptyString.

(** [l[start:]] on a list. *)
Definition list_slice_from {A : Type} (l : list A) (start : Z) : list A :=
  skipn (Z.to_nat (slice_bound (Z.of_nat (List.length l)) start)) l.

(** The decimal digits of a number, as text. *)
Fixpoint digits (d : Decimal.uint) : string :=
  match d with
  | Decimal.Nil => EmptyString
  | Decimal.D0 d' => String "0" (digits d')
  | Decimal.D1 d' => String "1" (digits d')
  | Decimal.D2 d' => String "2" (digits d')
  | Decimal.D3 d' => String "3" (digits d')
  | Decimal.D4 d' => String "4" (digits d')
  | Decimal.D5 d' => String "5" (digits d')
  | Decimal.D6 d' => String "6" (digits d')
  | Decimal.D7 d' => String "7" (digits d')
  | Decimal.D8 d' => String "8" (digits d')
  | Decimal.D9 d' => String "9" (digits d')
  end.

(** [str(n)] for a natural number. *)
Definition str_of_nat (n : nat) : string :=
  match Nat.to_uint n with
  | Decimal.Nil => "0"
  | d => digits d
  end.

(** [sep.join(l)] *)
Definition join (sep : string) (l : list string) : string :=
  Text.concat sep l.

End Py.

(** ** Exceptions *)

Inductive exn_kind : Type :=
| ValueError
| JSONDecodeError
| AttributeError
| TypeError
| KeyError
| FileNotFoundError
| ValidationError
| ZeroDivisionError
| OverflowError
| ProviderError.

(** An exception: its class and the text [str(e)] gives. *)
Record exn : Type := Exn { exn_class : exn_kind; exn_str : string }.

Inductive result (A : Type) : Type :=
| Ok (a : A)
| Raise (e : exn).
Arguments Ok {A} a.
Arguments Raise {A} e.

Definition bind {A B : Type} (r : result A) (k : A -> result B) : result B :=
  match r with
  | Ok a => k a
  | Raise e => Raise e
  end.

Notation "x <- r ;; k" := (bind r (fun x => k))
  (at level 61, r at next level, right associativity).

(** ** JSON values and [json.loads] *)

Module Json.

(** A decoded document.  An object is a Python [dict]: its keys are
    distinct and kept in insertion order.  A number written with a
    fraction or an exponent, and the constants NaN, Infinity and
    -Infinity, decode to a float, kept here by its literal. *)
#[warnings="-register-all"]
Inductive json : Type :=
| JNull
| JBool (b : bool)
| JInt (n : Z)
| JFloat (literal : string)
| JStr (s : string)
| JArr (items : list json)
| JObj (fields : list (string * json)).

(** [d.get(key)] on the fields of an object. *)
Fixpoint dict_get (key : string) (d : list (string * json)) : option json :=
  match d with
  | [] => None
  | (k, v) :: d' => if Text.eqb k key then Some v else dict_get key d'
  end.

(** [d[key] = v]: replaces the value of an existing key in place, and adds
    a new key at the end. *)
Fixpoint dict_set (key : string) (v : json) (d : list (string * json))
  : list (string * json) :=
  match d with
  | [] => [(key, v)]
  | (k, w) :: d' =>
      if Text.eqb k key then (k, v) :: d' else (k, w) :: dict_set key v d'
  end.

(** [dict(pairs)] *)
Definition dict_of_pairs (pairs : list (string * json)) : list (string * json) :=
  fold_left (fun d kv => dict_set (fst kv) (snd kv) d) pairs [].

(** Name of the Python type of a decoded value, [type(v).__name__]. *)
Definition type_name (v : json) : string :=
  match v with
  | JNull => "NoneType"
  | JBool _ => "bool"
  | JInt _ => "int"
  | JFloat _ => "float"
  | JStr _ => "str"
  | JArr _ => "list"
  | JObj _ => "dict"
  end.

(** *** The decoder

    The grammar of CPython's [json.decoder], read character by character.
    A scan ends in the value read and the text left after it, or is
    [Malformed] where the decoder raises [JSONDecodeError].  Loops and
    nesting are bounded by a fuel; [Exhausted] tells that it ran out, which
    does not happen with the fuel [json_loads] gives (see
    [json_loads_fuel] below). *)

Inductive scanned (A : Type) : Type :=
| Scanned (a : A) (rest : string)
| Malformed
| Exhausted.
Arguments Scanned {A} a rest.
Arguments Malformed {A}.
Arguments Exhausted {A}.

Definition is_ws (c : char) : bool :=
  ((c =? 32) || (c =? 9) || (c =? 10) || (c =? 13))%N.

Fixpoint skip_ws (s : string) : string :=
  match s with
  | String c s' => if is_ws c then skip_ws s' else s
  | EmptyString => s
  end.

Definition is_digit (c : char) : bool := ((48 <=? c) && (c <=? 57))%N.

Definition digit_val (c : char) : Z := Z.of_N (c - 48).

Definition hex_val (c : char) : option N :=
  if ((48 <=? c) && (c <=? 57))%N then Some (c - 48)%N
  else if ((65 <=? c) && (c <=? 70))%N then Some (c - 55)%N
  else if ((97 <=? c) && (c <=? 102))%N then Some (c - 87)%N
  else None.

(** Four hexadecimal digits after a [\u]. *)
Definition decode_uXXXX (s : string) : option (N * string) :=
  match s with
  | String a (String b (String c (String d rest))) =>
      match hex_val a, hex_val b, hex_val c, hex_val d with
      | Some x, Some y, Some z, Some w =>
          Some ((((x * 16 + y) * 16 + z) * 16 + w)%N, rest)
      | _, _, _, _ => None
      end
  | _ => None
  end.

(** The text after its first [n] characters, [s[n:]]. *)
Fixpoint drop (n : nat) (s : string) : string :=
  match n, s with
  | O, _ => s
  | S _, EmptyString => EmptyString
  | S n', String _ s' => drop n' s'
  end.

(** [chr(cp)], as a one-character text. *)
Definition chr (cp : N) : string := String cp "".

(** The character an escape letter stands for. *)
Definition unescape (c : char) : option char :=
  if ((c =? 34) || (c =? 92) || (c =? 47))%N then Some c (* quote, backslash, slash *)
  else if (c =? 98)%N then Some 8%N       (* b: backspace *)
  else if (c =? 102)%N then Some 12%N     (* f: form feed *)
  else if (c =? 110)%N then Some 10%N     (* n: line feed *)
  else if (c =? 114)%N then Some 13%N     (* r: carriage return *)
  else if (c =? 116)%N then Some 9%N      (* t: tab *)
  else None.

Definition with_prefix (p : string) (r : scanned string) : scanned string :=
  match r with
  | Scanned body rest => Scanned (p ++ body) rest
  | Malformed => Malformed
  | Exhausted => Exhausted
  end.

(** [scanstring], strict mode, from just after the opening quote. *)
Fixpoint scanstring (fuel : nat) (s : string) : scanned string :=
  match fuel with
  | O => Exhausted
  | S fuel' =>
      match s with
      | EmptyString => Malformed
      | String c s' =>
          if Char.eqb c Py.dquote then Scanned "" s'
          else if Char.eqb c Py.backslash then
            match s' with
            | EmptyString => Malformed
            | String e s'' =>
                if Char.eqb e "u"%char then
                  match decode_uXXXX s'' with
                  | None => Malformed
                  | Some (uni, rest) =>
                      if ((55296 <=? uni) && (uni <=? 56319))%N
                         && Py.startswith (String Py.backslash "u") rest
                      then
                        match decode_uXXXX (drop 2 rest) with
                        | None => Malformed
                        | Some (uni2, rest2) =>
                            if ((56320 <=? uni2) && (uni2 <=? 57343))%N then
                              with_prefix
                                (chr (65536 + ((uni - 55296) * 1024 + (uni2 - 56320))))
                                (scanstring fuel' rest2)
                            else with_prefix (chr uni) (scanstring fuel' rest)
                        end
                      else with_prefix (chr uni) (scanstring fuel' rest)
                  end
                else
                  match unescape e with
                  | Some ch => with_prefix (String ch "") (scanstring fuel' s'')
                  | None => Malformed
                  end
            end
          else if (c <? 32)%N then Malformed
          else with_prefix (String c "") (scanstring fuel' s')
      end
  end.

(** Leading decimal digits of a text, and what follows them. *)
Fixpoint span_digits (s : string) : string * string :=
  match s with
  | String c s' =>
      if is_digit c then let (d, r) := span_digits s' in (String c d, r)
      else (EmptyString, s)
  | EmptyString => (EmptyString, EmptyString)
  end.

Fixpoint digits_value (acc : Z) (s : string) : Z :=
  match s with
  | String c s' => digits_value (10 * acc + digit_val c) s'
  | EmptyString => acc
  end.

(** The integer part [0|[1-9][0-9]*] of a number. *)
Definition match_int (s : string) : option (string * string) :=
  match s with
  | String c s' =>
      if Char.eqb c "0"%char then Some ("0", s')
      else if is_digit c then Some (span_digits s)
      else None
  | EmptyString => None
  end.

(** The optional fraction [\.[0-9]+]. *)
Definition match_frac (s : string) : string * string :=
  match s with
  | String c s' =>
      if Char.eqb c "."%char then
        match span_digits s' with
        | (EmptyString, _) => (EmptyString, s)
        | (d, r) => (String c d, r)
        end
      else (EmptyString, s)
  | EmptyString => (EmptyString, s)
  end.

(** The optional exponent [[eE][-+]?[0-9]+]. *)
Definition match_exp (s : string) : string * string :=
  match s with
  | String c s' =>
      if Char.eqb c "e"%char || Char.eqb c "E"%char then
        let (sign, s'') :=
          match s' with
          | String g t =>
              if Char.eqb g "-"%char || Char.eqb g "+"%char
              then (String g "", t) else ("", s')
          | EmptyString => ("", s')
          end in
        match span_digits s'' with
        | (EmptyString, _) => (EmptyString, s)
        | (d, r) => (String c (sign ++ d), r)
        end
      else (EmptyString, s)
  | EmptyString => (EmptyString, s)
  end.

(** [NUMBER_RE] matched at the head of the text: an [int] when there is
    neither fraction nor exponent, a [float] otherwise. *)
Definition match_number (s : string) : option (json * string) :=
  let (neg, s1) :=
    match s with
    | String c s' => if Char.eqb c "-"%char then (true, s') else (false, s)
    | EmptyString => (false, s)
    end in
  match match_int s1 with
  | None => None
  | Some (ipart, s2) =>
      let (frac, s3) := match_frac s2 in
      let (ex, s4) := match_exp s3 in
      match frac, ex with
      | EmptyString, EmptyString =>
          let n := digits_value 0 ipart in
          Some (JInt (if neg then (- n)%Z else n), s4)
      | _, _ =>
          Some (JFloat ((if neg then "-" else "") ++ ipart ++ frac ++ ex), s4)
      end
  end.

(** A literal keyword at the head of the text. *)
Definition keyword (kw : string) (v : json) (s : string) : scanned json :=
  if Py.startswith kw s then Scanned v (drop (Text.length kw) s) else Malformed.

Section Containers.

(** [scan_once] for the values nested in the container. *)
Variable scan : string -> scanned json.

(** The elements of an array, from its first value on. *)
Fixpoint array_items (fuel : nat) (s : string) : scanned (list json) :=
  match fuel with
  | O => Exhausted
  | S fuel' =>
      match scan s with
      | Exhausted => Exhausted
      | Malformed => Malformed
      | Scanned v r =>
          match skip_ws r with
          | String c r' =>
              if Char.eqb c "]"%char then Scanned [v] r'
              else if Char.eqb c ","%char then
                match array_items fuel' (skip_ws r') with
                | Scanned vs r'' => Scanned (v :: vs) r''
                | Malformed => Malformed
                | Exhausted => Exhausted
                end
              else Malformed
          | EmptyString => Malformed
          end
      end
  end.

(** [JSONArray], from just after the opening bracket. *)
Definition JSONArray (fuel : nat) (s : string) : scanned json :=
  match skip_ws s with
  | String c r =>
      if Char.eqb c "]"%char then Scanned (JArr []) r
      else match array_items fuel (skip_ws s) with
           | Scanned vs r' => Scanned (JArr vs) r'
           | Malformed => Malformed
           | Exhausted => Exhausted
           end
  | EmptyString => Malformed
  end.

(** The members of an object, from just after the opening quote of a
    key. *)
Fixpoint object_pairs (fuel : nat) (s : string)
  : scanned (list (string * json)) :=
  match fuel with
  | O => Exhausted
  | S fuel' =>
      match scanstring (S (Text.length s)) s with
      | Exhausted => Exhausted
      | Malformed => Malformed
      | Scanned key r =>
          match skip_ws r with
          | String c r1 =>
              if Char.eqb c ":"%char then
                match scan (skip_ws r1) with
                | Exhausted => Exhausted
                | Malformed => Malformed
                | Scanned v r2 =>
                    match skip_ws r2 with
                    | String d r3 =>
                        if Char.eqb d "}"%char then Scanned [(key, v)] r3
                        else if Char.eqb d ","%char then
                          match skip_ws r3 with
                          | String e r4 =>
                              if Char.eqb e Py.dquote then
                                match object_pairs fuel' r4 with
                                | Scanned kvs r5 => Scanned ((key, v) :: kvs) r5
                                | Malformed => Malformed
                                | Exhausted => Exhausted
                                end
                              else Malformed
                          | EmptyString => Malformed
                          end
                        else Malformed
                    | EmptyString => Malformed
                    end
                end
              else Malformed
          | EmptyString => Malformed
          end
      end
  end.

(** [JSONObject], from just after the opening brace. *)
Definition JSONObject (fuel : nat) (s : string) : scanned json :=
  match skip_ws s with
  | String c r =>
      if Char.eqb c "}"%char then Scanned (JObj []) r
      else if Char.eqb c Py.dquote then
        match object_pairs fuel r with
        | Scanned kvs r' => Scanned (JObj (dict_of_pairs kvs)) r'
        | Malformed => Malformed
        | Exhausted => Exhausted
        end
      else Malformed
  | EmptyString => Malformed
  end.

End Containers.

(** [scan_once]: one value at the head of the text. *)
Fixpoint scan_once (fuel : nat) (s : string) : scanned json :=
  match fuel with
  | O => Exhausted
  | S fuel' =>
      match s with
      | EmptyString => Malformed
      | String c s' =>
          if Char.eqb c Py.dquote then
            match scanstring (S (Text.length s')) s' with
            | Scanned str r => Scanned (JStr str) r
            | Malformed => Malformed
            | Exhausted => Exhausted
            end
          else if Char.eqb c "{"%char then
            JSONObject (scan_once fuel') (Text.length s) s'
          else if Char.eqb c "["%char then
            JSONArray (scan_once fuel') (Text.length s) s'
          else if Py.startswith "null" s then keyword "null" JNull s
          else if Py.startswith "true" s then keyword "true" (JBool true) s
          else if Py.startswith "false" s then keyword "false" (JBool false) s
          else
            match match_number s with
            | Some (v, r) => Scanned v r
            | None =>
                if Py.startswith "NaN" s then keyword "NaN" (JFloat "NaN") s
                else if Py.startswith "Infinity" s
                then keyword "Infinity" (JFloat "Infinity") s
                else if Py.startswith "-Infinity" s
                then keyword "-Infinity" (JFloat "-Infinity") s
                else Malformed
            end
      end
  end.

(** [json.loads(s)]: one value, with white space allowed around it and
    nothing else after it; [None] stands for [JSONDecodeError]. *)
Definition json_loads (s : string) : option json :=
  match scan_once (S (Text.length s)) (skip_ws s) with
  | Scanned v r =>
      match skip_ws r with
      | EmptyString => Some v
      | String _ _ => None
      end
  | Malformed => None
  | Exhausted => None
  end.

End Json.
(** ** models.py *)

Module Models.

Record NutritionInfo : Type := {
  calories : Z;
  protein : string;
  carbs : string
}.

Record Recipe : Type := {
  name : string;
  ingredients : list string;
  instructions : list string;
  cookingTime : string;
  difficulty : string;
  nutrition : NutritionInfo
}.

Record RecipeResponse : Type := {
  recipes : list Recipe;
  success : bool;
  message : option string
}.

(** A request, as a service reads it: its [ingredients] field.  The
    validator of the field runs when a request is built from a list, which
    is [RecipeService.validate_request] below; a service is a function of
    the field, whatever list it holds. *)
Record RecipeRequest : Type := {
  request_ingredients : list string
}.

(** Construction of a [Recipe] from the keyword arguments a dict unpacks to:
    the validation library either builds the record or raises. *)
Class Validation : Type := {
  Recipe_new : list (string * Json.json) -> result Recipe
}.

(** *** The field declarations read strictly

    Every field is required ([Field(...)]) and holds a value of its
    declared type; keys that name no field are ignored. *)

Definition as_str (v : option Json.json) : option string :=
  match v with Some (Json.JStr s) => Some s | _ => None end.

Definition as_int (v : option Json.json) : option Z :=
  match v with Some (Json.JInt n) => Some n | _ => None end.

Fixpoint all_str (l : list Json.json) : option (list string) :=
  match l with
  | [] => Some []
  | Json.JStr s :: l' =>
      match all_str l' with Some r => Some (s :: r) | None => None end
  | _ :: _ => None
  end.

Definition as_str_list (v : option Json.json) : option (list string) :=
  match v with Some (Json.JArr l) => all_str l | _ => None end.

Definition NutritionInfo_fields (v : option Json.json) : option NutritionInfo :=
  match v with
  | Some (Json.JObj d) =>
      match as_int (Json.dict_get "calories" d),
            as_str (Json.dict_get "protein" d),
            as_str (Json.dict_get "carbs" d) with
      | Some c, Some p, Some cb =>
          Some {| calories := c; protein := p; carbs := cb |}
      | _, _, _ => None
      end
  | _ => None
  end.

Definition Recipe_fields (d : list (string * Json.json)) : option Recipe :=
  match as_str (Json.dict_get "name" d),
        as_str_list (Json.dict_get "ingredients" d),
        as_str_list (Json.dict_get "instructions" d),
        as_str (Json.dict_get "cookingTime" d),
        as_str (Json.dict_get "difficulty" d),
        NutritionInfo_fields (Json.dict_get "nutrition" d) with
  | Some n, Some ing, Some ins, Some ct, Some df, Some nu =>
      Some {| name := n; ingredients := ing; instructions := ins;
              cookingTime := ct; difficulty := df; nutrition := nu |}
  | _, _, _, _, _, _ => None
  end.

Definition strict_validation : Validation := {|
  Recipe_new d :=
    match Recipe_fields d with
    | Some r => Ok r
    | None => Raise (Exn ValidationError "validation error for Recipe")
    end
|}.

End Models.

(** ** services/gemini_service.py *)

Module GeminiService.
Import Py Json Models.

(** The generative model behind [self.model]: [generate_content(prompt)]
    followed by [.text] gives the raw text, or raises. *)
Class GenerativeModel : Type := {
  generate_content : string -> result string
}.

Definition _create_recipe_prompt (ingredients : list string) : string :=
  let ingredients_str := join ", " ingredients in
  nl ++
  "Generate 2-3 creative recipe suggestions using these ingredients: "
    ++ ingredients_str ++ nl ++
  nl ++
  "Requirements:" ++ nl ++
  "- Each recipe must use the provided ingredients as primary components" ++ nl ++
  "- Include estimated cooking time and difficulty level" ++ nl ++
  "- Provide realistic nutritional information (calories, protein, carbs)" ++ nl ++
  "- Format response as valid JSON only" ++ nl ++
  "- Be creative but practical with cooking instructions" ++ nl ++
  nl ++
  "Response format (return ONLY valid JSON):" ++ nl ++
  "{" ++ nl ++
  "  " ++ q ++ "recipes" ++ q ++ ": [" ++ nl ++
  "    {" ++ nl ++
  "      " ++ q ++ "name" ++ q ++ ": " ++ q ++ "Recipe Name" ++ q ++ "," ++ nl ++
  "      " ++ q ++ "ingredients" ++ q ++ ": [" ++ q ++ "ingredient1" ++ q ++ ", "
    ++ q ++ "ingredient2" ++ q ++ ", " ++ q ++ "additional_ingredients_needed"
    ++ q ++ "]," ++ nl ++
  "      " ++ q ++ "instructions" ++ q ++ ": [" ++ q ++ "step1" ++ q ++ ", "
    ++ q ++ "step2" ++ q ++ ", " ++ q ++ "step3" ++ q ++ "]," ++ nl ++
  "      " ++ q ++ "cookingTime" ++ q ++ ": " ++ q ++ "X minutes" ++ q ++ "," ++ nl ++
  "      " ++ q ++ "difficulty" ++ q ++ ": " ++ q ++ "Easy/Medium/Hard" ++ q ++ "," ++ nl ++
  "      " ++ q ++ "nutrition" ++ q ++ ": {" ++ nl ++
  "        " ++ q ++ "calories" ++ q ++ ": X," ++ nl ++
  "        " ++ q ++ "protein" ++ q ++ ": " ++ q ++ "Xg" ++ q ++ "," ++ nl ++
  "        " ++ q ++ "carbs" ++ q ++ ": " ++ q ++ "Xg" ++ q ++ nl ++
  "      }" ++ nl ++
  "    }" ++ nl ++
  "  ]" ++ nl ++
  "}" ++ nl ++
  nl ++
  "Important: Return ONLY the JSON response, no additional text or explanations."
    ++ nl.

(** The two fence markers. *)
Definition fence : string := "```".
Definition json_fence : string := "```json".

(** The text handed to [json.loads]: the first assignment of
    [cleaned_text] and the [if]/[elif] that follows it. *)
Definition json_candidate (response_text : string) : string :=
  let cleaned_text := strip response_text in
  if contains json_fence cleaned_text then
    let start := (find cleaned_text json_fence + 7)%Z in
    let stop := rfind cleaned_text fence in
    strip (slice cleaned_text start stop)
  else if contains fence cleaned_text then
    let start := (find cleaned_text fence + 3)%Z in
    let stop := rfind cleaned_text fence in
    strip (slice cleaned_text start stop)
  else cleaned_text.

(** [data.get("recipes", [])] *)
Definition get_recipes (data : json) : result json :=
  match data with
  | JObj d =>
      Ok (match dict_get "recipes" d with Some v => v | None => JArr [] end)
  | _ =>
      Raise (Exn AttributeError
               ("'" ++ type_name data ++ "' object has no attribute 'get'"))
  end.

Fixpoint chars (s : string) : list json :=
  match s with
  | EmptyString => []
  | String c s' => JStr (String c "") :: chars s'
  end.

(** The values a [for] loop over a decoded value goes through. *)
Definition iterate (v : json) : result (list json) :=
  match v with
  | JArr items => Ok items
  | JStr s => Ok (chars s)
  | JObj d => Ok (map (fun kv => JStr (fst kv)) d)
  | _ => Raise (Exn TypeError ("'" ++ type_name v ++ "' object is not iterable"))
  end.

Section Parse.
Context `{Validation}.

(** [Recipe] applied to the unpacked [recipe_data], which must be a
    mapping to be unpacked.  The error raised otherwise is only printed by
    the loop below. *)
Definition construct (recipe_data : json) : result Recipe :=
  match recipe_data with
  | JObj kwargs => Recipe_new kwargs
  | _ =>
      Raise (Exn TypeError
               ("argument after ** must be a mapping, not "
                  ++ type_name recipe_data))
  end.

(** The [for] loop over the candidates: a record that cannot be built
    is skipped (after a warning is printed), the others are appended. *)
Fixpoint collect (recipes : list Recipe) (items : list json) : list Recipe :=
  match items with
  | [] => recipes
  | recipe_data :: rest =>
      match construct recipe_data with
      | Ok recipe => collect (recipes ++ [recipe])%list rest
      | Raise _ => collect recipes rest
      end
  end.

(** The body of the [try] of [_parse_ai_response].  The handlers do not
    use the text of a decode error. *)
Definition parse_body (response_text : string) : result (list Recipe) :=
  let cleaned_text := json_candidate response_text in
  data <- match json_loads cleaned_text with
          | Some d => Ok d
          | None => Raise (Exn JSONDecodeError "Expecting value")
          end ;;
  value <- get_recipes data ;;
  items <- iterate value ;;
  Ok (collect [] items).

Definition _parse_ai_response (response_text : string) : result (list Recipe) :=
  match parse_body response_text with
  | Ok recipes => Ok recipes
  | Raise e =>
      match exn_class e with
      | JSONDecodeError =>
          Raise (Exn ValueError "Failed to parse AI response as JSON")
      | _ =>
          Raise (Exn ValueError
                   ("Failed to process AI response: " ++ exn_str e))
      end
  end.

Context `{GenerativeModel}.

Definition generate_recipes (ingredients : list string) : RecipeResponse :=
  let attempt :=
    let prompt := _create_recipe_prompt ingredients in
    response_text <- generate_content prompt ;;
    recipes <- _parse_ai_response response_text ;;
    Ok {| recipes := recipes;
          success := true;
          message := Some ("Generated " ++ str_of_nat (List.length recipes)
                             ++ " recipes using your ingredients") |} in
  match attempt with
  | Ok response => response
  | Raise e =>
      {| recipes := [];
         success := false;
         message := Some ("Failed to generate recipes: " ++ exn_str e) |}
  end.

End Parse.

Section Connection.
Context `{GenerativeModel}.

(** [test_connection]: whether the model answers the test prompt with a text
    that holds [Hello]; any exception gives [False]. *)
Definition test_connection : bool :=
  let test_prompt := "Say 'Hello' in one word." in
  match generate_content test_prompt with
  | Ok text => contains "Hello" text
  | Raise _ => false
  end.

End Connection.

End GeminiService.

(** ** services/recipe_service.py *)

Module RecipeService.
Import Py Models.

(** The validator of [RecipeRequest.ingredients] of [models.py], run when
    a request is built from a list: [RecipeRequest(ingredients=v)]. *)
Definition validate_request `{Casing} (v : list string) : result RecipeRequest :=
  match v with
  | [] => Raise (Exn ValueError "Ingredients list cannot be empty")
  | _ =>
      Ok {| request_ingredients :=
              map (fun ingredient => lower (strip ingredient))
                (filter (fun ingredient => truthy (strip ingredient)) v) |}
  end.

Section Orchestrator.
Context `{Validation} `{GeminiService.GenerativeModel}.

Definition generate_recipes_from_ingredients (request : RecipeRequest)
  : RecipeResponse :=
  match request_ingredients request with
  | [] =>
      {| recipes := []; success := false;
         message := Some "No ingredients provided" |}
  | _ =>
      let valid_ingredients :=
        filter (fun ing => truthy (strip ing)) (request_ingredients request) in
      match valid_ingredients with
      | [] =>
          {| recipes := []; success := false;
             message := Some "No valid ingredients found" |}
      | _ =>
          let response := GeminiService.generate_recipes valid_ingredients in
          if negb (success response) then response
          else
            match recipes response with
            | [] =>
                {| recipes := []; success := false;
                   message :=
                     Some "No recipes could be generated with the provided ingredients" |}
            | _ => response
            end
      end
  end.

End Orchestrator.

(** The [for] loop of [sanitize_ingredients], with the list built so far. *)
Fixpoint sanitize_loop `{Casing} (sanitized : list string)
    (ingredients : list string) : list string :=
  match ingredients with
  | [] => sanitized
  | ingredient :: rest =>
      let cleaned := lower (strip ingredient) in
      if truthy cleaned && (Text.length cleaned <=? 100)%nat
      then sanitize_loop (sanitized ++ [cleaned])%list rest
      else sanitize_loop sanitized rest
  end.

Definition sanitize_ingredients `{Casing} (ingredients : list string)
  : list string :=
  sanitize_loop [] ingredients.

(** The first entry of more than 100 characters once trimmed, if any: the
    [for] loop of [validate_ingredients]. *)
Fixpoint first_too_long (ingredients : list string) : option string :=
  match ingredients with
  | [] => None
  | ingredient :: rest =>
      if (100 <? Text.length (strip ingredient))%nat then Some ingredient
      else first_too_long rest
  end.

(** [validate_ingredients]: the verdict and, on rejection, the reason.  The
    test [len(ingredients) < 1] comes after the test of emptiness and never
    holds. *)
Definition validate_ingredients (ingredients : list string)
  : bool * option string :=
  match ingredients with
  | [] => (false, Some "Ingredients list cannot be empty")
  | _ =>
      match first_too_long ingredients with
      | Some ingredient =>
          (false, Some ("Ingredient '" ++ ingredient ++ "' is too long"))
      | None => (true, None)
      end
  end.

(** The dict [get_recipe_summary] returns for a non-empty list. *)
Record Summary : Type := {
  total_recipes : nat;
  average_calories : Z;
  difficulty_distribution : list (string * nat);
  cooking_times : list string
}.

(** [counts.get(key, 0)] *)
Fixpoint count_get (key : string) (counts : list (string * nat)) : nat :=
  match counts with
  | [] => 0
  | (k, n) :: rest => if Text.eqb k key then n else count_get key rest
  end.

(** [counts[key] = n] *)
Fixpoint count_set (key : string) (n : nat) (counts : list (string * nat))
  : list (string * nat) :=
  match counts with
  | [] => [(key, n)]
  | (k, m) :: rest =>
      if Text.eqb k key then (k, n) :: rest
      else (k, m) :: count_set key n rest
  end.

(** The loop that fills [difficulty_counts]. *)
Fixpoint tally `{Casing} (difficulty_counts : list (string * nat))
    (recipes : list Recipe) : list (string * nat) :=
  match recipes with
  | [] => difficulty_counts
  | recipe :: rest =>
      let difficulty := lower (difficulty recipe) in
      tally (count_set difficulty (count_get difficulty difficulty_counts + 1)
               difficulty_counts) rest
  end.

(** [sum(recipe.nutrition.calories for recipe in recipes)] *)
Fixpoint sum_calories (recipes : list Recipe) : Z :=
  match recipes with
  | [] => 0%Z
  | recipe :: rest => (calories (nutrition recipe) + sum_calories rest)%Z
  end.

(** [get_recipe_summary]: [None] stands for the empty dict returned for an
    empty list. *)
Definition get_recipe_summary `{Casing} (recipes : list Recipe)
  : option Summary :=
  match recipes with
  | [] => None
  | _ =>
      let total_calories := sum_calories recipes in
      let avg_calories := (total_calories / Z.of_nat (List.length recipes))%Z in
      let difficulty_counts := tally [] recipes in
      Some {| total_recipes := List.length recipes;
              average_calories := avg_calories;
              difficulty_distribution := difficulty_counts;
              cooking_times := map cookingTime recipes |}
  end.

(** The dict [test_service_health] returns. *)
Record Health : Type := {
  status : string;
  gemini_ai : string;
  error : option string;
  timestamp : string
}.

Section HealthCheck.
Context `{GeminiService.GenerativeModel}.

(** [test_service_health].  [test_connection] catches every exception and
    returns a boolean, so the handler of the [try] around the call, which
    would report the status [unhealthy], is never entered. *)
Definition test_service_health : Health :=
  let gemini_working := GeminiService.test_connection in
  {| status := if gemini_working then "healthy" else "degraded";
     gemini_ai := if gemini_working then "operational" else "unavailable";
     error := None;
     timestamp := "2024-01-01T00:00:00Z" |}.

End HealthCheck.

End RecipeService.

(** ** services/storage_service.py *)

Module StorageService.
Import Py.

Record UserInput : Type := {
  ingredients : list string;
  ingredient_count : nat
}.

Record LlmInteraction : Type := {
  raw_response : option string;
  response_length : nat;
  response_type : string
}.

Record ParsedOutput : Type := {
  recipes : list Json.json;
  recipe_count : nat;
  success : bool
}.

Record Metadata : Type := {
  error_message : option string;
  processing_status : string
}.

(** One entry of the log, the dict [interaction_data]. *)
Record Interaction : Type := {
  interaction_id : string;
  timestamp : string;
  user_input : UserInput;
  llm_interaction : LlmInteraction;
  parsed_output : ParsedOutput;
  metadata : Metadata
}.

(** The storage file, by the document it holds: the list of records under
    the key [interactions] when the document has that key, and the size of
    the file in bytes.  These are the documents the service writes, and
    the document without the key; a file that holds anything else is not
    described. *)
Record file : Type := {
  interactions : option (list Interaction);
  st_size : nat
}.

(** The file system at [self.storage_file]: [None] when no file exists. *)
Definition storage := option file.

(** A value of the dict [get_storage_stats] returns. *)
Inductive stat : Type :=
| SInt (n : Z)
| SFloat (x : spec_float)
| SStr (s : string).

Fixpoint lookup (key : string) (d : list (string * stat)) : option stat :=
  match d with
  | [] => None
  | (k, v) :: d' => if Text.eqb k key then Some v else lookup key d'
  end.

Section Service.

(** [self.storage_file], the path of the log. *)
Variable storage_file : string.

(** Number of bytes [json.dump] writes for a document with the given
    interactions. *)
Variable dump_size : list Interaction -> nat.

Definition write (l : list Interaction) : storage :=
  Some {| interactions := Some l; st_size := dump_size l |}.

Definition ensure_storage_file_exists (fs : storage) : storage :=
  match fs with
  | None => write []
  | Some _ => fs
  end.

(** [generate_interaction_id], given the clock reading formatted by
    [strftime("%Y%m%d_%H%M%S")]. *)
Definition generate_interaction_id (now : string) : string :=
  "recipe_interaction_" ++ now.

(** [store_interaction].  [now] is the clock reading the identifier is
    made of, [now_iso] the one of the [timestamp] field; the result is
    the identifier returned and the file system after the write. *)
Definition store_interaction (now now_iso : string)
    (user_ingredients : list string) (llm_response : option string)
    (parsed_recipes : list Json.json) (success : bool)
    (error_message : option string) (fs : storage)
  : result (string * storage) :=
  let interaction_id := generate_interaction_id now in
  let interaction_data := {|
    interaction_id := interaction_id;
    timestamp := now_iso;
    user_input := {|
      ingredients := user_ingredients;
      ingredient_count := List.length user_ingredients |};
    llm_interaction := {|
      raw_response := llm_response;
      response_length :=
        match llm_response with
        | Some text => Text.length text
        | None => 0
        end;
      response_type :=
        match llm_response with Some _ => "str" | None => "NoneType" end |};
    parsed_output := {|
      recipes := parsed_recipes;
      recipe_count :=
        match parsed_recipes with [] => 0 | _ => List.length parsed_recipes end;
      success := success |};
    metadata := {|
      error_message := error_message;
      processing_status := if success then "success" else "failed" |}
  |} in
  match fs with
  | None =>
      Raise (Exn FileNotFoundError
               ("[Errno 2] No such file or directory: '" ++ storage_file ++ "'"))
  | Some f =>
      match interactions f with
      | None => Raise (Exn KeyError "'interactions'")
      | Some l => Ok (interaction_id, write (l ++ [interaction_data])%list)
      end
  end.

Definition get_all_interactions (fs : storage) : list Interaction :=
  match fs with
  | None => []
  | Some f =>
      match interactions f with
      | Some l => l
      | None => []
      end
  end.

(** The linear scan of [get_interaction_by_id]. *)
Fixpoint scan_for (interaction_id' : string) (l : list Interaction)
  : option Interaction :=
  match l with
  | [] => None
  | interaction :: rest =>
      if Text.eqb (interaction_id interaction) interaction_id'
      then Some interaction
      else scan_for interaction_id' rest
  end.

Definition get_interaction_by_id (fs : storage) (interaction_id' : string)
  : option Interaction :=
  scan_for interaction_id' (get_all_interactions fs).

Definition get_recent_interactions (fs : storage) (limit : Z)
  : list Interaction :=
  let interactions := get_all_interactions fs in
  match interactions with
  | [] => []
  | _ => list_slice_from interactions (- limit)
  end.

(** [sum(1 for i in interactions if i["parsed_output"]["success"])] *)
Fixpoint count_successful (l : list Interaction) : nat :=
  match l with
  | [] => 0
  | i :: rest =>
      (if success (parsed_output i) then 1 else 0) + count_successful rest
  end.

(** [sum(i["parsed_output"]["recipe_count"] for i in interactions)] *)
Fixpoint sum_recipe_count (l : list Interaction) : nat :=
  match l with
  | [] => 0
  | i :: rest => recipe_count (parsed_output i) + sum_recipe_count rest
  end.

(** The binary64 format of a Python [float]. *)
Definition prec : Z := 53.
Definition emax : Z := 1024.

(** A count as the operand of a division: the integer itself, not yet
    rounded. *)
Definition operand (n : nat) : spec_float :=
  match n with
  | O => S754_zero false
  | S k => S754_finite false (Pos.of_succ_nat k) 0
  end.

(** [float(n)], the float an integer is converted to when it is multiplied
    with a float. *)
Definition float_of_int (n : Z) : spec_float :=
  binary_normalize prec emax n 0 false.

(** A float that is a number: a zero or a finite float. *)
Definition is_finite (x : spec_float) : bool :=
  match x with
  | S754_zero _ | S754_finite _ _ _ => true
  | S754_infinity _ | S754_nan => false
  end.

(** [a / b] on counts: the quotient of the two integers rounded once, to
    the nearest float; [ZeroDivisionError] when the divisor is zero, and
    [OverflowError] when the quotient is beyond the floats. *)
Definition true_div (a b : nat) : result spec_float :=
  if (b =? 0)%nat then Raise (Exn ZeroDivisionError "division by zero")
  else
    let x := SFdiv prec emax (operand a) (operand b) in
    if is_finite x then Ok x
    else Raise (Exn OverflowError
                  "integer division result too large for a float").

(** [x * n] on a float and an integer. *)
Definition mul_int (x : spec_float) (n : Z) : spec_float :=
  SFmul prec emax x (float_of_int n).

Definition get_storage_stats (fs : storage) : result (list (string * stat)) :=
  let interactions := get_all_interactions fs in
  match interactions with
  | [] => Ok [("total_interactions", SInt 0)]
  | _ =>
      let total_interactions := List.length interactions in
      let successful_interactions := count_successful interactions in
      let failed_interactions :=
        (Z.of_nat total_interactions - Z.of_nat successful_interactions)%Z in
      let total_recipes_generated := sum_recipe_count interactions in
      success_rate <-
        (if (0 <? total_interactions)%nat
         then x <- true_div successful_interactions total_interactions ;;
              Ok (SFloat (mul_int x 100))
         else Ok (SInt 0)) ;;
      average_recipes_per_interaction <-
        (if (0 <? successful_interactions)%nat
         then x <- true_div total_recipes_generated successful_interactions ;;
              Ok (SFloat x)
         else Ok (SInt 0)) ;;
      Ok [ ("total_interactions", SInt (Z.of_nat total_interactions));
           ("successful_interactions", SInt (Z.of_nat successful_interactions));
           ("failed_interactions", SInt failed_interactions);
           ("success_rate", success_rate);
           ("total_recipes_generated", SInt (Z.of_nat total_recipes_generated));
           ("average_recipes_per_interaction", average_recipes_per_interaction);
           ("storage_file", SStr storage_file);
           ("file_size_bytes",
             SInt (match fs with
                   | Some f => Z.of_nat (st_size f)
                   | None => 0%Z
                   end)) ]
  end.

End Service.

End StorageService.

(** ** main.py *)

Module Main.
Import Py Models.

(** [HTTPException(status_code, detail)] *)
Record HTTPException : Type := {
  status_code : nat;
  detail : option string
}.

(** What an endpoint does: it returns a body, or raises an
    [HTTPException]. *)
Inductive reply (A : Type) : Type :=
| Respond (body : A)
| Abort (e : HTTPException).
Arguments Respond {A} body.
Arguments Abort {A} e.

Section Endpoints.
Context `{Casing} `{Validation} `{GeminiService.GenerativeModel}.

(** The handler of [POST /api/recipes/generate], from the request the
    framework built.  The logging calls have no effect on the reply.  An
    [HTTPException] raised in the body passes through the first handler;
    any other exception becomes a 500 by the second. *)
Definition generate_recipes (request : RecipeRequest) : reply RecipeResponse :=
  let (is_valid, error_message) :=
    RecipeService.validate_ingredients (request_ingredients request) in
  if negb is_valid then Abort {| status_code := 400; detail := error_message |}
  else
    let sanitized_ingredients :=
      RecipeService.sanitize_ingredients (request_ingredients request) in
    match sanitized_ingredients with
    | [] =>
        Abort {| status_code := 400;
                 detail := Some "No valid ingredients found after sanitization" |}
    | _ =>
        match RecipeService.validate_request sanitized_ingredients with
        | Raise e =>
            Abort {| status_code := 500;
                     detail := Some ("Internal server error: " ++ exn_str e) |}
        | Ok sanitized_request =>
            let response :=
              RecipeService.generate_recipes_from_ingredients sanitized_request in
            if negb (success response)
            then Abort {| status_code := 500; detail := message response |}
            else Respond response
        end
    end.

(** [POST /api/recipes/generate], from the list of ingredients posted.
    The framework builds the [RecipeRequest], which runs its validator, and
    calls the handler with it.  When the validator raises, the handler is
    not called: the framework answers 422 with the validation error. *)
Definition post_generate_recipes (v : list string)
  : result (reply RecipeResponse) :=
  request <- RecipeService.validate_request v ;;
  Ok (generate_recipes request).

End Endpoints.

(** [GET /api/interactions/{interaction_id}], on the storage file. *)
Definition get_interaction (fs : StorageService.storage) (interaction_id : string)
  : reply StorageService.Interaction :=
  match StorageService.get_interaction_by_id fs interaction_id with
  | None =>
      Abort {| status_code := 404; detail := Some "Interaction not found" |}
  | Some interaction => Respond interaction
  end.

End Main.

(** ** Sample collaborators, for running the services on concrete inputs *)

Module Samples.
Import Py Json Models.

(** A model that answers every prompt with the same text. *)
Definition answering (text : string) : GeminiService.GenerativeModel :=
  {| GeminiService.generate_content := fun _ => Ok text |}.

(** A model whose call fails with the given description. *)
Definition unreachable (why : string) : GeminiService.GenerativeModel :=
  {| GeminiService.generate_content := fun _ => Raise (Exn ProviderError why) |}.

(** [{"recipes":[]}] *)
Definition no_recipes_text : string :=
  "{" ++ q ++ "recipes" ++ q ++ ":[]}".

(** The fenced answer of the specification's example. *)
Definition fenced_text : string :=
  "```json" ++ nl ++ no_recipes_text ++ nl ++ "```".

Definition kv (k v : string) : string := q ++ k ++ q ++ ":" ++ v.
Definition str (s : string) : string := q ++ s ++ q.

(** A well-formed recipe object with the given name, as the model would
    write it. *)
Definition recipe_text (name : string) : string :=
  "{" ++ kv "name" (str name) ++ ","
      ++ kv "ingredients" ("[" ++ str "egg" ++ "," ++ str "butter" ++ "]") ++ ","
      ++ kv "instructions" ("[" ++ str "whisk" ++ "," ++ str "fry" ++ "]") ++ ","
      ++ kv "cookingTime" (str "10 minutes") ++ ","
      ++ kv "difficulty" (str "Easy") ++ ","
      ++ kv "nutrition"
           ("{" ++ kv "calories" "210" ++ "," ++ kv "protein" (str "12g")
                ++ "," ++ kv "carbs" (str "1g") ++ "}")
      ++ "}".

(** The same object without its [name] field. *)
Definition nameless_recipe_text : string :=
  "{" ++ kv "ingredients" ("[" ++ str "egg" ++ "]") ++ ","
      ++ kv "instructions" ("[" ++ str "boil" ++ "]") ++ ","
      ++ kv "cookingTime" (str "5 minutes") ++ ","
      ++ kv "difficulty" (str "Easy") ++ ","
      ++ kv "nutrition"
           ("{" ++ kv "calories" "70" ++ "," ++ kv "protein" (str "6g")
                ++ "," ++ kv "carbs" (str "0g") ++ "}")
      ++ "}".

(** [{"recipes": null}] *)
Definition null_recipes_text : string :=
  "{" ++ q ++ "recipes" ++ q ++ ": null}".

(** A tagged fence around an answer set off by form feeds. *)
Definition form_feed_fenced_text : string :=
  "```json" ++ String 12%N no_recipes_text ++ String 12%N "```".


Definition recipes_text (items : list string) : string :=
  "{" ++ kv "recipes" ("[" ++ join "," items ++ "]") ++ "}".

Definition omelette : Recipe :=
  {| name := "Omelette";
     ingredients := ["egg"; "butter"];
     instructions := ["whisk"; "fry"];
     cookingTime := "10 minutes";
     difficulty := "Easy";
     nutrition := {| calories := 210; protein := "12g"; carbs := "1g" |} |}.

(** Three recipes whose difficulties differ in case. *)
Definition menu : list Recipe :=
  [ omelette;
    {| name := "Stew"; ingredients := ["beef"]; instructions := ["simmer"];
       cookingTime := "2 hours"; difficulty := "EASY";
       nutrition := {| calories := 521; protein := "30g"; carbs := "20g" |} |};
    {| name := "Souffle"; ingredients := ["egg"]; instructions := ["bake"];
       cookingTime := "40 minutes"; difficulty := "Hard";
       nutrition := {| calories := 300; protein := "10g"; carbs := "9g" |} |} ].

Fixpoint repeat_char (c : char) (n : nat) : string :=
  match n with
  | O => EmptyString
  | S n' => String c (repeat_char c n')
  end.

(** An ingredient of 101 characters. *)
Definition long_ingredient : string := repeat_char "a" 101.

(** An ingredient of 100 characters that begins with U+0130, the capital I
    with a dot above; its lowercase form has 101 characters. *)
Definition dotted_ingredient : string := String 0x130%N (repeat_char "a" 99).

(** The answer [{"recipes":[]}] after a no-break space, U+00A0. *)
Definition padded_text : string := String 0xA0%N no_recipes_text.

(** The lowercase form of a character that is an ASCII character or
    U+0130: a capital letter of ASCII becomes the small one, U+0130 becomes
    [i] followed by the combining dot above, U+0307.  *)
Definition lower_char (c : char) : string :=
  if ((65 <=? c) && (c <=? 90))%N then String (c + 32)%N ""
  else if (c =? 0x130)%N then String "i" (String 0x307%N "")
  else String c "".

(** [str.lower] on the texts made of such characters (any other character
    is left as it is). *)
Fixpoint lower (s : string) : string :=
  match s with
  | EmptyString => EmptyString
  | String c s' => lower_char c ++ lower s'
  end.

(** A log kept at [recipe_interactions.json]; the size of a dump stands
    for what [json.dump] would write. *)
Definition path : string := "recipe_interactions.json".
Definition size (l : list StorageService.Interaction) : nat :=
  21 + 400 * List.length l.

(** The file system left by an append, and the empty one if it raised. *)
Definition after (r : result (string * StorageService.storage))
  : StorageService.storage :=
  match r with
  | Ok (_, fs) => fs
  | Raise _ => None
  end.

(** One successful call logged at the clock reading [now]. *)
Definition log (now : string) (ingredients : list string) (parsed : list json)
    (fs : StorageService.storage) : StorageService.storage :=
  after (StorageService.store_interaction path size now "2024-01-01T12:00:00"
           ingredients (Some no_recipes_text) parsed
           (match parsed with [] => false | _ => true end) None fs).

Definition fresh : StorageService.storage :=
  StorageService.ensure_storage_file_exists size None.

(** Five appends, one second apart. *)
Definition five_logged : StorageService.storage :=
  log "20240101_120004" ["flour"] [JObj []; JObj []]
    (log "20240101_120003" ["rice"] []
       (log "20240101_120002" ["milk"] [JObj []]
          (log "20240101_120001" ["egg"] [JObj []; JObj []; JObj []]
             (log "20240101_120000" ["salt"] [] fresh)))).

(** Three appends, of which the second alone is a success. *)
Definition three_logged : StorageService.storage :=
  log "20240101_120002" ["milk"] []
    (log "20240101_120001" ["egg"] [JObj []]
       (log "20240101_120000" ["salt"] [] fresh)).

End Samples.

(** ** Vocabulary of the properties *)

(** A text that does not begin with white space. *)
Definition headed (s : string) : Prop :=
  match s with
  | EmptyString => True
  | String c _ => Py.isspace c = false
  end.

(** The normal form of an entry: trimmed, then lowercased. *)
Definition normal_form `{Py.Casing} (ingredient : string) : string :=
  Py.lower (Py.strip ingredient).

(** An entry survives normalization when its normal form is not empty and
    has at most 100 characters. *)
Definition survives `{Py.Casing} (ingredient : string) : bool :=
  Py.truthy (normal_form ingredient)
  && (Text.length (normal_form ingredient) <=? 100)%nat.

Definition is_lowercase `{Py.Casing} (s : string) : Prop := Py.lower s = s.
Definition is_trimmed (s : string) : Prop := Py.strip s = s.

(** An entry is blank when nothing is left of it once trimmed. *)
Definition blank (ingredient : string) : Prop :=
  Py.strip ingredient = EmptyString.

(** The last [k] elements of a list, in their order. *)
Definition last_records {A : Type} (k : nat) (l : list A) : list A :=
  skipn (List.length l - k) l.

(** [sub] occurs in [s] at index [i]. *)
Fixpoint occurs_at (sub s : string) (i : nat) {struct i} : bool :=
  match i with
  | O => Py.startswith sub s
  | S i' =>
      match s with
      | EmptyString => false
      | String _ s' => occurs_at sub s' i'
      end
  end.

(** [i] is the index of the first, respectively the last, occurrence of
    [sub] in [s]. *)
Definition first_occurrence (sub s : string) (i : nat) : Prop :=
  occurs_at sub s i = true /\ forall j, j < i -> occurs_at sub s j = false.

Definition last_occurrence (sub s : string) (i : nat) : Prop :=
  occurs_at sub s i = true /\ forall j, i < j -> occurs_at sub s j = false.

(** [sub] occurs nowhere in [s]. *)
Definition absent (sub s : string) : Prop :=
  forall j, occurs_at sub s j = false.

(** A text with no white space in it. *)
Fixpoint spaceless (s : string) : bool :=
  match s with
  | EmptyString => true
  | String c s' => negb (Py.isspace c) && spaceless s'
  end.

(** Number of white-space characters a text begins with. *)
Fixpoint indent (s : string) : nat :=
  match s with
  | EmptyString => 0
  | String c s' => if Py.isspace c then S (indent s') else 0
  end.

(** The error [_parse_ai_response] raises when the candidate does not
    decode. *)
Definition parse_error : exn :=
  Exn ValueError "Failed to parse AI response as JSON".

(** The error [_parse_ai_response] raises when the decoded payload cannot
    be processed. *)
Definition process_error (e : exn) : exn :=
  Exn ValueError ("Failed to process AI response: " ++ exn_str e).

(** The candidates from which a [Recipe] can be built, as records, in
    their order. *)
Definition keep_valid `{Models.Validation} (items : list Json.json)
  : list Models.Recipe :=
  flat_map (fun recipe_data =>
              match GeminiService.construct recipe_data with
              | Ok recipe => [recipe]
              | Raise _ => []
              end) items.

(** A failure envelope with the given message. *)
Definition failure (msg : string) : Models.RecipeResponse :=
  {| Models.recipes := []; Models.success := false; Models.message := Some msg |}.

(** The invariant of the result envelope. *)
Definition envelope_invariant (r : Models.RecipeResponse) : Prop :=
  (Models.success r = true -> Models.recipes r <> [])
  /\ (Models.success r = false ->
      Models.recipes r = [] /\ Models.message r <> None).

(** A scan that gives back less text than it was given. *)
Definition shortens {A : Type} (scan : string -> Json.scanned A) : Prop :=
  forall t a r, scan t = Json.Scanned a r -> Text.length r < Text.length t.

(** A text that holds no backtick. *)
Fixpoint tick_free (s : string) : bool :=
  match s with
  | EmptyString => true
  | String c s' => negb (Char.eqb c "`") && tick_free s'
  end.

(** The identifiers of the records of a store, in store order. *)
Definition ids (l : list StorageService.Interaction) : list string :=
  map StorageService.interaction_id l.

(** A record whose derived fields agree with the data it holds. *)
Definition well_counted (r : StorageService.Interaction) : Prop :=
  StorageService.ingredient_count (StorageService.user_input r)
  = List.length (StorageService.ingredients (StorageService.user_input r))
  /\ StorageService.recipe_count (StorageService.parsed_output r)
     = List.length (StorageService.recipes (StorageService.parsed_output r))
  /\ StorageService.response_length (StorageService.llm_interaction r)
     = match StorageService.raw_response (StorageService.llm_interaction r) with
       | Some text => Text.length text
       | None => 0
       end
  /\ (StorageService.processing_status (StorageService.metadata r) = "success"
      <-> StorageService.success (StorageService.parsed_output r) = true)
  /\ (StorageService.processing_status (StorageService.metadata r) = "failed"
      <-> StorageService.success (StorageService.parsed_output r) = false).

(** The sum of the counts of a distribution. *)
Fixpoint sum_counts (counts : list (string * nat)) : nat :=
  match counts with
  | [] => 0
  | (_, n) :: rest => n + sum_counts rest
  end.

(** The recipes whose difficulty, lowercased, is [key]. *)
Definition with_difficulty `{Py.Casing} (key : string)
    (recipes : list Models.Recipe) : list Models.Recipe :=
  filter (fun r => Text.eqb (Py.lower (Models.difficulty r)) key) recipes.

(** An entry whose trimmed form has at most 100 characters. *)
Definition short_enough (ingredient : string) : Prop :=
  Text.length (Py.strip ingredient) <= 100.

(** An entry whose normal form has at most 100 characters. *)
Definition fits `{Py.Casing} (ingredient : string) : Prop :=
  Text.length (normal_form ingredient) <= 100.

(** The float nearest to the quotient of two counts, and that quotient as
    a percentage, computed as [(a / b) * 100] is. *)
Definition quotient (a b : nat) : spec_float :=
  SFdiv StorageService.prec StorageService.emax
    (StorageService.operand a) (StorageService.operand b).

Definition percentage (a b : nat) : spec_float :=
  StorageService.mul_int (quotient a b) 100.

(** The statistics were computed and hold [v] under [key]. *)
Definition reports (key : string) (v : StorageService.stat)
    (stats : result (list (string * StorageService.stat))) : Prop :=
  exists d, stats = Ok d /\ StorageService.lookup key d = Some v.

(** * Properties *)

(** ** Facts about text and the built-ins *)

Section TextFacts.

Lemma char_eqb_refl (a : char) : Char.eqb a a = true.
Proof. apply N.eqb_refl. Qed.

Lemma char_eqb_eq (a b : char) : Char.eqb a b = true <-> a = b.
Proof. apply N.eqb_eq. Qed.

Lemma char_eqb_sym (a b : char) : Char.eqb a b = Char.eqb b a.
Proof. apply N.eqb_sym. Qed.

Lemma char_eqb_spec (a b : char) : reflect (a = b) (Char.eqb a b).
Proof. apply N.eqb_spec. Qed.

Lemma text_eqb_refl (s : string) : Text.eqb s s = true.
Proof.
  induction s as [|c s IH]; simpl; [reflexivity|].
  now rewrite char_eqb_refl, IH.
Qed.

Lemma text_eqb_eq (s1 s2 : string) : Text.eqb s1 s2 = true <-> s1 = s2.
Proof.
  revert s2. induction s1 as [|c1 s1 IH]; intros [|c2 s2]; simpl;
    try (split; [discriminate | congruence]); [split; reflexivity|].
  rewrite andb_true_iff, char_eqb_eq, IH. split.
  - now intros [-> ->].
  - intros [= -> ->]. now split.
Qed.

Lemma text_eqb_spec (s1 s2 : string) : reflect (s1 = s2) (Text.eqb s1 s2).
Proof.
  destruct (Text.eqb s1 s2) eqn:E; constructor.
  - now apply text_eqb_eq.
  - intros H. apply text_eqb_eq in H. congruence.
Qed.

Lemma append_nil_r (s : string) : s ++ "" = s.
Proof. induction s as [|c s IH]; simpl; congruence. Qed.

Lemma append_assoc (a b c : string) : (a ++ b) ++ c = a ++ b ++ c.
Proof. induction a as [|x a IH]; simpl; congruence. Qed.

Lemma append_length (a b : string) :
  Text.length (a ++ b) = Text.length a + Text.length b.
Proof. induction a as [|x a IH]; simpl; congruence. Qed.

End TextFacts.

Section PyFacts.
Import Py.

Lemma truthy_true (s : string) : truthy s = true <-> s <> EmptyString.
Proof. destruct s; simpl; split; congruence. Qed.

Lemma rstrip_idempotent (s : string) : rstrip (rstrip s) = rstrip s.
Proof.
  induction s as [|c s IH]; simpl; [reflexivity|].
  destruct (rstrip s) as [|d r] eqn:E.
  - destruct (isspace c) eqn:Ec; simpl; [reflexivity | now rewrite Ec].
  - remember (String d r) as t eqn:Et.
    simpl. rewrite IH. subst t. reflexivity.
Qed.

Lemma lstrip_headed (s : string) : headed (lstrip s).
Proof.
  induction s as [|c s IH]; simpl; [exact I|].
  destruct (isspace c) eqn:E; [exact IH | exact E].
Qed.

Lemma lstrip_of_headed (s : string) : headed s -> lstrip s = s.
Proof. destruct s as [|c s]; simpl; [reflexivity|]. now intros ->. Qed.

Lemma rstrip_headed (s : string) : headed s -> headed (rstrip s).
Proof.
  destruct s as [|c s]; simpl; [exact id|]. intros E.
  destruct (rstrip s); [rewrite E|]; exact E.
Qed.

Lemma strip_idempotent (s : string) : strip (strip s) = strip s.
Proof.
  unfold strip.
  rewrite (lstrip_of_headed (rstrip (lstrip s))).
  - apply rstrip_idempotent.
  - apply rstrip_headed, lstrip_headed.
Qed.

Lemma lstrip_length (s : string) : Text.length (lstrip s) <= Text.length s.
Proof. induction s as [|c s IH]; simpl; [lia|]. destruct (isspace c); simpl; lia. Qed.

Lemma rstrip_length (s : string) : Text.length (rstrip s) <= Text.length s.
Proof.
  induction s as [|c s IH]; simpl; [lia|].
  destruct (rstrip s); [destruct (isspace c)|]; simpl in *; lia.
Qed.

Lemma strip_length (s : string) : Text.length (strip s) <= Text.length s.
Proof.
  unfold strip. pose proof (rstrip_length (lstrip s)). pose proof (lstrip_length s). lia.
Qed.

(** The white space of ASCII and the no-break space are white space; the
    letters of ASCII and the combining dot above are not. *)
Lemma isspace_true_cases (c : char) :
  isspace c = true ->
  (c <= 32 \/ c = 0x85 \/ c = 0xA0 \/ 0x1680 <= c)%N.
Proof.
  unfold isspace.
  rewrite !orb_true_iff, !andb_true_iff, !N.leb_le, !N.eqb_eq. lia.
Qed.

Lemma isspace_false_between (c : char) :
  (32 < c < 0x85 \/ 0xA0 < c < 0x1680)%N -> isspace c = false.
Proof.
  intros Hc. apply not_true_is_false. intros Hs.
  apply isspace_true_cases in Hs. lia.
Qed.

Section Lower.
Context `{Casing}.

Lemma lower_idempotent (s : string) : lower (lower s) = lower s.
Proof. apply lower_lower. Qed.

Lemma strip_lower (s : string) : strip (lower s) = lower (strip s).
Proof. apply lower_strip. Qed.

Lemma lower_empty : lower "" = "".
Proof. now apply lower_is_empty. Qed.

Lemma truthy_lower (s : string) : truthy (lower s) = truthy s.
Proof.
  destruct s as [|c s]; [now rewrite lower_empty|].
  destruct (lower (String c s)) eqn:E; [|reflexivity].
  apply (proj1 (lower_is_empty _)) in E. discriminate E.
Qed.

(** The lowercase form of a lowercase text has the length of the text. *)
Lemma lower_length_of_lowercase (s : string) :
  is_lowercase s -> Text.length (lower s) = Text.length s.
Proof. unfold is_lowercase. now intros ->. Qed.

Lemma strip_of_lowercase (s : string) : is_lowercase s -> is_lowercase (strip s).
Proof.
  unfold is_lowercase. intros Hs. rewrite <- strip_lower. now rewrite Hs.
Qed.

End Lower.

End PyFacts.

(** ** The sample case mapping *)

Section SampleCasing.
Import Py.

Lemma sample_lower_app (a b : string) :
  Samples.lower (a ++ b) = Samples.lower a ++ Samples.lower b.
Proof.
  induction a as [|c a IH]; simpl; [reflexivity|].
  now rewrite IH, append_assoc.
Qed.

Lemma sample_lower_char_cases (c : char) :
  ((65 <= c <= 90)%N /\ Samples.lower_char c = String (c + 32)%N "")
  \/ (c = 0x130%N /\ Samples.lower_char c = String "i" (String 0x307%N ""))
  \/ ((c < 65 \/ 90 < c)%N /\ c <> 0x130%N /\ Samples.lower_char c = String c "").
Proof.
  unfold Samples.lower_char.
  destruct (N.leb_spec 65 c); destruct (N.leb_spec c 90); simpl;
    try (left; split; [lia | reflexivity]);
    (destruct (N.eqb_spec c 0x130);
     [right; left; split; [assumption | reflexivity]
     |right; right; split; [lia | split; [assumption | reflexivity]]]).
Qed.

Lemma sample_lower_char_other (c : char) :
  (c < 65 \/ 90 < c)%N -> c <> 0x130%N -> Samples.lower_char c = String c "".
Proof.
  intros Hc Hn.
  destruct (sample_lower_char_cases c) as [[Hr _]|[[Hr _]|[_ [_ E]]]];
    [lia | contradiction | exact E].
Qed.

Lemma sample_lower_char_fixed (c : char) :
  Samples.lower (Samples.lower_char c) = Samples.lower_char c.
Proof.
  destruct (sample_lower_char_cases c) as [[Hc ->]|[[-> ->]|[Hc [Hn ->]]]].
  - simpl. rewrite sample_lower_char_other by lia. reflexivity.
  - reflexivity.
  - simpl. now rewrite sample_lower_char_other.
Qed.

Lemma sample_lower_idempotent (s : string) :
  Samples.lower (Samples.lower s) = Samples.lower s.
Proof.
  induction s as [|c s IH]; simpl; [reflexivity|].
  now rewrite sample_lower_app, sample_lower_char_fixed, IH.
Qed.

Lemma sample_lower_is_empty (s : string) :
  Samples.lower s = EmptyString <-> s = EmptyString.
Proof.
  destruct s as [|c s]; simpl; [split; reflexivity|].
  split; [|discriminate].
  destruct (sample_lower_char_cases c) as [[_ ->]|[[_ ->]|[_ [_ ->]]]];
    discriminate.
Qed.

Lemma sample_lower_not_shorter (s : string) :
  Text.length s <= Text.length (Samples.lower s).
Proof.
  induction s as [|c s IH]; simpl; [lia|]. rewrite append_length.
  destruct (sample_lower_char_cases c) as [[_ ->]|[[_ ->]|[_ [_ ->]]]];
    simpl; lia.
Qed.

(** White space is its own lowercase form, and the lowercase form of any
    other character neither begins nor ends with white space. *)
Lemma sample_lower_char_space (c : char) :
  isspace c = true -> Samples.lower_char c = String c "".
Proof.
  intros Hs. apply isspace_true_cases in Hs.
  destruct (sample_lower_char_cases c) as [[Hc _]|[[Hc _]|[_ [_ E]]]];
    [lia | lia | exact E].
Qed.

Lemma sample_lower_char_solid (c : char) :
  isspace c = false ->
  exists d mid e,
    (Samples.lower_char c = String d "" /\ e = d /\ mid = EmptyString
     \/ Samples.lower_char c = String d (mid ++ String e ""))
    /\ isspace d = false /\ isspace e = false.
Proof.
  intros Hs.
  destruct (sample_lower_char_cases c) as [[Hc ->]|[[-> ->]|[_ [_ ->]]]].
  - exists (c + 32)%N, EmptyString, (c + 32)%N.
    split; [left; repeat split|].
    split; apply isspace_false_between; lia.
  - exists "i"%char, EmptyString, 0x307%N.
    split; [right; reflexivity | split; reflexivity].
  - exists c, EmptyString, c. split; [left; repeat split | split; exact Hs].
Qed.

Lemma sample_lstrip_lower (s : string) :
  lstrip (Samples.lower s) = Samples.lower (lstrip s).
Proof.
  induction s as [|c s IH]; [reflexivity|]. cbn [Samples.lower lstrip].
  destruct (isspace c) eqn:Ec.
  - rewrite (sample_lower_char_space c Ec). cbn [append lstrip].
    now rewrite Ec.
  - cbn [Samples.lower].
    destruct (sample_lower_char_solid c Ec) as [d [mid [e [Hd [Hsd _]]]]].
    destruct Hd as [[-> _]| ->]; cbn [append lstrip]; now rewrite Hsd.
Qed.

Lemma rstrip_app (a b : string) :
  rstrip (a ++ b)
  = match rstrip b with
    | EmptyString => rstrip a
    | r => a ++ r
    end.
Proof.
  induction a as [|c a IH]; simpl.
  - now destruct (rstrip b).
  - rewrite IH. destruct (rstrip b) as [|d r]; [reflexivity|].
    now destruct a.
Qed.

Lemma rstrip_solid (a : string) (e : char) :
  isspace e = false -> rstrip (a ++ String e "") = a ++ String e "".
Proof. intros He. rewrite rstrip_app. simpl. now rewrite He. Qed.

Lemma sample_rstrip_lower_char (c : char) :
  rstrip (Samples.lower_char c)
  = if isspace c then EmptyString else Samples.lower_char c.
Proof.
  destruct (isspace c) eqn:Ec.
  - rewrite (sample_lower_char_space c Ec). cbn [rstrip]. now rewrite Ec.
  - destruct (sample_lower_char_solid c Ec) as [d [mid [e [Hd [Hsd Hse]]]]].
    destruct Hd as [[-> _]| ->].
    + cbn [rstrip]. now rewrite Hsd.
    + change (String d (mid ++ String e "")) with ((String d mid) ++ String e "").
      now apply rstrip_solid.
Qed.

Lemma sample_rstrip_lower (s : string) :
  rstrip (Samples.lower s) = Samples.lower (rstrip s).
Proof.
  induction s as [|c s IH]; [reflexivity|]. cbn [Samples.lower rstrip].
  rewrite rstrip_app, IH.
  destruct (rstrip s) as [|d r] eqn:E.
  - cbn [Samples.lower]. rewrite sample_rstrip_lower_char.
    destruct (isspace c); cbn [Samples.lower];
      [reflexivity | now rewrite append_nil_r].
  - destruct (Samples.lower (String d r)) as [|x y] eqn:El.
    + apply (proj1 (sample_lower_is_empty _)) in El. discriminate El.
    + rewrite <- El. reflexivity.
Qed.

Lemma sample_strip_lower (s : string) :
  strip (Samples.lower s) = Samples.lower (strip s).
Proof. unfold strip. now rewrite sample_lstrip_lower, sample_rstrip_lower. Qed.

End SampleCasing.

(** [str.lower] on the texts made of ASCII characters and U+0130. *)
Definition sample_casing : Py.Casing := {|
  Py.lower := Samples.lower;
  Py.lower_is_empty := sample_lower_is_empty;
  Py.lower_lower := sample_lower_idempotent;
  Py.lower_strip := sample_strip_lower;
  Py.lower_not_shorter := sample_lower_not_shorter
|}.
(** ** Occurrences of a marker in a text *)

Section Occurrences.
Import Py.

Lemma startswith_length (sub s : string) :
  startswith sub s = true -> Text.length sub <= Text.length s.
Proof.
  revert s. induction sub as [|a sub IH]; intros s; simpl; [lia|].
  destruct s as [|b s]; [discriminate|]. simpl.
  intros Hs. apply andb_prop in Hs. destruct Hs as [_ Hs].
  specialize (IH s Hs). lia.
Qed.

Lemma occurs_at_length (sub s : string) (i : nat) :
  occurs_at sub s i = true -> i + Text.length sub <= Text.length s.
Proof.
  revert s. induction i as [|i IH]; intros s; simpl.
  - intros Hs. pose proof (startswith_length sub s Hs). lia.
  - destruct s as [|b s]; [discriminate|]. simpl. intros Hs.
    specialize (IH s Hs). lia.
Qed.

Lemma find_index_first (sub s : string) (i : nat) :
  find_index sub s = Some i -> first_occurrence sub s i.
Proof.
  revert i. induction s as [|c s IH]; intros i; simpl.
  - destruct (startswith sub "") eqn:E; [|discriminate].
    intros [= <-]. split; [exact E | intros j Hj; lia].
  - destruct (startswith sub (String c s)) eqn:E.
    + intros [= <-]. split; [exact E | intros j Hj; lia].
    + destruct (find_index sub s) as [k|]; [|discriminate].
      simpl. intros [= <-]. destruct (IH k eq_refl) as [Hk Hbefore].
      split; [exact Hk|]. intros [|j] Hj; [exact E|].
      simpl. apply Hbefore. lia.
Qed.

Lemma find_index_none (sub s : string) :
  find_index sub s = None -> absent sub s.
Proof.
  induction s as [|c s IH]; simpl.
  - destruct (startswith sub "") eqn:E; [discriminate|].
    intros _ [|j]; [exact E | reflexivity].
  - destruct (startswith sub (String c s)) eqn:E; [discriminate|].
    destruct (find_index sub s) as [k|]; [discriminate|].
    intros _ [|j]; [exact E | apply (IH eq_refl)].
Qed.

Lemma rfind_index_none (sub s : string) :
  rfind_index sub s = None -> absent sub s.
Proof.
  induction s as [|c s IH]; simpl.
  - destruct (startswith sub "") eqn:E; [discriminate|].
    intros _ [|j]; [exact E | reflexivity].
  - destruct (rfind_index sub s) as [k|]; [discriminate|].
    destruct (startswith sub (String c s)) eqn:E; [discriminate|].
    intros _ [|j]; [exact E | apply (IH eq_refl)].
Qed.

Lemma rfind_index_last (sub s : string) (i : nat) :
  rfind_index sub s = Some i -> last_occurrence sub s i.
Proof.
  revert i. induction s as [|c s IH]; intros i; simpl.
  - destruct (startswith sub "") eqn:E; [|discriminate].
    intros [= <-]. split; [exact E|]. intros [|j] Hj; [lia | reflexivity].
  - destruct (rfind_index sub s) as [k|] eqn:Ek.
    + intros [= <-]. destruct (IH k eq_refl) as [Hk Hafter].
      split; [exact Hk|]. intros [|j] Hj; [lia|]. simpl. apply Hafter. lia.
    + destruct (startswith sub (String c s)) eqn:E; [|discriminate].
      intros [= <-]. split; [exact E|].
      intros [|j] Hj; [lia|]. simpl. now apply rfind_index_none.
Qed.

(** The first and the last occurrence are unique. *)
Lemma last_occurrence_unique (sub s : string) (i j : nat) :
  last_occurrence sub s i -> last_occurrence sub s j -> i = j.
Proof.
  intros [Hi Hai] [Hj Haj].
  destruct (Nat.lt_trichotomy i j) as [L|[E|L]]; [|exact E|].
  - rewrite (Hai j L) in Hj. discriminate.
  - rewrite (Haj i L) in Hi. discriminate.
Qed.

Lemma first_occurrence_unique (sub s : string) (i j : nat) :
  first_occurrence sub s i -> first_occurrence sub s j -> i = j.
Proof.
  intros [Hi Hbi] [Hj Hbj].
  destruct (Nat.lt_trichotomy i j) as [L|[E|L]]; [|exact E|].
  - rewrite (Hbj i L) in Hi. discriminate.
  - rewrite (Hbi j L) in Hj. discriminate.
Qed.

Lemma find_index_of_first (sub s : string) (i : nat) :
  first_occurrence sub s i -> find_index sub s = Some i.
Proof.
  intros Hi. destruct (find_index sub s) as [k|] eqn:E.
  - f_equal. exact (first_occurrence_unique _ _ _ _ (find_index_first _ _ _ E) Hi).
  - destruct Hi as [Hi _]. rewrite (find_index_none _ _ E i) in Hi. discriminate.
Qed.


Lemma contains_first (sub s : string) :
  contains sub s = true -> exists i, first_occurrence sub s i.
Proof.
  unfold contains. destruct (find_index sub s) as [i|] eqn:E; [|discriminate].
  intros _. exists i. now apply find_index_first.
Qed.

Lemma contains_absent (sub s : string) :
  contains sub s = false <-> absent sub s.
Proof.
  unfold contains. split.
  - destruct (find_index sub s) as [i|] eqn:E; [discriminate|].
    intros _. now apply find_index_none.
  - intros Ha. destruct (find_index sub s) as [i|] eqn:E; [|reflexivity].
    destruct (find_index_first _ _ _ E) as [Hi _]. rewrite (Ha i) in Hi. discriminate.
Qed.

(** When a text has an occurrence of [sub], it has a last one. *)
Lemma occurrence_has_last (sub s : string) (i : nat) :
  occurs_at sub s i = true -> exists j, rfind_index sub s = Some j /\ i <= j.
Proof.
  intros Hi. destruct (rfind_index sub s) as [j|] eqn:E.
  - exists j. split; [reflexivity|].
    destruct (rfind_index_last _ _ _ E) as [_ Hafter].
    destruct (Nat.le_gt_cases i j) as [L|L]; [exact L|].
    rewrite (Hafter i L) in Hi. discriminate.
  - rewrite (rfind_index_none _ _ E i) in Hi. discriminate.
Qed.

Lemma substring_nothing (n : nat) (s : string) : substring n 0 s = EmptyString.
Proof.
  revert n. induction s as [|c s IH]; intros [|n]; simpl; try reflexivity.
  apply IH.
Qed.

(** A slice between two indices inside the text is the [substring] that
    starts at the first and stops before the second. *)
Lemma slice_substring (s : string) (a b : nat) :
  a <= Text.length s -> b <= Text.length s ->
  slice s (Z.of_nat a) (Z.of_nat b) = substring a (b - a) s.
Proof.
  intros Ha Hb. unfold slice, slice_bound.
  destruct (Z.ltb_spec (Z.of_nat a) 0) as [|_]; [lia|].
  destruct (Z.ltb_spec (Z.of_nat b) 0) as [|_]; [lia|].
  rewrite !Z.min_l by lia.
  destruct (Z.ltb_spec (Z.of_nat a) (Z.of_nat b)) as [L|G].
  - f_equal; lia.
  - replace (b - a) with 0 by lia. now rewrite substring_nothing.
Qed.

End Occurrences.

(** ** The decoder never runs out of fuel *)

Section DecoderFuel.
Import Json.

Lemma skip_ws_length (s : string) :
  Text.length (skip_ws s) <= Text.length s.
Proof.
  induction s as [|c s IH]; simpl; [lia|].
  destruct (is_ws c); simpl; lia.
Qed.

Lemma drop_length (n : nat) (s : string) :
  Text.length (drop n s) = Text.length s - n.
Proof.
  revert s. induction n as [|n IH]; intros s; simpl; [lia|].
  destruct s as [|c s]; simpl; [reflexivity | apply IH].
Qed.

Lemma decode_uXXXX_length (s : string) (u : N) (r : string) :
  decode_uXXXX s = Some (u, r) -> Text.length s = 4 + Text.length r.
Proof.
  destruct s as [|a [|b [|c [|d rest]]]]; try discriminate. simpl.
  destruct (hex_val a), (hex_val b), (hex_val c), (hex_val d); try discriminate.
  now intros [= _ ->].
Qed.

Lemma with_prefix_scanned (p : string) (x : scanned string) (a r : string) :
  with_prefix p x = Scanned a r -> exists b, x = Scanned b r.
Proof. destruct x; try discriminate. intros [= _ ->]. now eexists. Qed.

Lemma with_prefix_exhausted (p : string) (x : scanned string) :
  with_prefix p x = Exhausted -> x = Exhausted.
Proof. now destruct x. Qed.

Lemma scanstring_shorter (n : nat) : shortens (scanstring n).
Proof.
  induction n as [|n IH]; intros s a r; [discriminate|].
  destruct s as [|c s']; [discriminate|]. cbn [scanstring Text.length].
  destruct (Char.eqb c Py.dquote); [intros [= _ ->]; lia|].
  destruct (Char.eqb c Py.backslash).
  - destruct s' as [|e s'']; [discriminate|]. cbn [Text.length].
    destruct (Char.eqb e "u").
    + destruct (decode_uXXXX s'') as [[uni rest]|] eqn:E1; [|discriminate].
      apply decode_uXXXX_length in E1.
      destruct (_ && Py.startswith _ rest).
      * destruct (decode_uXXXX (drop 2 rest)) as [[uni2 rest2]|] eqn:E2;
          [|discriminate].
        apply decode_uXXXX_length in E2. rewrite drop_length in E2.
        destruct (_ && _); intros Hs; apply with_prefix_scanned in Hs;
          destruct Hs as [b Hs]; apply IH in Hs; lia.
      * intros Hs. apply with_prefix_scanned in Hs.
        destruct Hs as [b Hs]. apply IH in Hs. lia.
    + destruct (unescape e); [|discriminate].
      intros Hs. apply with_prefix_scanned in Hs.
      destruct Hs as [b Hs]. apply IH in Hs. lia.
  - destruct (c <? 32)%N; [discriminate|].
    intros Hs. apply with_prefix_scanned in Hs.
    destruct Hs as [b Hs]. apply IH in Hs. lia.
Qed.

Lemma scanstring_fuel (n : nat) (s : string) :
  Text.length s < n -> scanstring n s <> Exhausted.
Proof.
  revert s. induction n as [|n IH]; intros s Hn; [lia|].
  destruct s as [|c s']; [discriminate|]. cbn [scanstring Text.length] in *.
  destruct (Char.eqb c Py.dquote); [discriminate|].
  destruct (Char.eqb c Py.backslash).
  - destruct s' as [|e s'']; [discriminate|]. cbn [Text.length] in Hn.
    destruct (Char.eqb e "u").
    + destruct (decode_uXXXX s'') as [[uni rest]|] eqn:E1; [|discriminate].
      apply decode_uXXXX_length in E1.
      destruct (_ && Py.startswith _ rest).
      * destruct (decode_uXXXX (drop 2 rest)) as [[uni2 rest2]|] eqn:E2;
          [|discriminate].
        apply decode_uXXXX_length in E2. rewrite drop_length in E2.
        destruct (_ && _); intros Hs; apply with_prefix_exhausted in Hs;
          revert Hs; apply IH; lia.
      * intros Hs. apply with_prefix_exhausted in Hs. revert Hs. apply IH. lia.
    + destruct (unescape e); [|discriminate].
      intros Hs. apply with_prefix_exhausted in Hs. revert Hs. apply IH. lia.
  - destruct (c <? 32)%N; [discriminate|].
    intros Hs. apply with_prefix_exhausted in Hs. revert Hs. apply IH. lia.
Qed.

Lemma span_digits_length (s d r : string) :
  span_digits s = (d, r) -> Text.length r <= Text.length s.
Proof.
  revert d r. induction s as [|c s IH]; intros d r; simpl.
  - intros [= _ <-]. simpl. lia.
  - destruct (is_digit c).
    + destruct (span_digits s) as [d' r'] eqn:E. intros [= _ <-].
      specialize (IH d' r' eq_refl). lia.
    + intros [= _ <-]. simpl. lia.
Qed.

Lemma match_int_shorter (s i r : string) :
  match_int s = Some (i, r) -> Text.length r < Text.length s.
Proof.
  destruct s as [|c s]; [discriminate|]. unfold match_int.
  destruct (Char.eqb c "0"); [intros [= _ <-]; simpl; lia|].
  destruct (is_digit c) eqn:Ec; [|discriminate].
  cbn [span_digits]. rewrite Ec.
  destruct (span_digits s) as [d' r'] eqn:E. intros [= _ <-].
  apply span_digits_length in E. simpl. lia.
Qed.

Lemma match_frac_length (s f r : string) :
  match_frac s = (f, r) -> Text.length r <= Text.length s.
Proof.
  destruct s as [|c s]; [intros [= _ <-]; simpl; lia|]. unfold match_frac.
  destruct (Char.eqb c "."); [|intros [= _ <-]; lia].
  destruct (span_digits s) as [d' r'] eqn:E. apply span_digits_length in E.
  destruct d'; intros [= _ <-]; simpl; lia.
Qed.

Lemma match_exp_length (s e r : string) :
  match_exp s = (e, r) -> Text.length r <= Text.length s.
Proof.
  destruct s as [|c s]; [intros [= _ <-]; simpl; lia|]. unfold match_exp.
  destruct (Char.eqb c "e" || Char.eqb c "E"); [|intros [= _ <-]; lia].
  assert (Hs : forall sign s'',
             (sign, s'') =
               match s with
               | String g t =>
                   if Char.eqb g "-" || Char.eqb g "+"
                   then (String g "", t) else ("", s)
               | EmptyString => ("", s)
               end -> Text.length s'' <= Text.length s).
  { intros sign s''. destruct s as [|g t]; [intros [= _ ->]; lia|].
    destruct (Char.eqb g "-" || Char.eqb g "+"); intros [= _ ->]; simpl; lia. }
  destruct (match s with
            | String g t =>
                if Char.eqb g "-" || Char.eqb g "+"
                then (String g "", t) else ("", s)
            | EmptyString => ("", s)
            end) as [sign s''] eqn:Es.
  specialize (Hs sign s'' eq_refl).
  destruct (span_digits s'') as [d' r'] eqn:E. apply span_digits_length in E.
  destruct d'; intros [= _ <-]; simpl; lia.
Qed.

Lemma match_number_shorter (s : string) (v : json) (r : string) :
  match_number s = Some (v, r) -> Text.length r < Text.length s.
Proof.
  unfold match_number.
  destruct (match s with
            | String c s' => if Char.eqb c "-" then (true, s') else (false, s)
            | EmptyString => (false, s)
            end) as [neg s1] eqn:E1.
  assert (H1 : Text.length s1 <= Text.length s).
  { destruct s as [|c s']; [injection E1 as _ <-; lia|].
    destruct (Char.eqb c "-"); injection E1 as _ <-; simpl; lia. }
  destruct (match_int s1) as [[ipart s2]|] eqn:E2; [|discriminate].
  apply match_int_shorter in E2.
  destruct (match_frac s2) as [frac s3] eqn:E3. apply match_frac_length in E3.
  destruct (match_exp s3) as [ex s4] eqn:E4. apply match_exp_length in E4.
  destruct frac, ex; intros [= _ <-]; lia.
Qed.

Lemma keyword_shorter (kw : string) (v : json) :
  kw <> EmptyString -> shortens (keyword kw v).
Proof.
  intros Hkw t a r. unfold keyword.
  destruct (Py.startswith kw t) eqn:E; [|discriminate].
  intros [= _ <-]. rewrite drop_length.
  apply startswith_length in E. destruct kw; [congruence|]. simpl in *. lia.
Qed.

Section ContainerFuel.
Variable scan : string -> scanned json.
Hypothesis scan_shortens : shortens scan.

Lemma array_items_shorter (n : nat) : shortens (array_items scan n).
Proof.
  induction n as [|n IH]; intros s vs r; [discriminate|]. cbn [array_items].
  destruct (scan s) as [v r0| |] eqn:Es; try discriminate.
  apply scan_shortens in Es. pose proof (skip_ws_length r0) as Hw.
  destruct (skip_ws r0) as [|c r']; [discriminate|]. cbn [Text.length] in Hw.
  destruct (Char.eqb c "]"); [intros [= _ <-]; lia|].
  destruct (Char.eqb c ","); [|discriminate].
  destruct (array_items scan n (skip_ws r')) as [vs' r''| |] eqn:Ea;
    try discriminate.
  apply IH in Ea. pose proof (skip_ws_length r'). intros [= _ <-]. lia.
Qed.

Lemma array_items_fuel (n : nat) (s : string) :
  (forall t, Text.length t <= Text.length s -> scan t <> Exhausted) ->
  Text.length s < n ->
  array_items scan n s <> Exhausted.
Proof.
  revert s. induction n as [|n IH]; intros s Hscan Hn; [lia|]. cbn [array_items].
  destruct (scan s) as [v r0| |] eqn:Es; [|discriminate|].
  - apply scan_shortens in Es. pose proof (skip_ws_length r0) as Hw.
    destruct (skip_ws r0) as [|c r']; [discriminate|]. cbn [Text.length] in Hw.
    destruct (Char.eqb c "]"); [discriminate|].
    destruct (Char.eqb c ","); [|discriminate].
    pose proof (skip_ws_length r') as Hw'.
    destruct (array_items scan n (skip_ws r')) as [vs' r''| |] eqn:Ea;
      try discriminate.
    exfalso. revert Ea. apply IH; [|lia]. intros t Ht. apply Hscan. lia.
  - exfalso. now apply (Hscan s).
Qed.

Lemma JSONArray_shorter (n : nat) : shortens (JSONArray scan n).
Proof.
  intros s v r. unfold JSONArray. pose proof (skip_ws_length s) as Hw.
  destruct (skip_ws s) as [|c r0] eqn:E; [discriminate|].
  cbn [Text.length] in Hw.
  destruct (Char.eqb c "]"); [intros [= _ <-]; lia|].
  destruct (array_items scan n (String c r0)) as [vs r'| |] eqn:Ea;
    try discriminate.
  apply array_items_shorter in Ea. cbn [Text.length] in Ea.
  intros [= _ <-]. lia.
Qed.

Lemma JSONArray_fuel (n : nat) (s : string) :
  (forall t, Text.length t <= Text.length s -> scan t <> Exhausted) ->
  Text.length s < n ->
  JSONArray scan n s <> Exhausted.
Proof.
  intros Hscan Hn. unfold JSONArray. pose proof (skip_ws_length s) as Hw.
  destruct (skip_ws s) as [|c r0] eqn:E; [discriminate|].
  destruct (Char.eqb c "]"); [discriminate|].
  destruct (array_items scan n (String c r0)) as [vs r'| |] eqn:Ea;
    try discriminate.
  exfalso. revert Ea. apply array_items_fuel; [|lia].
  intros t Ht. apply Hscan. lia.
Qed.

Lemma object_pairs_shorter (n : nat) : shortens (object_pairs scan n).
Proof.
  induction n as [|n IH]; intros s kvs r; [discriminate|]. cbn [object_pairs].
  destruct (scanstring (S (Text.length s)) s) as [key r0| |] eqn:Ek;
    try discriminate.
  apply scanstring_shorter in Ek. pose proof (skip_ws_length r0) as H0.
  destruct (skip_ws r0) as [|c r1]; [discriminate|]. cbn [Text.length] in H0.
  destruct (Char.eqb c ":"); [|discriminate].
  pose proof (skip_ws_length r1) as H1.
  destruct (scan (skip_ws r1)) as [v r2| |] eqn:Es; try discriminate.
  apply scan_shortens in Es. pose proof (skip_ws_length r2) as H2.
  destruct (skip_ws r2) as [|d r3]; [discriminate|]. cbn [Text.length] in H2.
  destruct (Char.eqb d "}"); [intros [= _ <-]; lia|].
  destruct (Char.eqb d ","); [|discriminate].
  pose proof (skip_ws_length r3) as H3.
  destruct (skip_ws r3) as [|e r4]; [discriminate|]. cbn [Text.length] in H3.
  destruct (Char.eqb e Py.dquote); [|discriminate].
  destruct (object_pairs scan n r4) as [kvs' r5| |] eqn:Eo; try discriminate.
  apply IH in Eo. intros [= _ <-]. lia.
Qed.

Lemma object_pairs_fuel (n : nat) (s : string) :
  (forall t, Text.length t <= Text.length s -> scan t <> Exhausted) ->
  Text.length s < n ->
  object_pairs scan n s <> Exhausted.
Proof.
  revert s. induction n as [|n IH]; intros s Hscan Hn; [lia|]. cbn [object_pairs].
  destruct (scanstring (S (Text.length s)) s) as [key r0| |] eqn:Ek;
    [|discriminate|].
  - apply scanstring_shorter in Ek. pose proof (skip_ws_length r0) as H0.
    destruct (skip_ws r0) as [|c r1]; [discriminate|]. cbn [Text.length] in H0.
    destruct (Char.eqb c ":"); [|discriminate].
    pose proof (skip_ws_length r1) as H1.
    destruct (scan (skip_ws r1)) as [v r2| |] eqn:Es; [|discriminate|].
    + apply scan_shortens in Es. pose proof (skip_ws_length r2) as H2.
      destruct (skip_ws r2) as [|d r3]; [discriminate|]. cbn [Text.length] in H2.
      destruct (Char.eqb d "}"); [discriminate|].
      destruct (Char.eqb d ","); [|discriminate].
      pose proof (skip_ws_length r3) as H3.
      destruct (skip_ws r3) as [|e r4]; [discriminate|]. cbn [Text.length] in H3.
      destruct (Char.eqb e Py.dquote); [|discriminate].
      destruct (object_pairs scan n r4) as [kvs' r5| |] eqn:Eo; try discriminate.
      exfalso. revert Eo. apply IH; [|lia]. intros t Ht. apply Hscan. lia.
    + exfalso. revert Es. apply Hscan. lia.
  - exfalso. revert Ek. apply scanstring_fuel. lia.
Qed.

Lemma JSONObject_shorter (n : nat) : shortens (JSONObject scan n).
Proof.
  intros s v r. unfold JSONObject. pose proof (skip_ws_length s) as Hw.
  destruct (skip_ws s) as [|c r0] eqn:E; [discriminate|].
  cbn [Text.length] in Hw.
  destruct (Char.eqb c "}"); [intros [= _ <-]; lia|].
  destruct (Char.eqb c Py.dquote); [|discriminate].
  destruct (object_pairs scan n r0) as [kvs r'| |] eqn:Eo; try discriminate.
  apply object_pairs_shorter in Eo. intros [= _ <-]. lia.
Qed.

Lemma JSONObject_fuel (n : nat) (s : string) :
  (forall t, Text.length t <= Text.length s -> scan t <> Exhausted) ->
  Text.length s < n ->
  JSONObject scan n s <> Exhausted.
Proof.
  intros Hscan Hn. unfold JSONObject. pose proof (skip_ws_length s) as Hw.
  destruct (skip_ws s) as [|c r0] eqn:E; [discriminate|].
  cbn [Text.length] in Hw.
  destruct (Char.eqb c "}"); [discriminate|].
  destruct (Char.eqb c Py.dquote); [|discriminate].
  destruct (object_pairs scan n r0) as [kvs r'| |] eqn:Eo; try discriminate.
  exfalso. revert Eo. apply object_pairs_fuel; [|lia].
  intros t Ht. apply Hscan. lia.
Qed.

End ContainerFuel.

Lemma scan_once_shorter (n : nat) : shortens (scan_once n).
Proof.
  induction n as [|n IH]; intros s v r; [discriminate|].
  destruct s as [|c s']; [discriminate|]. cbn [scan_once].
  destruct (Char.eqb c Py.dquote).
  { destruct (scanstring (S (Text.length s')) s') as [str r0| |] eqn:Ek;
      try discriminate.
    apply scanstring_shorter in Ek. intros [= _ <-]. simpl. lia. }
  destruct (Char.eqb c "{").
  { intros Ho. apply (JSONObject_shorter _ IH) in Ho. simpl. lia. }
  destruct (Char.eqb c "[").
  { intros Ha. apply (JSONArray_shorter _ IH) in Ha. simpl. lia. }
  destruct (Py.startswith "null" (String c s'));
    [apply keyword_shorter; discriminate|].
  destruct (Py.startswith "true" (String c s'));
    [apply keyword_shorter; discriminate|].
  destruct (Py.startswith "false" (String c s'));
    [apply keyword_shorter; discriminate|].
  destruct (match_number (String c s')) as [[v' r']|] eqn:En.
  { apply match_number_shorter in En. now intros [= _ <-]. }
  destruct (Py.startswith "NaN" (String c s'));
    [apply keyword_shorter; discriminate|].
  destruct (Py.startswith "Infinity" (String c s'));
    [apply keyword_shorter; discriminate|].
  destruct (Py.startswith "-Infinity" (String c s'));
    [apply keyword_shorter; discriminate|].
  discriminate.
Qed.

Lemma keyword_fuel (kw : string) (v : json) (s : string) :
  keyword kw v s <> Exhausted.
Proof. unfold keyword. destruct (Py.startswith kw s); discriminate. Qed.

Lemma scan_once_fuel (n : nat) (s : string) :
  Text.length s < n -> scan_once n s <> Exhausted.
Proof.
  revert s. induction n as [|n IH]; intros s Hn; [lia|].
  destruct s as [|c s']; [discriminate|]. cbn [scan_once].
  cbn [Text.length] in Hn.
  destruct (Char.eqb c Py.dquote).
  { destruct (scanstring (S (Text.length s')) s') as [str r0| |] eqn:Ek;
      try discriminate.
    exfalso. revert Ek. apply scanstring_fuel. lia. }
  destruct (Char.eqb c "{").
  { apply (JSONObject_fuel _ (scan_once_shorter n)); [|simpl; lia].
    intros t Ht. apply IH. lia. }
  destruct (Char.eqb c "[").
  { apply (JSONArray_fuel _ (scan_once_shorter n)); [|simpl; lia].
    intros t Ht. apply IH. lia. }
  destruct (Py.startswith "null" (String c s')); [apply keyword_fuel|].
  destruct (Py.startswith "true" (String c s')); [apply keyword_fuel|].
  destruct (Py.startswith "false" (String c s')); [apply keyword_fuel|].
  destruct (match_number (String c s')) as [[v' r']|]; [discriminate|].
  destruct (Py.startswith "NaN" (String c s')); [apply keyword_fuel|].
  destruct (Py.startswith "Infinity" (String c s')); [apply keyword_fuel|].
  destruct (Py.startswith "-Infinity" (String c s')); [apply keyword_fuel|].
  discriminate.
Qed.

(** The fuel [json_loads] gives the scan is enough: when [json_loads]
    returns [None], the text is malformed or followed by extra data. *)
Theorem json_loads_fuel (s : string) :
  scan_once (S (Text.length s)) (skip_ws s) <> Exhausted.
Proof.
  apply scan_once_fuel. pose proof (skip_ws_length s). lia.
Qed.

End DecoderFuel.
(** ** The ingredient normalizer *)

Section Normalizer.
Import Py RecipeService.
Context `{Casing}.

Lemma sanitize_loop_spec (l acc : list string) :
  sanitize_loop acc l = (acc ++ map normal_form (filter survives l))%list.
Proof.
  revert acc. induction l as [|s l IH]; intros acc.
  - simpl. now rewrite app_nil_r.
  - cbn [sanitize_loop filter].
    change (truthy (lower (strip s))
            && (Text.length (lower (strip s)) <=? 100)%nat)
      with (survives s).
    destruct (survives s); cbn [map].
    + rewrite IH, <- app_assoc. reflexivity.
    + apply IH.
Qed.

Lemma normal_form_lowercase (s : string) : is_lowercase (normal_form s).
Proof. apply lower_idempotent. Qed.

Lemma normal_form_trimmed (s : string) : is_trimmed (normal_form s).
Proof.
  unfold is_trimmed, normal_form. now rewrite strip_lower, strip_idempotent.
Qed.

(** The normal form of an entry is empty exactly when the entry is
    blank. *)
Lemma normal_form_truthy (s : string) :
  truthy (normal_form s) = truthy (strip s).
Proof. apply truthy_lower. Qed.

(** The normal form of an entry is at least as long as its trimmed form. *)
Lemma normal_form_not_shorter (s : string) :
  Text.length (strip s) <= Text.length (normal_form s).
Proof. apply lower_not_shorter. Qed.

(** For an entry whose trimmed form is lowercase already, the normal form
    is the trimmed form. *)
Lemma normal_form_of_lowercase (s : string) :
  is_lowercase (strip s) -> normal_form s = strip s.
Proof. intros Hs. exact Hs. Qed.

Lemma survives_iff (s : string) :
  survives s = true <-> ~ blank s /\ fits s.
Proof.
  unfold survives, blank, fits.
  rewrite andb_true_iff, normal_form_truthy, truthy_true, Nat.leb_le.
  reflexivity.
Qed.

(** C9.  [sanitize_ingredients] returns exactly the normal forms, trimmed
    and then lowercased, of the entries whose normal form is non-empty and
    has at most 100 characters, in their order and with their repetitions;
    each entry of the output is lowercase and trimmed; and when some entry
    of the input is non-blank with a normal form of at most 100
    characters, the output is non-empty and holds the normal form of that
    entry.  The bound is on the normal form, which is at least as long as
    the trimmed form: an entry of more than 100 characters once trimmed
    never survives, and for an entry whose trimmed form is lowercase
    already the bound is the one on the trimmed form. *)
Theorem sanitize_ingredients_correct (raw : list string) :
  sanitize_ingredients raw = map normal_form (filter survives raw)
  /\ Forall (fun out => is_lowercase out /\ is_trimmed out)
       (sanitize_ingredients raw)
  /\ (forall s, In s raw -> strip s <> EmptyString ->
                Text.length (normal_form s) <= 100 ->
        sanitize_ingredients raw <> []
        /\ In (normal_form s) (sanitize_ingredients raw))
  /\ (forall s, 100 < Text.length (strip s) -> survives s = false)
  /\ (forall s, is_lowercase (strip s) ->
        survives s
        = truthy (strip s) && (Text.length (strip s) <=? 100)%nat).
Proof.
  assert (E : sanitize_ingredients raw = map normal_form (filter survives raw))
    by apply (sanitize_loop_spec raw []).
  split; [exact E|]. split; [|split; [|split]].
  - rewrite E. apply Forall_forall. intros out Ho.
    apply in_map_iff in Ho. destruct Ho as [x [<- _]].
    split; [apply normal_form_lowercase | apply normal_form_trimmed].
  - intros s Hin Hne Hlen.
    assert (Hs : In s (filter survives raw)).
    { apply filter_In. split; [exact Hin|]. apply survives_iff. now split. }
    assert (Hout : In (normal_form s) (sanitize_ingredients raw))
      by (rewrite E; now apply in_map).
    split; [|exact Hout].
    intros Hnil. rewrite Hnil in Hout. exact Hout.
  - intros s Hlong. apply not_true_is_false. intros Hs.
    apply survives_iff in Hs. destruct Hs as [_ Hfit]. unfold fits in Hfit.
    pose proof (normal_form_not_shorter s). lia.
  - intros s Hs. unfold survives.
    now rewrite (normal_form_of_lowercase s Hs).
Qed.

(** A request built by [RecipeRequest] holds the normal forms of the
    non-blank entries: none of its ingredients is blank. *)
Lemma validate_request_no_blank (v : list string) (request : Models.RecipeRequest) :
  validate_request v = Ok request ->
  Models.request_ingredients request
    = map normal_form (filter (fun s => truthy (strip s)) v)
  /\ Forall (fun s => ~ blank s) (Models.request_ingredients request).
Proof.
  intros Hv.
  assert (E : Models.request_ingredients request
              = map normal_form (filter (fun s => truthy (strip s)) v)).
  { destruct v as [|a v]; [discriminate|]. now injection Hv as <-. }
  split; [exact E|]. rewrite E. clear E Hv.
  apply Forall_forall. intros out Ho. apply in_map_iff in Ho.
  destruct Ho as [x [<- Hx]]. apply filter_In in Hx. destruct Hx as [_ Hx].
  unfold blank, normal_form. rewrite strip_lower, strip_idempotent.
  intros Hb. apply (f_equal truthy) in Hb. rewrite truthy_lower, Hx in Hb.
  discriminate Hb.
Qed.

End Normalizer.

Lemma sanitize_ingredients_witness :
  @RecipeService.sanitize_ingredients sample_casing
    ["  Eggs "; "   "; "MILK"; "Eggs"]
    = ["eggs"; "milk"; "eggs"]
  /\ @RecipeService.sanitize_ingredients sample_casing
       ["  Eggs "; "   "; "MILK"; "Eggs"] <> [].
Proof.
  split; [reflexivity|].
  apply (proj1 (proj2 (proj2 (@sanitize_ingredients_correct sample_casing
                                ["  Eggs "; "   "; "MILK"; "Eggs"]))) "MILK").
  - simpl. auto.
  - vm_compute. discriminate.
  - vm_compute. lia.
Defined.
(** ** Rounding to a float *)

Section Floats.
Import StorageService.
Local Open Scope Z_scope.

Lemma digits2_size (p : positive) : digits2_pos p = Pos.size p.
Proof. induction p; simpl; congruence. Qed.

Lemma Zdigits2_log2 (p : positive) : Zdigits2 (Zpos p) = Z.log2 (Zpos p) + 1.
Proof.
  unfold Zdigits2. rewrite digits2_size.
  destruct p; simpl; lia.
Qed.

Lemma Zdigits2_nonneg (m : Z) : 0 <= Zdigits2 m.
Proof. destruct m; simpl; lia. Qed.

(* m < 2^k  ->  Zdigits2 m <= k *)
Lemma Zdigits2_le (m k : Z) : 0 <= m -> 0 <= k -> m < 2 ^ k -> Zdigits2 m <= k.
Proof.
  intros Hm Hk Hlt. destruct m as [|p|p]; [simpl; lia| |lia].
  rewrite Zdigits2_log2.
  assert (Z.log2 (Z.pos p) < k) by (apply Z.log2_lt_pow2; lia). lia.
Qed.

Lemma Zdigits2_lt_pow2 (m : Z) : 0 <= m -> m < 2 ^ Zdigits2 m.
Proof.
  intros Hm. destruct m as [|p|p]; [simpl; lia| |lia].
  rewrite Zdigits2_log2.
  pose proof (Z.log2_spec (Z.pos p) ltac:(lia)) as [_ H].
  replace (Z.log2 (Z.pos p) + 1) with (Z.succ (Z.log2 (Z.pos p))) by lia. exact H.
Qed.

Lemma Zdigits2_ge_pow2 (p : positive) : 2 ^ (Zdigits2 (Zpos p) - 1) <= Zpos p.
Proof.
  rewrite Zdigits2_log2.
  pose proof (Z.log2_spec (Z.pos p) ltac:(lia)) as [H _].
  replace (Z.log2 (Z.pos p) + 1 - 1) with (Z.log2 (Z.pos p)) by lia. exact H.
Qed.

Lemma shr_1_m (r : shr_record) : 0 <= shr_m r -> shr_m (shr_1 r) = Z.div2 (shr_m r).
Proof.
  destruct r as [m b s]. simpl. destruct m as [|[p|p|]|p]; simpl; try reflexivity; lia.
Qed.

Lemma iter_shr_m (p : positive) (r : shr_record) :
  0 <= shr_m r -> shr_m (iter_pos shr_1 p r) = Z.shiftr (shr_m r) (Zpos p).
Proof.
  revert r. induction p as [p IH|p IH|]; intros r Hr; simpl iter_pos.
  - assert (H1 : 0 <= shr_m (shr_1 r)) by (rewrite shr_1_m by exact Hr; apply Z.div2_nonneg; exact Hr).
    rewrite IH.
    + rewrite IH by exact H1. rewrite shr_1_m by exact Hr.
      rewrite Z.div2_spec, !Z.shiftr_shiftr by lia. f_equal. lia.
    + rewrite IH by exact H1. apply Z.shiftr_nonneg. exact H1.
  - rewrite IH.
    + rewrite IH by exact Hr. rewrite Z.shiftr_shiftr by lia. f_equal. lia.
    + rewrite IH by exact Hr. apply Z.shiftr_nonneg. exact Hr.
  - rewrite shr_1_m by exact Hr. apply Z.div2_spec.
Qed.


Lemma fexp_le (x : Z) : x <= 1024 -> fexp prec emax x <= 971.
Proof. unfold fexp, emin, prec, emax. lia. Qed.

Lemma Zdigits2_pos (m : Z) : 0 < m -> Zdigits2 m = Z.log2 m + 1.
Proof. destruct m as [|p|p]; [lia | intros _; apply Zdigits2_log2 | lia]. Qed.

Lemma Zdigits2_shiftr (m n : Z) :
  0 <= m -> 0 < n ->
  Z.shiftr m n = 0 \/ Zdigits2 (Z.shiftr m n) = Zdigits2 m - n.
Proof.
  intros Hm Hn.
  destruct (Z.eq_dec (Z.shiftr m n) 0) as [E|N]; [now left|]. right.
  assert (Hpos : 0 < Z.shiftr m n).
  { pose proof (proj2 (Z.shiftr_nonneg m n) Hm). lia. }
  assert (Hmpos : 0 < m).
  { destruct (Z.eq_dec m 0) as [->|]; [rewrite Z.shiftr_0_l in N|]; lia. }
  rewrite (Zdigits2_pos _ Hpos), (Zdigits2_pos _ Hmpos).
  rewrite Z.log2_shiftr by lia.
  assert (Hle : n <= Z.log2 m).
  { apply Z.log2_le_pow2; [lia|].
    rewrite Z.shiftr_div_pow2 in Hpos by lia.
    destruct (Z.le_gt_cases (2 ^ n) m) as [L|G]; [exact L|].
    rewrite Z.div_small in Hpos by lia. lia. }
  lia.
Qed.

(** One step [shr_fexp] on a mantissa that is not negative. *)
Lemma shr_fexp_step (m e : Z) (l : location) :
  0 <= m ->
  0 <= shr_m (fst (shr_fexp prec emax m e l))
  /\ snd (shr_fexp prec emax m e l) = Z.max e (fexp prec emax (Zdigits2 m + e))
  /\ Zdigits2 (shr_m (fst (shr_fexp prec emax m e l)))
       + snd (shr_fexp prec emax m e l)
     <= Z.max (Zdigits2 m + e) (snd (shr_fexp prec emax m e l)).
Proof.
  intros Hm. unfold shr_fexp, shr.
  assert (Hr : shr_m (shr_record_of_loc m l) = m).
  { destruct l as [|[| |]]; reflexivity. }
  destruct (fexp prec emax (Zdigits2 m + e) - e) as [|p|p] eqn:En; cbn [fst snd].
  - rewrite Hr. split; [exact Hm|]. split; lia.
  - rewrite iter_shr_m by (rewrite Hr; exact Hm). rewrite Hr.
    split; [apply Z.shiftr_nonneg; exact Hm|]. split; [lia|].
    destruct (Zdigits2_shiftr m (Z.pos p) Hm ltac:(lia)) as [E|E]; rewrite E.
    + simpl. lia.
    + lia.
  - rewrite Hr. split; [exact Hm|]. split; lia.
Qed.

Lemma round_nearest_even_bounds (m : Z) (l : location) :
  m <= round_nearest_even m l <= m + 1.
Proof.
  destruct l as [|[| |]]; simpl; try lia. destruct (Z.even m); lia.
Qed.

Lemma Zdigits2_succ (m n : Z) : 0 <= m -> m <= n <= m + 1 -> Zdigits2 n <= Zdigits2 m + 1.
Proof.
  intros Hm Hn. apply Zdigits2_le; [lia | pose proof (Zdigits2_nonneg m); lia |].
  pose proof (Zdigits2_lt_pow2 m Hm).
  rewrite Z.pow_add_r by (pose proof (Zdigits2_nonneg m); lia). lia.
Qed.

(** Rounding a mantissa that is not negative, of a number below [2^1023],
    gives zero or a finite float. *)
Lemma binary_round_aux_finite (s : bool) (m e : Z) (l : location) :
  0 <= m -> Zdigits2 m + e <= 1023 -> e <= 971 ->
  is_finite (binary_round_aux prec emax s m e l) = true.
Proof.
  intros Hm Hd He. unfold binary_round_aux.
  destruct (shr_fexp_step m e l Hm) as [H1 [E1 D1]].
  destruct (shr_fexp prec emax m e l) as [r1 e1]. cbn [fst snd] in *.
  pose proof (round_nearest_even_bounds (shr_m r1) (loc_of_shr_record r1)) as Hr.
  set (m2 := round_nearest_even (shr_m r1) (loc_of_shr_record r1)) in *.
  assert (Hm2 : 0 <= m2) by lia.
  pose proof (Zdigits2_succ (shr_m r1) m2 H1 Hr) as Hd2.
  destruct (shr_fexp_step m2 e1 loc_Exact Hm2) as [H2 [E2 D2]].
  destruct (shr_fexp prec emax m2 e1 loc_Exact) as [r2 e2]. cbn [fst snd] in *.
  assert (He1 : e1 <= 971).
  { rewrite E1. pose proof (fexp_le (Zdigits2 m + e) ltac:(lia)). lia. }
  assert (He2 : e2 <= 971).
  { rewrite E2. pose proof (fexp_le (Zdigits2 m2 + e1) ltac:(lia)). lia. }
  destruct (shr_m r2) as [|p|p]; [reflexivity| |lia].
  replace (emax - prec) with 971 by reflexivity.
  destruct (Z.leb_spec e2 971); [reflexivity | lia].
Qed.

(** The quotient of two counts is zero or a finite float when the
    dividend has at most 1022 binary digits more than the divisor. *)
Lemma SFdiv_finite (a b : positive) :
  Zdigits2 (Zpos a) - Zdigits2 (Zpos b) <= 1022 ->
  is_finite (SFdiv prec emax (S754_finite false a 0) (S754_finite false b 0)) = true.
Proof.
  intros Hab. unfold SFdiv, SFdiv_core_binary.
  set (d1 := Zdigits2 (Zpos a)) in *. set (d2 := Zdigits2 (Zpos b)) in *.
  replace (d1 + 0 - (d2 + 0)) with (d1 - d2) by lia.
  replace (0 - 0) with 0 by lia.
  set (e' := Z.min (fexp prec emax (d1 - d2)) 0).
  assert (He' : e' <= 0) by (unfold e'; lia).
  set (sh := 0 - e').
  assert (Hm' : match sh with
                | 0 => Z.pos a
                | Z.pos _ => Z.shiftl (Z.pos a) sh
                | Z.neg _ => 0
                end = Z.pos a * 2 ^ sh).
  { destruct sh as [|p|p] eqn:Es; [simpl; lia| |lia].
    rewrite Z.shiftl_mul_pow2 by lia. reflexivity. }
  rewrite Hm'. clear Hm'.
  assert (Hsh : 0 <= sh) by (unfold sh; lia).
  pose proof (Z.pow_pos_nonneg 2 sh ltac:(lia) Hsh) as Hpow.
  pose proof (Z.div_mod (Z.pos a * 2 ^ sh) (Z.pos b) ltac:(lia)) as Hdm.
  pose proof (Z.mod_pos_bound (Z.pos a * 2 ^ sh) (Z.pos b) ltac:(lia)) as Hmod.
  unfold Z.div, Z.modulo in Hdm, Hmod.
  destruct (Z.div_eucl (Z.pos a * 2 ^ sh) (Z.pos b)) as [q r].
  assert (Hq : 0 <= q) by nia.
  apply binary_round_aux_finite; [exact Hq | | lia].
  destruct (Z.eq_dec q 0) as [->|Hq0]; [simpl; lia|].
  assert (Hq1 : 1 <= q) by lia.
  pose proof (Zdigits2_lt_pow2 (Z.pos a) ltac:(lia)) as Ha. fold d1 in Ha.
  pose proof (Zdigits2_ge_pow2 b) as Hb. fold d2 in Hb.
  assert (Hd1 : 0 < d1) by (unfold d1; rewrite Zdigits2_log2; pose proof (Z.log2_nonneg (Z.pos a)); lia).
  assert (Hd2 : 0 < d2) by (unfold d2; rewrite Zdigits2_log2; pose proof (Z.log2_nonneg (Z.pos b)); lia).
    assert (Hlt : q * 2 ^ (d2 - 1) < 2 ^ (d1 + sh)).
  { rewrite Z.pow_add_r by lia. nia. }
  assert (Hk : d2 - 1 < d1 + sh).
  { apply (Z.pow_lt_mono_r_iff 2); [lia | lia |].
    assert (2 ^ (d2 - 1) <= q * 2 ^ (d2 - 1)).
    { pose proof (Z.pow_pos_nonneg 2 (d2 - 1) ltac:(lia) ltac:(lia)). nia. }
    lia. }
  assert (Hqk : q < 2 ^ (d1 + sh - (d2 - 1))).
  { replace (d1 + sh) with ((d2 - 1) + (d1 + sh - (d2 - 1))) in Hlt by lia.
    rewrite Z.pow_add_r in Hlt by lia.
    pose proof (Z.pow_pos_nonneg 2 (d2 - 1) ltac:(lia) ltac:(lia)). nia. }
  pose proof (Zdigits2_le q (d1 + sh - (d2 - 1)) Hq ltac:(lia) Hqk).
  unfold sh in *. lia.
Qed.

Lemma operand_of_pos (p : positive) :
  operand (Pos.to_nat p) = S754_finite false p 0.
Proof.
  destruct (Pos2Nat.is_succ p) as [n Hn]. rewrite Hn. cbn [operand].
  now rewrite (SuccNat2Pos.inv n p Hn).
Qed.

Lemma operand_digits (n : nat) :
  (0 < n)%nat ->
  exists p, operand n = S754_finite false p 0 /\ Z.pos p = Z.of_nat n.
Proof.
  intros Hn. destruct n as [|k]; [lia|]. exists (Pos.of_succ_nat k).
  split; [reflexivity | lia].
Qed.

Lemma Zdigits2_mono (m n : Z) : 0 < m -> m <= n -> Zdigits2 m <= Zdigits2 n.
Proof.
  intros Hm Hn. rewrite !Zdigits2_pos by lia.
  pose proof (Z.log2_le_mono m n Hn). lia.
Qed.

(** The quotient of two counts is a number when the dividend is at most
    the divisor, and when the dividend is below [2^1023]. *)
Lemma quotient_is_finite (a b : nat) :
  (b <> 0)%nat -> (a <= b)%nat \/ Z.of_nat a < 2 ^ 1023 ->
  is_finite (quotient a b) = true.
Proof.
  intros Hb Hab. unfold quotient.
  destruct a as [|k]; [destruct b; [lia | reflexivity]|].
  destruct (operand_digits (S k) ltac:(lia)) as [p [-> Hp]].
  destruct (operand_digits b ltac:(lia)) as [q [-> Hq]].
  apply SFdiv_finite.
  pose proof (Zdigits2_nonneg (Z.pos q)).
  assert (0 < Zdigits2 (Z.pos q)) by (rewrite Zdigits2_log2; pose proof (Z.log2_nonneg (Z.pos q)); lia).
  destruct Hab as [Hle|Hlt].
  - pose proof (Zdigits2_mono (Z.pos p) (Z.pos q) ltac:(lia) ltac:(lia)). lia.
  - pose proof (Zdigits2_le (Z.pos p) 1023 ltac:(lia) ltac:(lia) ltac:(lia)). lia.
Qed.

End Floats.
(** ** The interaction log *)

Section Log.
Import Py StorageService.

Variable path : string.
Variable size : list Interaction -> nat.

Lemma get_recent_positive (fs : storage) (limit : Z) :
  (0 < limit)%Z ->
  get_recent_interactions fs limit
    = last_records (Nat.min (Z.to_nat limit) (List.length (get_all_interactions fs)))
        (get_all_interactions fs).
Proof.
  intros Hpos. unfold get_recent_interactions, last_records.
  destruct (get_all_interactions fs) as [|i l] eqn:E; [reflexivity|].
  unfold list_slice_from, slice_bound.
  destruct (Z.ltb_spec (- limit) 0) as [_|Hge]; [|lia].
  f_equal. lia.
Qed.

Lemma get_recent_length (fs : storage) (limit : Z) :
  (0 < limit)%Z ->
  List.length (get_recent_interactions fs limit)
    = Nat.min (Z.to_nat limit) (List.length (get_all_interactions fs)).
Proof.
  intros Hpos. rewrite get_recent_positive by exact Hpos.
  unfold last_records. rewrite length_skipn. lia.
Qed.

Example get_recent_two_of_five :
  map interaction_id (get_all_interactions Samples.five_logged)
    = [ "recipe_interaction_20240101_120000";
        "recipe_interaction_20240101_120001";
        "recipe_interaction_20240101_120002";
        "recipe_interaction_20240101_120003";
        "recipe_interaction_20240101_120004" ]
  /\ map interaction_id (get_recent_interactions Samples.five_logged 2)
    = [ "recipe_interaction_20240101_120003";
        "recipe_interaction_20240101_120004" ].
Proof. split; reflexivity. Qed.

(** C6.  With [limit = 0] the slice [interactions[-0:]] starts at index 0:
    [get_recent_interactions] returns every record of the store, where
    the last [min(0, n)] records are none.  On the five-record log it
    returns all five. *)
Theorem get_recent_zero_returns_all :
  (forall fs : storage,
      get_recent_interactions fs 0 = get_all_interactions fs)
  /\ List.length (get_recent_interactions Samples.five_logged 0) = 5
  /\ last_records (Nat.min 0 5) (get_all_interactions Samples.five_logged) = [].
Proof.
  split; [|split; reflexivity].
  intros fs. unfold get_recent_interactions.
  destruct (get_all_interactions fs) as [|i l]; reflexivity.
Qed.


(** *** Append, then read by identifier *)

Lemma scan_for_fresh (id : string) (l : list Interaction) (r : Interaction) :
  (forall i, In i l -> interaction_id i <> id) ->
  interaction_id r = id ->
  scan_for id (l ++ [r])%list = Some r.
Proof.
  intros Hfresh Hid. induction l as [|i l IH]; simpl.
  - rewrite Hid, text_eqb_refl. reflexivity.
  - destruct (text_eqb_spec (interaction_id i) id) as [E|_].
    + exfalso. apply (Hfresh i); [now left | exact E].
    + apply IH. intros j Hj. apply Hfresh. now right.
Qed.

Lemma scan_for_first (id : string) (l : list Interaction) (old new : Interaction) :
  In old l -> interaction_id old = id ->
  exists r, scan_for id (l ++ [new])%list = Some r /\ In r l.
Proof.
  intros Hin Hid. induction l as [|i l IH]; [contradiction|]. simpl.
  destruct (text_eqb_spec (interaction_id i) id) as [E|N].
  - exists i. split; [reflexivity | now left].
  - destruct Hin as [->|Hin]; [contradiction|].
    destruct (IH Hin) as [r [Hr Hl]]. exists r. split; [exact Hr | now right].
Qed.

(** When no record of the store bears the identifier made from the clock
    reading, the record read back by that identifier is the one just
    appended. *)
Lemma round_trip_fresh_id (now now_iso : string) (user_ingredients : list string)
    (llm_response : option string) (parsed_recipes : list Json.json)
    (ok : bool) (error : option string) (f : file) (l : list Interaction) :
  interactions f = Some l ->
  (forall i, In i l -> interaction_id i <> generate_interaction_id now) ->
  exists fs' r,
    store_interaction path size now now_iso user_ingredients llm_response
      parsed_recipes ok error (Some f)
      = Ok (generate_interaction_id now, fs')
    /\ get_interaction_by_id fs' (generate_interaction_id now) = Some r
    /\ ingredients (user_input r) = user_ingredients
    /\ recipe_count (parsed_output r) = List.length parsed_recipes.
Proof.
  intros Hl Hfresh. unfold store_interaction. rewrite Hl.
  eexists. eexists. split; [reflexivity|].
  unfold get_interaction_by_id, write, get_all_interactions. simpl.
  split; [apply scan_for_fresh; [exact Hfresh | reflexivity]|].
  split; [reflexivity|]. simpl. destruct parsed_recipes; reflexivity.
Qed.

(** When a record of the store already bears the identifier made from the
    clock reading, the record read back by that identifier is one the store
    held before the append. *)
Lemma colliding_id_reads_stored_record (now now_iso : string)
    (user_ingredients : list string) (llm_response : option string)
    (parsed_recipes : list Json.json) (ok : bool) (error : option string)
    (f : file) (l : list Interaction) (old : Interaction) :
  interactions f = Some l ->
  In old l -> interaction_id old = generate_interaction_id now ->
  exists fs' r,
    store_interaction path size now now_iso user_ingredients llm_response
      parsed_recipes ok error (Some f)
      = Ok (generate_interaction_id now, fs')
    /\ get_interaction_by_id fs' (generate_interaction_id now) = Some r
    /\ In r l.
Proof.
  intros Hl Hin Hid. unfold store_interaction. rewrite Hl.
  match goal with
  | |- context [write size (l ++ [?new])%list] =>
      destruct (scan_for_first _ l old new Hin Hid) as [r [Hr Hold]]
  end.
  eexists. exists r. split; [reflexivity|]. split; [exact Hr | exact Hold].
Qed.

(** An append keeps the records of the store, in their order, and adds one
    at the end. *)
Lemma store_interaction_appends (now now_iso : string)
    (user_ingredients : list string) (llm_response : option string)
    (parsed_recipes : list Json.json) (ok : bool) (error : option string)
    (f : file) (l : list Interaction) :
  interactions f = Some l ->
  exists fs' r,
    store_interaction path size now now_iso user_ingredients llm_response
      parsed_recipes ok error (Some f)
      = Ok (generate_interaction_id now, fs')
    /\ get_all_interactions fs' = (l ++ [r])%list
    /\ interaction_id r = generate_interaction_id now.
Proof.
  intros Hl. unfold store_interaction. rewrite Hl.
  eexists. eexists. split; [reflexivity|]. split; reflexivity.
Qed.

(** C8.  Two appends within one second of the clock get the same
    identifier, and the scan of [get_interaction_by_id] stops at the older
    record: after logging [["egg"]] with one parsed recipe, the record
    read back by the returned identifier holds [["salt"]] and a count of
    0. *)
Theorem same_second_append_reads_older_record :
  let earlier := Samples.log "20240101_120000" ["salt"] [] Samples.fresh in
  exists id fs' r,
    store_interaction Samples.path Samples.size
      "20240101_120000" "2024-01-01T12:00:00.700000"
      ["egg"] (Some Samples.no_recipes_text) [Json.JObj []] true None earlier
      = Ok (id, fs')
    /\ List.length (get_all_interactions fs') = 2
    /\ get_interaction_by_id fs' id = Some r
    /\ ingredients (user_input r) = ["salt"]
    /\ ingredients (user_input r) <> ["egg"]
    /\ recipe_count (parsed_output r) = 0.
Proof.
  simpl. eexists. eexists. eexists.
  split; [reflexivity|]. split; [reflexivity|]. split; [reflexivity|].
  split; [reflexivity|]. split; [discriminate | reflexivity].
Qed.


(** *** Aggregates *)

Lemma count_successful_le (l : list Interaction) :
  count_successful l <= List.length l.
Proof.
  induction l as [|i l IH]; simpl; [lia|].
  destruct (success (parsed_output i)); lia.
Qed.

(** A division gives the quotient when the divisor is not zero and the
    dividend is at most the divisor or below [2^1023]. *)
Lemma true_div_defined (a b : nat) :
  b <> 0 -> a <= b \/ (Z.of_nat a < 2 ^ 1023)%Z ->
  true_div a b = Ok (quotient a b).
Proof.
  intros Hb Hab. unfold true_div.
  destruct (Nat.eqb_spec b 0) as [E|_]; [contradiction|]. cbv zeta.
  fold (quotient a b). now rewrite (quotient_is_finite a b Hb Hab).
Qed.

(** A division raises [ZeroDivisionError] exactly when the divisor is
    zero. *)
Lemma true_div_by_zero (a b : nat) :
  (exists e, true_div a b = Raise e /\ exn_class e = ZeroDivisionError)
  <-> b = 0.
Proof.
  unfold true_div. destruct (Nat.eqb_spec b 0) as [E|N].
  - split; [intros _; exact E | intros _; eexists; split; reflexivity].
  - split; [|contradiction]. cbv zeta.
    destruct (is_finite _); intros [e [He Hc]]; [discriminate He|].
    injection He as <-. discriminate Hc.
Qed.

(** The quotient of [2^1024] by 1 is beyond the floats. *)
Example division_can_overflow :
  exists e, true_div (Pos.to_nat (2 ^ 1024)) 1 = Raise e
            /\ exn_class e = OverflowError.
Proof.
  unfold true_div. cbn [Nat.eqb]. rewrite operand_of_pos.
  eexists. split; [vm_compute; reflexivity | reflexivity].
Qed.

(** C7.  [get_storage_stats] never divides by zero: each of its two
    divisions is made with a divisor that is not zero, and it raises no
    [ZeroDivisionError].  On a store with no interaction it returns the
    single entry [total_interactions = 0].  On every other store that
    counts fewer than [2^1023] recipes it reports the total, successful and
    failed counts, the success rate, which is the float nearest to
    [successful / total] multiplied by 100 in floating point, the sum of the
    recipe counts, the average, which is the float nearest to
    [recipes / successful], or the integer 0 when no interaction
    succeeded, and the size of the storage file. *)
Theorem get_storage_stats_aggregates (fs : storage) :
  let l := get_all_interactions fs in
  let total := List.length l in
  let successful := count_successful l in
  let generated := sum_recipe_count l in
  let stats := get_storage_stats path fs in
  (forall e, stats = Raise e -> exn_class e <> ZeroDivisionError)
  /\ (l = [] -> stats = Ok [("total_interactions", SInt 0)])
  /\ (l <> [] -> (Z.of_nat generated < 2 ^ 1023)%Z ->
      (exists d, stats = Ok d)
      /\ reports "total_interactions" (SInt (Z.of_nat total)) stats
      /\ reports "successful_interactions" (SInt (Z.of_nat successful)) stats
      /\ reports "failed_interactions"
           (SInt (Z.of_nat total - Z.of_nat successful)) stats
      /\ total <> 0 /\ successful <= total
      /\ reports "success_rate" (SFloat (percentage successful total)) stats
      /\ (successful = 0 -> percentage successful total = S754_zero false)
      /\ reports "total_recipes_generated" (SInt (Z.of_nat generated)) stats
      /\ (successful = 0 ->
          reports "average_recipes_per_interaction" (SInt 0) stats)
      /\ (0 < successful ->
          reports "average_recipes_per_interaction"
            (SFloat (quotient generated successful)) stats)
      /\ exists f, fs = Some f
           /\ reports "file_size_bytes" (SInt (Z.of_nat (st_size f))) stats).
Proof.
  cbv zeta. unfold get_storage_stats.
  destruct (get_all_interactions fs) as [|i l] eqn:E.
  - split; [discriminate|]. split; [reflexivity|]. congruence.
  - set (all := i :: l).
    assert (Hn : 0 < List.length all) by (simpl; lia).
    pose proof (count_successful_le all) as Hs.
    destruct (Nat.ltb_spec 0 (List.length all)) as [_|]; [|lia].
    assert (Hrate : true_div (count_successful all) (List.length all)
                    = Ok (quotient (count_successful all) (List.length all)))
      by (apply true_div_defined; [lia | now left]).
    rewrite Hrate. cbn [bind].
    assert (Hf : exists f, fs = Some f).
    { destruct fs as [f|]; [now exists f | discriminate E]. }
    destruct Hf as [f ->].
    destruct (Nat.ltb_spec 0 (count_successful all)) as [Hpos|Hzero].
    + split.
      { intros e He Hc.
        destruct (true_div (sum_recipe_count all) (count_successful all))
          as [x|e'] eqn:Ed; cbn [bind] in He; [discriminate He|].
        injection He as <-.
        assert (Hz : count_successful all = 0).
        { apply (true_div_by_zero (sum_recipe_count all)). now exists e'. }
        lia. }
      split; [discriminate|]. intros _ Hrange.
      rewrite (true_div_defined (sum_recipe_count all) (count_successful all))
        by (try lia; now right).
      cbn [bind].
      split; [eexists; reflexivity|].
      split; [eexists; split; reflexivity|].
      split; [eexists; split; reflexivity|].
      split; [eexists; split; reflexivity|].
      split; [lia|]. split; [exact Hs|].
      split; [eexists; split; reflexivity|].
      split; [lia|].
      split; [eexists; split; reflexivity|].
      split; [lia|].
      split; [intros _; eexists; split; reflexivity|].
      exists f. split; [reflexivity | eexists; split; reflexivity].
    + cbn [bind].
      split; [discriminate|]. split; [discriminate|]. intros _ _.
      split; [eexists; reflexivity|].
      split; [eexists; split; reflexivity|].
      split; [eexists; split; reflexivity|].
      split; [eexists; split; reflexivity|].
      split; [lia|]. split; [exact Hs|].
      split; [eexists; split; reflexivity|].
      split.
      { intros Hz. rewrite Hz. unfold percentage, quotient.
        destruct (List.length all); [lia | reflexivity]. }
      split; [eexists; split; reflexivity|].
      split; [intros _; eexists; split; reflexivity|].
      split; [lia|].
      exists f. split; [reflexivity | eexists; split; reflexivity].
Qed.

(** C7, as first stated, fails on the empty store: the statistics of a
    store with no interaction hold no [success_rate] entry at all. *)
Lemma empty_store_reports_no_success_rate :
  get_all_interactions Samples.fresh = []
  /\ get_storage_stats Samples.path Samples.fresh
       = Ok [("total_interactions", SInt 0)]
  /\ ~ reports "success_rate" (SInt 0)
         (get_storage_stats Samples.path Samples.fresh)
  /\ ~ reports "average_recipes_per_interaction" (SInt 0)
         (get_storage_stats Samples.path Samples.fresh).
Proof.
  split; [reflexivity|]. split; [reflexivity|].
  split; intros [d [Hd Hl]]; injection Hd as <-; discriminate Hl.
Qed.

End Log.

(** On the log of five interactions, three of them successes with six
    recipes in all, the success rate is the float 60.0 and the average the
    float 2.0. *)
Lemma get_storage_stats_aggregates_witness :
  StorageService.get_all_interactions Samples.five_logged <> []
  /\ reports "success_rate"
       (StorageService.SFloat (S754_finite false 8444249301319680 (-47)))
       (StorageService.get_storage_stats Samples.path Samples.five_logged)
  /\ reports "average_recipes_per_interaction"
       (StorageService.SFloat (S754_finite false 4503599627370496 (-51)))
       (StorageService.get_storage_stats Samples.path Samples.five_logged)
  /\ reports "total_interactions" (StorageService.SInt 5)
       (StorageService.get_storage_stats Samples.path Samples.five_logged).
Proof.
  assert (H : StorageService.get_all_interactions Samples.five_logged <> [])
    by (vm_compute; discriminate).
  split; [exact H|].
  destruct (get_storage_stats_aggregates Samples.path Samples.five_logged)
    as [_ [_ Hfull]].
  destruct (Hfull H ltac:(vm_compute; reflexivity))
    as [_ [Htotal [_ [_ [_ [_ [Hrate [_ [_ [_ [Havg _]]]]]]]]]]].
  split; [exact Hrate|]. split; [|exact Htotal].
  apply Havg. vm_compute. lia.
Defined.

(** One success out of three gives the rate 33.33333333333333, which is
    the float [0x1.0aaaaaaaaaaaap+5], not the fraction 100/3. *)
Example success_rate_of_one_in_three :
  percentage 1 3 = S754_finite false 0x10aaaaaaaaaaaa (-47)
  /\ reports "success_rate"
       (StorageService.SFloat (S754_finite false 0x10aaaaaaaaaaaa (-47)))
       (StorageService.get_storage_stats Samples.path Samples.three_logged).
Proof. split; [reflexivity|]. eexists. split; reflexivity. Qed.
(** ** The JSON candidate *)

Section Candidate.
Import Py GeminiService.


Lemma startswith_prefix (a b s : string) :
  startswith (a ++ b) s = true -> startswith a s = true.
Proof.
  revert s. induction a as [|c a IH]; intros s; simpl; [reflexivity|].
  destruct s as [|d s]; [discriminate|]. intros Hs.
  apply andb_prop in Hs. destruct Hs as [Hcd Hs].
  now rewrite Hcd, (IH s Hs).
Qed.

Lemma occurs_at_prefix (a b s : string) (i : nat) :
  occurs_at (a ++ b) s i = true -> occurs_at a s i = true.
Proof.
  revert s. induction i as [|i IH]; intros s; simpl.
  - apply startswith_prefix.
  - destruct s as [|c s]; [discriminate | apply IH].
Qed.

(** Where the tagged marker occurs, the generic one does. *)
Lemma json_fence_is_fence (s : string) (i : nat) :
  occurs_at json_fence s i = true -> occurs_at fence s i = true.
Proof. apply (occurs_at_prefix fence "json"). Qed.


Lemma candidate_tagged (raw : string) (i : nat) :
  first_occurrence json_fence (strip raw) i ->
  exists j,
    last_occurrence fence (strip raw) j
    /\ json_candidate raw
       = strip (substring (i + 7) (j - (i + 7)) (strip raw)).
Proof.
  intros Hfirst. pose proof Hfirst as [Hi _].
  destruct (occurrence_has_last _ _ _ (json_fence_is_fence _ _ Hi)) as [j [Hj _]].
  exists j. split; [now apply rfind_index_last|].
  unfold json_candidate, contains, find, rfind.
  rewrite (find_index_of_first _ _ _ Hfirst), Hj. cbn [index_or_minus1].
  pose proof (occurs_at_length _ _ _ Hi) as Li.
  pose proof (occurs_at_length _ _ _ (proj1 (rfind_index_last _ _ _ Hj))) as Lj.
  change (Text.length json_fence) with 7 in Li.
  change (Text.length fence) with 3 in Lj.
  replace (Z.of_nat i + 7)%Z with (Z.of_nat (i + 7)) by lia.
  rewrite slice_substring by lia. reflexivity.
Qed.

Lemma candidate_generic (raw : string) (i : nat) :
  absent json_fence (strip raw) ->
  first_occurrence fence (strip raw) i ->
  exists j,
    last_occurrence fence (strip raw) j
    /\ json_candidate raw
       = strip (substring (i + 3) (j - (i + 3)) (strip raw)).
Proof.
  intros Hno Hfirst. pose proof Hfirst as [Hi _].
  destruct (occurrence_has_last _ _ _ Hi) as [j [Hj _]].
  exists j. split; [now apply rfind_index_last|].
  unfold json_candidate.
  rewrite (proj2 (contains_absent _ _) Hno).
  unfold contains, find, rfind.
  rewrite (find_index_of_first _ _ _ Hfirst), Hj. cbn [index_or_minus1].
  pose proof (occurs_at_length _ _ _ Hi) as Li.
  pose proof (occurs_at_length _ _ _ (proj1 (rfind_index_last _ _ _ Hj))) as Lj.
  change (Text.length fence) with 3 in Li, Lj.
  replace (Z.of_nat i + 3)%Z with (Z.of_nat (i + 3)) by lia.
  rewrite slice_substring by lia. reflexivity.
Qed.

Lemma candidate_plain (raw : string) :
  absent fence (strip raw) -> json_candidate raw = strip raw.
Proof.
  intros Hno. unfold json_candidate.
  assert (Hnj : absent json_fence (strip raw)).
  { intros j. destruct (occurs_at json_fence (strip raw) j) eqn:E; [|reflexivity].
    rewrite <- (Hno j). symmetry. now apply json_fence_is_fence. }
  now rewrite (proj2 (contains_absent _ _) Hnj), (proj2 (contains_absent _ _) Hno).
Qed.



(** *** Markers in the raw text and in the trimmed text

    Trimming removes white space only, and a marker holds none: the
    occurrences of a marker in the trimmed text are those of the raw
    text, shifted by the white space removed in front. *)

Lemma occurs_at_empty (sub : string) (j : nat) :
  sub <> EmptyString -> occurs_at sub EmptyString j = false.
Proof. destruct sub; [congruence|]. destruct j; reflexivity. Qed.


Lemma occurs_at_lstrip (sub s : string) (j : nat) :
  occurs_at sub (lstrip s) j = occurs_at sub s (indent s + j).
Proof.
  induction s as [|c s IH]; cbn [lstrip indent]; [reflexivity|].
  destruct (isspace c); [exact IH | reflexivity].
Qed.


Lemma startswith_rstrip (sub s : string) :
  spaceless sub = true -> startswith sub (rstrip s) = startswith sub s.
Proof.
  revert sub. induction s as [|c s IH]; intros sub Hsub; [reflexivity|].
  destruct sub as [|a sub]; [reflexivity|].
  cbn [spaceless] in Hsub. apply andb_prop in Hsub. destruct Hsub as [Ha Hsub].
  specialize (IH sub Hsub). cbn [rstrip].
  destruct (rstrip s) as [|d r] eqn:E.
  - destruct (isspace c) eqn:Ec; cbn [startswith].
    + destruct (char_eqb_spec a c) as [->|_]; [|reflexivity].
      rewrite Ec in Ha. discriminate.
    + now rewrite IH.
  - cbn [startswith]. now rewrite IH.
Qed.

Lemma occurs_at_rstrip (sub s : string) (j : nat) :
  spaceless sub = true -> sub <> EmptyString ->
  occurs_at sub (rstrip s) j = occurs_at sub s j.
Proof.
  intros Hsub Hne. revert s. induction j as [|j IH]; intros s.
  - cbn [occurs_at]. now apply startswith_rstrip.
  - destruct s as [|c s]; [reflexivity|]. cbn [rstrip occurs_at].
    rewrite <- (IH s).
    destruct (rstrip s) as [|d r]; [|reflexivity].
    destruct (isspace c); cbn [occurs_at]; now rewrite ?occurs_at_empty.
Qed.

Lemma occurs_at_strip (sub s : string) (j : nat) :
  spaceless sub = true -> sub <> EmptyString ->
  occurs_at sub (strip s) j = occurs_at sub s (indent s + j).
Proof.
  intros Hsub Hne. unfold strip.
  now rewrite occurs_at_rstrip, occurs_at_lstrip.
Qed.


End Candidate.

(** ** The response parser *)

Section Parser.
Import Py Json Models GeminiService.
Context `{Validation}.

Lemma collect_spec (items : list json) (recipes : list Recipe) :
  collect recipes items = (recipes ++ keep_valid items)%list.
Proof.
  revert recipes. induction items as [|x items IH]; intros recipes; simpl.
  - now rewrite app_nil_r.
  - destruct (construct x) as [r|e]; rewrite IH; simpl.
    + now rewrite <- app_assoc.
    + reflexivity.
Qed.

Lemma keep_valid_app (a b : list json) :
  keep_valid (a ++ b) = (keep_valid a ++ keep_valid b)%list.
Proof. apply flat_map_app. Qed.

Lemma keep_valid_In (items : list json) (r : Recipe) :
  In r (keep_valid items) <->
  exists x, In x items /\ construct x = Ok r.
Proof.
  unfold keep_valid. rewrite in_flat_map. split.
  - intros [x [Hx Hr]]. exists x. split; [exact Hx|].
    destruct (construct x) as [r'|e]; simpl in Hr; [|contradiction].
    destruct Hr as [->|[]]. reflexivity.
  - intros [x [Hx Hr]]. exists x. split; [exact Hx|]. rewrite Hr. now left.
Qed.

Lemma keep_valid_length (items : list json) :
  List.length (keep_valid items) <= List.length items.
Proof.
  induction items as [|x items IH]; simpl; [lia|].
  rewrite length_app. destruct (construct x); simpl; lia.
Qed.

(** What [_parse_ai_response] does with a candidate that decodes. *)
Lemma parse_decoded (raw : string) (data : json) :
  json_loads (json_candidate raw) = Some data ->
  _parse_ai_response raw =
    match data with
    | JObj d =>
        match iterate (match dict_get "recipes" d with
                       | Some v => v
                       | None => JArr []
                       end) with
        | Ok items => Ok (keep_valid items)
        | Raise e => Raise (process_error e)
        end
    | _ =>
        Raise (process_error
                 (Exn AttributeError
                    ("'" ++ type_name data ++ "' object has no attribute 'get'")))
    end.
Proof.
  intros Hd. unfold _parse_ai_response, parse_body. rewrite Hd. cbn [bind].
  destruct data; try reflexivity.
  cbn [get_recipes bind].
  destruct (dict_get "recipes" fields) as [v|]; [|reflexivity].
  destruct v; try reflexivity; cbn [iterate bind]; now rewrite collect_spec.
Qed.

Lemma parse_undecodable (raw : string) :
  json_loads (json_candidate raw) = None ->
  _parse_ai_response raw = Raise parse_error.
Proof.
  intros Hd. unfold _parse_ai_response, parse_body. now rewrite Hd.
Qed.


(** C4.  The candidate [_parse_ai_response] decodes is chosen in this
    order.  When the trimmed text holds a tagged marker, whose first
    occurrence is at [i], it is the substring between the end [i + 7] of
    that marker and the last generic marker, trimmed; otherwise, when the
    trimmed text holds a generic marker, first at [i], it is the substring
    between [i + 3] and the last generic marker, trimmed; otherwise it is
    the trimmed text.  The outcome depends on the raw text through the
    candidate only, and the fenced example parses to no recipe. *)
Theorem fence_extraction_order (raw : string) :
  let text := strip raw in
  (forall i, first_occurrence json_fence text i ->
     exists j, last_occurrence fence text j
       /\ json_candidate raw = strip (substring (i + 7) (j - (i + 7)) text))
  /\ (absent json_fence text ->
      forall i, first_occurrence fence text i ->
        exists j, last_occurrence fence text j
          /\ json_candidate raw = strip (substring (i + 3) (j - (i + 3)) text))
  /\ (absent fence text -> json_candidate raw = text)
  /\ (forall other, json_candidate other = json_candidate raw ->
        _parse_ai_response other = _parse_ai_response raw)
  /\ _parse_ai_response Samples.fenced_text = Ok [].
Proof.
  cbv zeta. split; [apply candidate_tagged|].
  split; [intros Hno i Hi; now apply candidate_generic|].
  split; [apply candidate_plain|].
  split; [|reflexivity].
  intros other Hc. unfold _parse_ai_response, parse_body. now rewrite Hc.
Qed.

(** C5.  When the candidate decodes to an object, [_parse_ai_response]
    returns no recipe if the key [recipes] is absent, and, if the key
    holds an array, exactly the records built from the elements from which
    a [Recipe] can be built, in their order: the other elements are
    skipped one by one.  A payload that is not an object makes it raise,
    as does a [recipes] value that is a number, a boolean or null. *)
Theorem parse_keeps_valid_recipes (raw : string) (data : json) :
  json_loads (json_candidate raw) = Some data ->
  (forall d, data = JObj d -> dict_get "recipes" d = None ->
     _parse_ai_response raw = Ok [])
  /\ (forall d items, data = JObj d -> dict_get "recipes" d = Some (JArr items) ->
        _parse_ai_response raw = Ok (keep_valid items)
        /\ (forall r, In r (keep_valid items) <->
                      exists x, In x items /\ construct x = Ok r)
        /\ List.length (keep_valid items) <= List.length items)
  /\ (forall d v, data = JObj d -> dict_get "recipes" d = Some v ->
        (exists items, iterate v = Ok items
                       /\ _parse_ai_response raw = Ok (keep_valid items))
        \/ (exists e, iterate v = Raise e
                      /\ _parse_ai_response raw = Raise (process_error e)))
  /\ ((forall d, data <> JObj d) ->
        exists e, _parse_ai_response raw = Raise (process_error e)).
Proof.
  intros Hd. rewrite (parse_decoded raw data Hd).
  split; [|split; [|split]].
  - intros d -> ->. reflexivity.
  - intros d items -> ->. cbn [iterate].
    split; [reflexivity|]. split; [apply keep_valid_In | apply keep_valid_length].
  - intros d v -> ->. destruct (iterate v) as [items|e].
    + left. now exists items.
    + right. now exists e.
  - intros Hno. destruct data; try (eexists; reflexivity).
    exfalso. now apply (Hno fields).
Qed.


End Parser.

(** ** The generation client and the orchestrator *)

Section Generation.
Import Py Json Models GeminiService RecipeService.
Context `{Validation} `{GenerativeModel}.

(** The two outcomes of [generate_recipes]. *)
Lemma generate_recipes_cases (ingredients : list string) :
  (exists found,
      generate_recipes ingredients
      = {| recipes := found; success := true;
           message := Some ("Generated " ++ str_of_nat (List.length found)
                              ++ " recipes using your ingredients") |})
  \/ (exists e,
        generate_recipes ingredients
        = failure ("Failed to generate recipes: " ++ exn_str e)).
Proof.
  unfold generate_recipes.
  destruct (generate_content (_create_recipe_prompt ingredients)) as [text|e];
    cbn [bind]; [|right; now exists e].
  destruct (_parse_ai_response text) as [found|e]; cbn [bind].
  - left. now exists found.
  - right. now exists e.
Qed.

Lemma failure_invariant (msg : string) : envelope_invariant (failure msg).
Proof. split; simpl; [discriminate|]. intros _. split; [reflexivity | discriminate]. Qed.

(** C1.  Every result of [generate_recipes_from_ingredients] satisfies the
    envelope invariant.  Every result of [generate_recipes] has a message,
    and, when [success] is false, no recipe; its successful results may
    hold no recipe. *)
Theorem envelope_of_generation :
  (forall request : RecipeRequest,
      envelope_invariant (generate_recipes_from_ingredients request))
  /\ (forall ingredients : list string,
        (success (generate_recipes ingredients) = false ->
         recipes (generate_recipes ingredients) = []
         /\ message (generate_recipes ingredients) <> None)
        /\ message (generate_recipes ingredients) <> None).
Proof.
  split.
  - intros request. unfold generate_recipes_from_ingredients.
    destruct (request_ingredients request) as [|a l];
      [apply failure_invariant|].
    destruct (filter (fun ing => truthy (strip ing)) (a :: l)) as [|b valid];
      [apply failure_invariant|].
    destruct (generate_recipes_cases (b :: valid)) as [[found ->]|[e ->]].
    + cbn [success negb recipes]. destruct found as [|r found].
      * apply failure_invariant.
      * split; cbn [success recipes]; [discriminate|]. discriminate.
    + apply failure_invariant.
  - intros ingredients.
    destruct (generate_recipes_cases ingredients) as [[found ->]|[e ->]];
      cbn [success recipes message failure].
    + split; discriminate.
    + split; [intros _; split; [reflexivity|]|]; discriminate.
Qed.

(** C2.  An empty ingredient list yields the failure "No ingredients
    provided", and a non-empty list of blank entries the failure "No valid
    ingredients found": in both cases [success] is false, the message is
    set and there is no recipe.  The length of an entry is not examined:
    a non-blank entry is passed on to the generation client, whose
    non-empty successful answer is returned as it is. *)
Theorem generate_rejects_empty_and_blank (request : RecipeRequest) :
  let given := request_ingredients request in
  let valid_ingredients := filter (fun ing => truthy (strip ing)) given in
  let response := generate_recipes_from_ingredients request in
  (given = [] -> response = failure "No ingredients provided")
  /\ (given <> [] -> Forall blank given ->
      response = failure "No valid ingredients found")
  /\ (Forall blank given ->
      success response = false /\ message response <> None
      /\ recipes response = [])
  /\ (forall s, In s given -> ~ blank s ->
        In s valid_ingredients
        /\ (success (generate_recipes valid_ingredients) = true ->
            recipes (generate_recipes valid_ingredients) <> [] ->
            response = generate_recipes valid_ingredients)).
Proof.
  cbv zeta.
  assert (Hblank : forall l, Forall blank l ->
                     filter (fun ing => truthy (strip ing)) l = []).
  { induction l as [|a l IH]; intros Hl; [reflexivity|].
    inversion Hl as [|? ? Ha Hl']; subst. simpl.
    unfold blank in Ha. rewrite Ha. simpl. now apply IH. }
  unfold generate_recipes_from_ingredients.
  split; [intros ->; reflexivity|].
  split; [|split].
  - intros Hne Hall. destruct (request_ingredients request) as [|a l] eqn:E;
      [congruence|].
    now rewrite (Hblank _ Hall).
  - intros Hall. destruct (request_ingredients request) as [|a l] eqn:E.
    + repeat split; simpl; discriminate.
    + rewrite (Hblank _ Hall). repeat split; simpl; discriminate.
  - intros s Hin Hs.
    assert (Hv : In s (filter (fun ing => truthy (strip ing))
                         (request_ingredients request))).
    { apply filter_In. split; [exact Hin|]. apply truthy_true. exact Hs. }
    split; [exact Hv|]. intros Hok Hsome.
    destruct (request_ingredients request) as [|a l] eqn:E; [contradiction|].
    destruct (filter (fun ing => truthy (strip ing)) (a :: l)) as [|b valid];
      [contradiction|].
    rewrite Hok. cbn [negb].
    destruct (recipes (generate_recipes (b :: valid))); [congruence | reflexivity].
Qed.

(** C3.  When the candidate of a raw text does not decode,
    [_parse_ai_response] raises the parse error, whatever the text holds;
    [generate_recipes], given that text by the model, returns a failure
    whose message carries the description of the error, and so does
    [generate_recipes_from_ingredients].  The text "not json at all" is
    such a text. *)
Theorem undecodable_answer_fails_batch (raw : string) :
  json_loads (json_candidate raw) = None ->
  _parse_ai_response raw = Raise parse_error
  /\ (forall ingredients,
        generate_content (_create_recipe_prompt ingredients) = Ok raw ->
        generate_recipes ingredients
        = failure ("Failed to generate recipes: " ++ exn_str parse_error))
  /\ (forall request,
        let valid_ingredients :=
          filter (fun ing => truthy (strip ing)) (request_ingredients request) in
        valid_ingredients <> [] ->
        generate_content (_create_recipe_prompt valid_ingredients) = Ok raw ->
        generate_recipes_from_ingredients request
        = failure ("Failed to generate recipes: " ++ exn_str parse_error))
  /\ json_loads (json_candidate "not json at all") = None.
Proof.
  intros Hd. pose proof (parse_undecodable raw Hd) as Hp.
  assert (Hg : forall ingredients,
             generate_content (_create_recipe_prompt ingredients) = Ok raw ->
             generate_recipes ingredients
             = failure ("Failed to generate recipes: " ++ exn_str parse_error)).
  { intros ingredients Hm. unfold generate_recipes. rewrite Hm. cbn [bind].
    rewrite Hp. reflexivity. }
  split; [exact Hp|]. split; [exact Hg|]. split; [|reflexivity].
  intros request. cbv zeta. intros Hne Hm.
  unfold generate_recipes_from_ingredients.
  destruct (request_ingredients request) as [|a l] eqn:E; [now elim Hne|].
  destruct (filter (fun ing => truthy (strip ing)) (a :: l)) as [|b valid];
    [now elim Hne|].
  rewrite (Hg _ Hm). reflexivity.
Qed.

End Generation.

(** ** The properties on concrete runs *)

Section Runs.
Import Py Json Models GeminiService RecipeService Samples.

(** C1, as first stated, fails for the generation client: when the model
    answers with an empty list of recipes, [generate_recipes] returns a
    successful envelope that holds no recipe. *)
Lemma client_success_without_recipe :
  ~ envelope_invariant
      (@generate_recipes strict_validation (answering no_recipes_text) ["egg"]).
Proof.
  intros [Hsuccess _]. apply Hsuccess; reflexivity.
Qed.

Lemma envelope_of_generation_witness :
  let response :=
    @generate_recipes_from_ingredients strict_validation
      (answering (recipes_text [recipe_text "Omelette"]))
      {| request_ingredients := ["egg"; "butter"] |} in
  success response = true /\ recipes response <> [].
Proof.
  cbv zeta. split; [reflexivity|].
  apply (proj1 (@envelope_of_generation strict_validation
                  (answering (recipes_text [recipe_text "Omelette"])))
           {| request_ingredients := ["egg"; "butter"] |}).
  reflexivity.
Defined.

(** C2, as first stated, fails for over-length entries: a list whose only
    entry has 101 characters is passed on to the model, and the recipes it
    answers with are returned with [success = true]. *)
Lemma over_length_entry_accepted :
  let response :=
    @generate_recipes_from_ingredients strict_validation
      (answering (recipes_text [recipe_text "Omelette"]))
      {| request_ingredients := [long_ingredient] |} in
  100 < Text.length (strip long_ingredient)
  /\ ~ (success response = false /\ message response <> None
        /\ recipes response = []).
Proof.
  cbv zeta. split; [vm_compute; lia|].
  intros [Hfail _]. vm_compute in Hfail. discriminate Hfail.
Qed.

Lemma generate_rejects_empty_and_blank_witness :
  @generate_recipes_from_ingredients strict_validation
    (answering (recipes_text [recipe_text "Omelette"]))
    {| request_ingredients := ["  "; ""] |}
  = failure "No valid ingredients found".
Proof.
  apply (proj1 (proj2 (@generate_rejects_empty_and_blank strict_validation
                         (answering (recipes_text [recipe_text "Omelette"]))
                         {| request_ingredients := ["  "; ""] |}))).
  - simpl. discriminate.
  - simpl. repeat constructor.
Defined.

Lemma undecodable_answer_fails_batch_witness :
  json_loads (json_candidate "not json at all") = None
  /\ @_parse_ai_response strict_validation "not json at all" = Raise parse_error
  /\ @generate_recipes strict_validation (answering "not json at all") ["egg"]
     = failure "Failed to generate recipes: Failed to parse AI response as JSON".
Proof.
  assert (Hd : json_loads (json_candidate "not json at all") = None)
    by reflexivity.
  split; [exact Hd|].
  destruct (@undecodable_answer_fails_batch strict_validation
              (answering "not json at all") "not json at all" Hd)
    as [Hparse [Hclient _]].
  split; [exact Hparse|]. apply Hclient. reflexivity.
Defined.

(** C4, as first stated, fails where white space surrounds the fenced
    payload: the candidate is the substring between the markers with that
    white space removed.  With form feeds inside the fence the substring
    itself does not decode, while the answer parses. *)
Lemma candidate_is_trimmed_substring :
  let text := strip form_feed_fenced_text in
  first_occurrence json_fence text 0
  /\ last_occurrence fence text 23
  /\ json_candidate form_feed_fenced_text <> substring 7 (23 - 7) text
  /\ json_loads (substring 7 (23 - 7) text) = None
  /\ json_candidate form_feed_fenced_text = no_recipes_text
  /\ @_parse_ai_response strict_validation form_feed_fenced_text = Ok [].
Proof.
  cbv zeta.
  split; [apply find_index_first; reflexivity|].
  split; [apply rfind_index_last; reflexivity|].
  split; [vm_compute; discriminate|].
  repeat split; reflexivity.
Qed.

Lemma fence_extraction_order_witness :
  exists j,
    last_occurrence fence (strip fenced_text) j
    /\ json_candidate fenced_text
       = strip (substring (0 + 7) (j - (0 + 7)) (strip fenced_text)).
Proof.
  apply (proj1 (@fence_extraction_order strict_validation fenced_text) 0).
  apply find_index_first. reflexivity.
Defined.

(** C5, as first stated, fails on payloads that decode but hold no sequence
    of recipes: for the object [{"recipes": null}], and for the array [[]],
    the text decodes and [_parse_ai_response] raises. *)
Lemma decoded_payload_without_sequence_raises :
  json_loads (json_candidate null_recipes_text) = Some (JObj [("recipes", JNull)])
  /\ @_parse_ai_response strict_validation null_recipes_text
     = Raise (Exn ValueError
                "Failed to process AI response: 'NoneType' object is not iterable")
  /\ ~ (exists found,
          @_parse_ai_response strict_validation null_recipes_text = Ok found)
  /\ json_loads (json_candidate "[]") = Some (JArr [])
  /\ @_parse_ai_response strict_validation "[]"
     = Raise (Exn ValueError
                "Failed to process AI response: 'list' object has no attribute 'get'").
Proof.
  split; [reflexivity|]. split; [reflexivity|].
  split; [|split; reflexivity].
  intros [found Hfound]. vm_compute in Hfound. discriminate Hfound.
Qed.

Lemma parse_keeps_valid_recipes_witness :
  @_parse_ai_response strict_validation
    (recipes_text [recipe_text "Omelette"; nameless_recipe_text; recipe_text "Pancake"])
  = Ok [ omelette;
         {| name := "Pancake";
            ingredients := ingredients omelette;
            instructions := instructions omelette;
            cookingTime := cookingTime omelette;
            difficulty := difficulty omelette;
            nutrition := nutrition omelette |} ].
Proof.
  pose (raw := recipes_text
                 [recipe_text "Omelette"; nameless_recipe_text; recipe_text "Pancake"]).
  destruct (json_loads (json_candidate raw)) as [data|] eqn:Hd;
    [|vm_compute in Hd; discriminate Hd].
  destruct (@parse_keeps_valid_recipes strict_validation raw data Hd)
    as [_ [Harray _]].
  assert (Hdata := Hd). vm_compute in Hdata. injection Hdata as Hdata.
  symmetry in Hdata.
  destruct (Harray _ _ Hdata eq_refl) as [Hparse _].
  fold raw. rewrite Hparse. reflexivity.
Defined.


(** A failure of the model call is converted into a failure envelope. *)
Example provider_failure_is_converted :
  @generate_recipes_from_ingredients strict_validation
    (unreachable "503 Service Unavailable")
    {| request_ingredients := ["egg"] |}
  = failure "Failed to generate recipes: 503 Service Unavailable".
Proof. reflexivity. Qed.

(** A request built from blank entries only holds no ingredient. *)
Example blank_request_has_no_ingredient :
  @validate_request sample_casing ["  "; ""]
  = Ok {| request_ingredients := [] |}.
Proof. reflexivity. Qed.

(** C9, as first stated, fails where lowercasing lengthens an entry: the
    entry made of U+0130 and 99 letters is not blank and has 100
    characters once trimmed, its normal form has 101, and
    [sanitize_ingredients] drops it. *)
Lemma lengthened_entry_is_dropped :
  strip dotted_ingredient <> EmptyString
  /\ Text.length (strip dotted_ingredient) = 100
  /\ Text.length (@normal_form sample_casing dotted_ingredient) = 101
  /\ @sanitize_ingredients sample_casing [dotted_ingredient] = []
  /\ ~ In (@normal_form sample_casing dotted_ingredient)
         (@sanitize_ingredients sample_casing [dotted_ingredient]).
Proof.
  split; [vm_compute; discriminate|].
  split; [reflexivity|]. split; [reflexivity|]. split; [reflexivity|].
  intros Hin. exact Hin.
Qed.

(** White space outside ASCII is white space: an answer set off by a
    no-break space parses, and an entry made of such spaces is blank. *)
Example no_break_space_is_trimmed :
  json_candidate padded_text = no_recipes_text
  /\ @_parse_ai_response strict_validation padded_text = Ok []
  /\ blank (String 0xA0%N (String 0x3000%N ""))
  /\ @generate_recipes_from_ingredients strict_validation
       (answering (recipes_text [recipe_text "Omelette"]))
       {| request_ingredients := [String 0xA0%N ""] |}
     = failure "No valid ingredients found".
Proof. repeat split; reflexivity. Qed.

End Runs.
(** ** Validation and normalization together *)

Section Validation.
Import Py Models RecipeService.
Context `{Casing}.

Lemma normal_form_idempotent (s : string) :
  normal_form (normal_form s) = normal_form s.
Proof.
  unfold normal_form. now rewrite strip_lower, strip_idempotent, lower_idempotent.
Qed.

Lemma survives_normal_form (s : string) :
  survives (normal_form s) = survives s.
Proof. unfold survives. now rewrite normal_form_idempotent. Qed.

Lemma filter_map_kept {A : Type} (f : A -> A) (keep : A -> bool) (l : list A) :
  (forall x, In x l -> keep (f x) = true) ->
  filter keep (map f l) = map f l.
Proof.
  induction l as [|x l IH]; intros Hk; simpl; [reflexivity|].
  rewrite (Hk x (or_introl eq_refl)). f_equal. apply IH.
  intros y Hy. apply Hk. now right.
Qed.

Lemma sanitize_spec (l : list string) :
  sanitize_ingredients l = map normal_form (filter survives l).
Proof. apply (sanitize_loop_spec l []). Qed.

Lemma sanitize_of_normal (l : list string) :
  Forall (fun s => survives s = true) l ->
  sanitize_ingredients (map normal_form l) = map normal_form l.
Proof.
  intros Hl. rewrite sanitize_spec.
  rewrite filter_map_kept.
  - rewrite map_map. apply map_ext. apply normal_form_idempotent.
  - intros x Hx. rewrite survives_normal_form.
    now apply (proj1 (Forall_forall _ _) Hl).
Qed.

Lemma survivors_survive (l : list string) :
  Forall (fun s => survives s = true) (filter survives l).
Proof. apply Forall_forall. intros x Hx. now apply filter_In in Hx. Qed.

(** X1.  Normalizing twice is normalizing once, normalization never adds an
    entry, and it goes through a concatenation. *)
Theorem sanitize_ingredients_idempotent (raw more : list string) :
  sanitize_ingredients (sanitize_ingredients raw) = sanitize_ingredients raw
  /\ List.length (sanitize_ingredients raw) <= List.length raw
  /\ sanitize_ingredients (raw ++ more)
     = (sanitize_ingredients raw ++ sanitize_ingredients more)%list.
Proof.
  split; [|split].
  - rewrite (sanitize_spec raw). apply sanitize_of_normal, survivors_survive.
  - rewrite sanitize_spec, length_map. apply filter_length_le.
  - now rewrite !sanitize_spec, filter_app, map_app.
Qed.

Lemma first_too_long_none (l : list string) :
  first_too_long l = None <-> Forall short_enough l.
Proof.
  induction l as [|s l IH]; simpl.
  - split; [constructor | reflexivity].
  - destruct (Nat.ltb_spec 100 (Text.length (strip s))) as [L|L].
    + split; [discriminate|]. intros Hl. inversion Hl as [|? ? Hs _]; subst.
      unfold short_enough in Hs. lia.
    + rewrite IH. split.
      * intros Hl. constructor; [exact L | exact Hl].
      * intros Hl. now inversion Hl.
Qed.

Lemma first_too_long_some (l : list string) (s : string) :
  first_too_long l = Some s <->
  exists before after,
    l = (before ++ s :: after)%list
    /\ Forall short_enough before /\ 100 < Text.length (strip s).
Proof.
  induction l as [|x l IH]; simpl.
  - split; [discriminate|]. intros [[|? ?] [after [E _]]]; discriminate E.
  - destruct (Nat.ltb_spec 100 (Text.length (strip x))) as [L|L].
    + split.
      * intros [= <-]. exists [], l. repeat split; [constructor | exact L].
      * intros [[|y before] [after [E [Hb Hs]]]]; simpl in E.
        -- now injection E as -> _.
        -- injection E as <- _. inversion Hb as [|? ? Hy _]; subst.
           unfold short_enough in Hy. lia.
    + rewrite IH. split.
      * intros [before [after [-> [Hb Hs]]]]. exists (x :: before), after.
        repeat split; [constructor; assumption | exact Hs].
      * intros [[|y before] [after [E [Hb Hs]]]]; simpl in E.
        -- injection E as -> _. lia.
        -- injection E as _ ->. exists before, after.
           repeat split; [now inversion Hb | exact Hs].
Qed.

Lemma validate_ingredients_accepts (ingredients : list string) :
  fst (validate_ingredients ingredients) = true <->
  ingredients <> [] /\ Forall short_enough ingredients.
Proof.
  destruct ingredients as [|a l].
  - simpl. split; [discriminate|]. intros [Hne _]. now elim Hne.
  - unfold validate_ingredients.
    destruct (first_too_long (a :: l)) as [s|] eqn:E; simpl.
    + split; [discriminate|]. intros [_ Hl].
      apply first_too_long_none in Hl. congruence.
    + split; [|reflexivity]. intros _. split; [discriminate|].
      now apply first_too_long_none.
Qed.

(** X2.  [validate_ingredients] accepts exactly the non-empty lists whose
    entries all have at most 100 characters once trimmed, and then gives no
    reason.  It rejects the empty list with "Ingredients list cannot be
    empty", and a list with an over-length entry with a reason that quotes
    the first such entry as it was given. *)
Theorem validate_ingredients_verdict (ingredients : list string) :
  (validate_ingredients ingredients = (true, None) <->
   ingredients <> [] /\ Forall short_enough ingredients)
  /\ (fst (validate_ingredients ingredients) = true ->
      validate_ingredients ingredients = (true, None))
  /\ (ingredients = [] ->
      validate_ingredients ingredients
      = (false, Some "Ingredients list cannot be empty"))
  /\ (forall before s after,
        ingredients = (before ++ s :: after)%list ->
        Forall short_enough before -> 100 < Text.length (strip s) ->
        validate_ingredients ingredients
        = (false, Some ("Ingredient '" ++ s ++ "' is too long"))).
Proof.
  assert (Hfst : fst (validate_ingredients ingredients) = true ->
                 validate_ingredients ingredients = (true, None)).
  { destruct ingredients as [|a l]; [discriminate|]. unfold validate_ingredients.
    destruct (first_too_long (a :: l)); [discriminate | reflexivity]. }
  split; [|split; [|split]].
  - rewrite <- validate_ingredients_accepts. split; [now intros -> | exact Hfst].
  - exact Hfst.
  - now intros ->.
  - intros before s after E Hb Hs.
    assert (Hf : first_too_long ingredients = Some s).
    { apply first_too_long_some. now exists before, after. }
    destruct ingredients as [|a l]; [destruct before; discriminate E|].
    unfold validate_ingredients. now rewrite Hf.
Qed.

End Validation.

Lemma validate_ingredients_verdict_witness :
  RecipeService.validate_ingredients ["egg"; Samples.long_ingredient; "milk"]
  = (false, Some ("Ingredient '" ++ Samples.long_ingredient ++ "' is too long")).
Proof.
  apply (proj2 (proj2 (proj2 (validate_ingredients_verdict
                                ["egg"; Samples.long_ingredient; "milk"])))
           ["egg"] Samples.long_ingredient ["milk"]).
  - reflexivity.
  - constructor; [unfold short_enough; vm_compute; lia | constructor].
  - vm_compute. lia.
Defined.

Section Sanitization.
Import Py Models RecipeService.
Context `{Casing}.

Lemma filter_fits (l : list string) :
  Forall fits l ->
  filter survives l = filter (fun s => truthy (strip s)) l.
Proof.
  intros Hl. apply filter_ext_in. intros s Hs. unfold survives.
  pose proof (proj1 (Forall_forall _ _) Hl s Hs) as Hlen.
  unfold fits in Hlen.
  rewrite (proj2 (Nat.leb_le _ _) Hlen), normal_form_truthy.
  apply andb_true_r.
Qed.

(** An accepted entry that is lowercase already has a normal form of at
    most 100 characters. *)
Lemma lowercase_fits (s : string) :
  is_lowercase s -> short_enough s -> fits s.
Proof.
  intros Hl Hs. unfold fits.
  now rewrite (normal_form_of_lowercase s (strip_of_lowercase s Hl)).
Qed.

Lemma filter_survives_nil (l : list string) :
  filter survives l = [] <-> Forall (fun s => blank s \/ ~ fits s) l.
Proof.
  induction l as [|s l IH]; simpl; [split; [constructor | reflexivity]|].
  destruct (survives s) eqn:E.
  - split; [discriminate|]. intros Hl. inversion Hl as [|? ? Hs _]; subst.
    apply survives_iff in E. destruct E as [Hb Hf].
    destruct Hs; contradiction.
  - rewrite IH. split.
    + intros Hl. constructor; [|exact Hl].
      destruct (strip s) as [|c t] eqn:Es; [now left|]. right. intros Hf.
      assert (Hs : survives s = true).
      { apply survives_iff. split; [|exact Hf]. unfold blank. now rewrite Es. }
      congruence.
    + intros Hl. now inversion Hl.
Qed.

Lemma filter_nonblank_nil (l : list string) :
  filter (fun s => truthy (strip s)) l = [] <-> Forall blank l.
Proof.
  induction l as [|s l IH]; simpl; [split; [constructor | reflexivity]|].
  destruct (strip s) eqn:E; simpl.
  - rewrite IH. split; [intros Hl; now constructor | intros Hl; now inversion Hl].
  - split; [discriminate|]. intros Hl. inversion Hl as [|? ? Hs _]; subst.
    unfold blank in Hs. congruence.
Qed.

(** X3.  Acceptance by [validate_ingredients] does not make the normalized
    list non-empty: on an accepted list [sanitize_ingredients] returns
    nothing exactly when every entry is blank or has a normal form of more
    than 100 characters, which lowercasing can make of an accepted entry.
    When the entries are lowercase already, as those of a request are, it
    drops the blank entries and nothing else, so that its result is empty
    exactly when every entry is blank. *)
Theorem validated_sanitize_drops_blanks_only (ingredients : list string) :
  fst (validate_ingredients ingredients) = true ->
  (sanitize_ingredients ingredients = []
   <-> Forall (fun s => blank s \/ ~ fits s) ingredients)
  /\ (Forall is_lowercase ingredients ->
      sanitize_ingredients ingredients
      = map normal_form (filter (fun s => truthy (strip s)) ingredients)
      /\ (sanitize_ingredients ingredients = [] <-> Forall blank ingredients)).
Proof.
  intros Hv.
  assert (Hs : Forall short_enough ingredients).
  { now apply validate_ingredients_accepts. }
  split.
  - rewrite sanitize_spec, <- filter_survives_nil.
    destruct (filter survives ingredients); simpl; split; congruence.
  - intros Hl.
    assert (Hf : Forall fits ingredients).
    { apply Forall_forall. intros s Hin. apply lowercase_fits.
      - exact (proj1 (Forall_forall _ _) Hl s Hin).
      - exact (proj1 (Forall_forall _ _) Hs s Hin). }
    assert (E : sanitize_ingredients ingredients
                = map normal_form
                    (filter (fun s => truthy (strip s)) ingredients)).
    { rewrite sanitize_spec. now rewrite filter_fits. }
    split; [exact E|]. rewrite E, <- filter_nonblank_nil.
    destruct (filter (fun s => truthy (strip s)) ingredients); simpl;
      split; congruence.
Qed.

Lemma nonblank_normal (l : list string) :
  Forall (fun s => truthy (strip s) = true) l ->
  filter (fun s => truthy (strip s)) (map normal_form l) = map normal_form l.
Proof.
  intros Hl. apply filter_map_kept. intros x Hx.
  unfold normal_form. rewrite strip_lower, strip_idempotent, truthy_lower.
  now apply (proj1 (Forall_forall _ _) Hl).
Qed.

Lemma nonblank_filtered (l : list string) :
  Forall (fun s => truthy (strip s) = true)
    (filter (fun s => truthy (strip s)) l).
Proof. apply Forall_forall. intros x Hx. now apply filter_In in Hx. Qed.

Lemma survivors_nonblank (l : list string) :
  Forall (fun s => truthy (strip s) = true) (filter survives l).
Proof.
  apply Forall_forall. intros x Hx. apply filter_In in Hx.
  destruct Hx as [_ Hx]. apply survives_iff in Hx. destruct Hx as [Hb _].
  now apply truthy_true.
Qed.

(** The entries [sanitize_ingredients] returns are kept as they are by the
    filter of the orchestrator and by the validator of [RecipeRequest]. *)
Lemma sanitized_is_stable (raw : list string) :
  filter (fun s => truthy (strip s)) (sanitize_ingredients raw)
  = sanitize_ingredients raw
  /\ map normal_form (sanitize_ingredients raw) = sanitize_ingredients raw.
Proof.
  rewrite sanitize_spec. split.
  - apply nonblank_normal, survivors_nonblank.
  - rewrite map_map. apply map_ext. apply normal_form_idempotent.
Qed.

Lemma validate_request_of_sanitized (raw : list string) :
  sanitize_ingredients raw <> [] ->
  validate_request (sanitize_ingredients raw)
  = Ok {| request_ingredients := sanitize_ingredients raw |}.
Proof.
  intros Hne. destruct (sanitized_is_stable raw) as [Hf Hm].
  unfold validate_request.
  destruct (sanitize_ingredients raw) as [|a l] eqn:E; [now elim Hne|].
  rewrite Hf. f_equal. f_equal. exact Hm.
Qed.

(** X4.  The validator of [RecipeRequest] rejects the empty list; from any
    other list it keeps the non-blank entries, trimmed and lowercased, in
    their order, so that no ingredient of a request is blank.  It sets no
    bound on the length: where every normal form has at most 100
    characters it agrees with [sanitize_ingredients], and an entry with a
    longer normal form stays in the request. *)
Theorem request_validator_normalizes (v : list string) :
  (v = [] -> exists e, validate_request v = Raise e)
  /\ (v <> [] ->
      exists request,
        validate_request v = Ok request
        /\ request_ingredients request
           = map normal_form (filter (fun s => truthy (strip s)) v)
        /\ Forall (fun s => ~ blank s /\ is_lowercase s /\ is_trimmed s)
             (request_ingredients request)
        /\ (Forall fits v ->
            request_ingredients request = sanitize_ingredients v)
        /\ (forall s, In s v -> ~ blank s ->
            In (normal_form s) (request_ingredients request))).
Proof.
  split; [intros ->; eexists; reflexivity|].
  intros Hne. destruct v as [|a l]; [now elim Hne|].
  eexists. split; [reflexivity|]. cbn [request_ingredients].
  split; [reflexivity|]. split; [|split].
  - apply Forall_forall. intros out Ho. apply in_map_iff in Ho.
    destruct Ho as [x [<- Hx]]. apply filter_In in Hx. destruct Hx as [_ Hx].
    split; [|split; [apply normal_form_lowercase | apply normal_form_trimmed]].
    unfold blank, normal_form. rewrite strip_lower, strip_idempotent.
    intros Hb. apply (f_equal truthy) in Hb. rewrite truthy_lower, Hx in Hb.
    discriminate Hb.
  - intros Hs. rewrite sanitize_spec, filter_fits by exact Hs. reflexivity.
  - intros s Hs Hb. apply in_map. apply filter_In. split; [exact Hs|].
    now apply truthy_true.
Qed.

End Sanitization.

Lemma validated_sanitize_drops_blanks_only_witness :
  fst (RecipeService.validate_ingredients [" egg"; "  "; ""]) = true
  /\ @RecipeService.sanitize_ingredients sample_casing [" egg"; "  "; ""]
     = ["egg"].
Proof.
  split; [reflexivity|].
  rewrite (proj1 (proj2 (@validated_sanitize_drops_blanks_only sample_casing
                           [" egg"; "  "; ""] eq_refl)
                    ltac:(repeat constructor))).
  reflexivity.
Defined.

(** The entry made of U+0130 and 99 letters is accepted by
    [validate_ingredients], and [sanitize_ingredients] drops it. *)
Example accepted_entry_can_be_dropped :
  RecipeService.validate_ingredients [Samples.dotted_ingredient] = (true, None)
  /\ ~ blank Samples.dotted_ingredient
  /\ @RecipeService.sanitize_ingredients sample_casing
       [Samples.dotted_ingredient] = [].
Proof.
  split; [reflexivity|]. split; [|reflexivity]. vm_compute. discriminate.
Qed.

Lemma request_validator_normalizes_witness :
  exists request,
    @RecipeService.validate_request sample_casing
      ["  Egg "; " "; Samples.long_ingredient] = Ok request
    /\ Models.request_ingredients request = ["egg"; Samples.long_ingredient].
Proof.
  destruct (proj2 (@request_validator_normalizes sample_casing
                     ["  Egg "; " "; Samples.long_ingredient]))
    as [request [Hr [Hi _]]]; [discriminate|].
  exists request. split; [exact Hr|]. rewrite Hi. reflexivity.
Defined.
(** ** The outcomes of a generation request *)

Section Pipeline.
Import Py Json Models GeminiService RecipeService.
Context `{Casing} `{Validation} `{GenerativeModel}.

(** Past its two checks, the orchestrator returns what the client returned,
    unless that is a success without recipes. *)
Lemma orchestrator_on_valid (request : RecipeRequest) :
  filter (fun ing => truthy (strip ing)) (request_ingredients request) <> [] ->
  generate_recipes_from_ingredients request
  = let response :=
      generate_recipes
        (filter (fun ing => truthy (strip ing)) (request_ingredients request)) in
    if negb (success response) then response
    else match recipes response with
         | [] => failure "No recipes could be generated with the provided ingredients"
         | _ => response
         end.
Proof.
  intros Hne. unfold generate_recipes_from_ingredients.
  destruct (request_ingredients request) as [|a l]; [now elim Hne|].
  destruct (filter (fun ing => truthy (strip ing)) (a :: l)) as [|b valid];
    [now elim Hne | reflexivity].
Qed.

(** X5.  When a request holds a non-blank ingredient and the call to the
    model raises, the orchestrator returns a failure envelope whose message
    is "Failed to generate recipes: " followed by the description of the
    exception; nothing is raised to the caller. *)
Theorem model_failure_becomes_failure_envelope
    (request : RecipeRequest) (e : exn) :
  let valid_ingredients :=
    filter (fun ing => truthy (strip ing)) (request_ingredients request) in
  valid_ingredients <> [] ->
  generate_content (_create_recipe_prompt valid_ingredients) = Raise e ->
  generate_recipes valid_ingredients
  = failure ("Failed to generate recipes: " ++ exn_str e)
  /\ generate_recipes_from_ingredients request
     = failure ("Failed to generate recipes: " ++ exn_str e).
Proof.
  cbv zeta. intros Hne He.
  assert (Hc : generate_recipes
                 (filter (fun ing => truthy (strip ing)) (request_ingredients request))
               = failure ("Failed to generate recipes: " ++ exn_str e)).
  { unfold generate_recipes. now rewrite He. }
  split; [exact Hc|]. rewrite (orchestrator_on_valid request Hne).
  cbv zeta. now rewrite Hc.
Qed.

(** X6.  When a request holds a non-blank ingredient and the answer of the
    model parses, the number of recipes decides the outcome: with none, the
    orchestrator returns the failure "No recipes could be generated with
    the provided ingredients"; otherwise it returns exactly the parsed
    recipes, in their order, with [success = true] and a message that tells
    their number. *)
Theorem parsed_answer_decides_outcome
    (request : RecipeRequest) (raw : string) (found : list Recipe) :
  let valid_ingredients :=
    filter (fun ing => truthy (strip ing)) (request_ingredients request) in
  valid_ingredients <> [] ->
  generate_content (_create_recipe_prompt valid_ingredients) = Ok raw ->
  _parse_ai_response raw = Ok found ->
  (found = [] ->
   generate_recipes_from_ingredients request
   = failure "No recipes could be generated with the provided ingredients")
  /\ (found <> [] ->
      generate_recipes_from_ingredients request
      = {| recipes := found; success := true;
           message := Some ("Generated " ++ str_of_nat (List.length found)
                              ++ " recipes using your ingredients") |}).
Proof.
  cbv zeta. intros Hne Hraw Hfound.
  rewrite (orchestrator_on_valid request Hne). cbv zeta.
  unfold generate_recipes. rewrite Hraw. cbn [bind]. rewrite Hfound.
  cbn [bind success negb recipes].
  split; [now intros ->|]. intros Hsome. destruct found; [now elim Hsome|].
  reflexivity.
Qed.

(** X7.  Blank entries have no effect on the outcome once the request holds
    a non-blank one: two requests with the same non-blank entries, in the
    same order, get the same result. *)
Theorem blank_entries_do_not_matter (request other : RecipeRequest) :
  filter (fun ing => truthy (strip ing)) (request_ingredients request) <> [] ->
  filter (fun ing => truthy (strip ing)) (request_ingredients other)
  = filter (fun ing => truthy (strip ing)) (request_ingredients request) ->
  generate_recipes_from_ingredients other
  = generate_recipes_from_ingredients request.
Proof.
  intros Hne Hsame.
  rewrite (orchestrator_on_valid request Hne).
  rewrite (orchestrator_on_valid other) by (rewrite Hsame; exact Hne).
  now rewrite Hsame.
Qed.

(** *** The endpoint *)

(** What the endpoint does with an accepted, non-blank input. *)
Lemma endpoint_on_accepted (request : RecipeRequest) :
  fst (validate_ingredients (request_ingredients request)) = true ->
  sanitize_ingredients (request_ingredients request) <> [] ->
  Main.generate_recipes request
  = let response :=
      generate_recipes_from_ingredients
        {| request_ingredients :=
             sanitize_ingredients (request_ingredients request) |} in
    if negb (success response)
    then Main.Abort {| Main.status_code := 500;
                       Main.detail := message response |}
    else Main.Respond response.
Proof.
  intros Hv Hne. unfold Main.generate_recipes.
  destruct (validate_ingredients (request_ingredients request)) as [ok why].
  simpl in Hv. subst ok. cbn [negb].
  rewrite (validate_request_of_sanitized _ Hne).
  destruct (sanitize_ingredients (request_ingredients request)) as [|a l];
    [now elim Hne | reflexivity].
Qed.

(** A request built by the validator holds entries that are not blank and
    are their own normal form, hence lowercase and trimmed. *)
Lemma built_request (v : list string) (request : RecipeRequest) :
  validate_request v = Ok request ->
  v <> []
  /\ request_ingredients request
     = map normal_form (filter (fun s => truthy (strip s)) v)
  /\ Forall (fun s => ~ blank s /\ normal_form s = s)
       (request_ingredients request).
Proof.
  intros Hv. destruct (validate_request_no_blank v request Hv) as [E Hb].
  split; [intros ->; discriminate Hv|]. split; [exact E|].
  apply Forall_forall. intros s Hs.
  split; [exact (proj1 (Forall_forall _ _) Hb s Hs)|].
  rewrite E in Hs. apply in_map_iff in Hs. destruct Hs as [x [<- _]].
  apply normal_form_idempotent.
Qed.

Lemma normal_is_lowercase (s : string) : normal_form s = s -> is_lowercase s.
Proof. intros <-. apply normal_form_lowercase. Qed.

(** On the entries of such a request that validation accepted,
    [sanitize_ingredients] changes nothing. *)
Lemma sanitize_built (l : list string) :
  Forall (fun s => ~ blank s /\ normal_form s = s) l ->
  Forall short_enough l ->
  sanitize_ingredients l = l.
Proof.
  intros Hb Hs. rewrite sanitize_spec.
  induction l as [|s l IH]; [reflexivity|].
  inversion Hb as [|? ? [Hnb Hn] Hb']; subst.
  inversion Hs as [|? ? Hsh Hs']; subst.
  cbn [filter].
  assert (Hk : survives s = true).
  { apply survives_iff. split; [exact Hnb|].
    apply lowercase_fits; [now apply normal_is_lowercase | exact Hsh]. }
  rewrite Hk. cbn [map]. rewrite Hn. f_equal. now apply IH.
Qed.

(** The reason [validate_ingredients] gives is never the one of the
    check made after normalization. *)
Lemma validate_ingredients_reason (l : list string) :
  snd (validate_ingredients l)
  <> Some "No valid ingredients found after sanitization".
Proof.
  destruct l as [|a l]; [discriminate|]. unfold validate_ingredients.
  destruct (first_too_long (a :: l)); [|discriminate].
  cbn [snd append]. discriminate.
Qed.

(** X8.  What [POST /api/recipes/generate] does with unusable input.  For
    the empty list the validator of the request raises, and the handler is
    not called.  For a non-empty list of blank entries the request holds
    no ingredient, and the handler answers 400 "Ingredients list cannot be
    empty".  When the normal form of an entry has more than 100
    characters, the handler answers 400 and names the first such normal
    form.  The handler never answers "No valid ingredients found after
    sanitization": on the request the framework built, normalization
    removes nothing. *)
Theorem endpoint_rejects_unusable_input (v : list string) :
  (v = [] ->
   Main.post_generate_recipes v
   = Raise (Exn ValueError "Ingredients list cannot be empty"))
  /\ (v <> [] -> Forall blank v ->
      Main.post_generate_recipes v
      = Ok (Main.Abort
              {| Main.status_code := 400;
                 Main.detail := Some "Ingredients list cannot be empty" |}))
  /\ (forall before s after,
        map normal_form (filter (fun s => truthy (strip s)) v)
        = (before ++ s :: after)%list ->
        Forall short_enough before -> 100 < Text.length (strip s) ->
        Main.post_generate_recipes v
        = Ok (Main.Abort
                {| Main.status_code := 400;
                   Main.detail :=
                     Some ("Ingredient '" ++ s ++ "' is too long") |}))
  /\ Main.post_generate_recipes v
     <> Ok (Main.Abort
              {| Main.status_code := 400;
                 Main.detail :=
                   Some "No valid ingredients found after sanitization" |})
  /\ (forall request, validate_request v = Ok request ->
        fst (validate_ingredients (request_ingredients request)) = true ->
        sanitize_ingredients (request_ingredients request)
        = request_ingredients request).
Proof.
  assert (Hsame : forall request, validate_request v = Ok request ->
            fst (validate_ingredients (request_ingredients request)) = true ->
            sanitize_ingredients (request_ingredients request)
            = request_ingredients request).
  { intros request Hr Hv. destruct (built_request v request Hr) as [_ [_ Hb]].
    apply sanitize_built; [exact Hb|]. now apply validate_ingredients_accepts. }
  split; [now intros ->|]. split; [|split; [|split; [|exact Hsame]]].
  - intros Hne Hall. unfold Main.post_generate_recipes.
    destruct v as [|a l]; [now elim Hne|].
    cbn [validate_request bind].
    rewrite (proj2 (filter_nonblank_nil (a :: l)) Hall). reflexivity.
  - intros before s after E Hb Hs. unfold Main.post_generate_recipes.
    destruct v as [|a l]; [destruct before; discriminate E|].
    cbn [validate_request bind]. unfold Main.generate_recipes.
    cbn [request_ingredients]. fold (normal_form).
    change (map (fun ingredient => lower (strip ingredient)))
      with (map normal_form).
    assert (Hf : first_too_long
                   (map normal_form
                      (filter (fun s => truthy (strip s)) (a :: l)))
                 = Some s).
    { apply first_too_long_some. now exists before, after. }
    unfold validate_ingredients. rewrite Hf.
    destruct (map normal_form (filter (fun s => truthy (strip s)) (a :: l)));
      [destruct before; discriminate E | reflexivity].
  - unfold Main.post_generate_recipes.
    destruct (validate_request v) as [request|e] eqn:Hr; [|discriminate].
    cbn [bind]. intros Hp. injection Hp as Hp.
    unfold Main.generate_recipes in Hp.
    pose proof (validate_ingredients_reason (request_ingredients request))
      as Hreason.
    pose proof (Hsame request eq_refl) as Hs.
    destruct (validate_ingredients (request_ingredients request))
      as [ok why] eqn:Hv.
    cbn [fst snd] in *. destruct ok; cbn [negb] in Hp.
    + specialize (Hs eq_refl). rewrite Hs in Hp.
      assert (Hne : request_ingredients request <> []).
      { intros Hnil. rewrite Hnil in Hv. discriminate Hv. }
      destruct (request_ingredients request) as [|a l] eqn:Hi;
        [now elim Hne|].
      destruct (validate_request (a :: l)) as [built|e]; [|discriminate Hp].
      destruct (negb (success (generate_recipes_from_ingredients built)));
        discriminate Hp.
    + injection Hp as Hp. congruence.
Qed.

(** An entry that fits is accepted by validation. *)
Lemma fits_short_enough (l : list string) :
  Forall fits l -> Forall short_enough l.
Proof.
  apply Forall_impl. intros s Hs. unfold short_enough, fits in *.
  pose proof (normal_form_not_shorter s). lia.
Qed.

(** The handler on a list that is accepted and keeps an entry. *)
Lemma handler_follows_client (request : RecipeRequest) :
  let given := request_ingredients request in
  let answer := generate_recipes (sanitize_ingredients given) in
  given <> [] -> Forall fits given -> ~ Forall blank given ->
  (success answer = true -> recipes answer <> [] ->
   Main.generate_recipes request = Main.Respond answer)
  /\ (success answer = true -> recipes answer = [] ->
      Main.generate_recipes request
      = Main.Abort {| Main.status_code := 500;
                      Main.detail :=
                        Some "No recipes could be generated with the provided ingredients" |})
  /\ (success answer = false ->
      Main.generate_recipes request
      = Main.Abort {| Main.status_code := 500; Main.detail := message answer |}).
Proof.
  cbv zeta. intros Hne Hfits Hnb.
  assert (Hv : fst (validate_ingredients (request_ingredients request)) = true).
  { apply validate_ingredients_accepts.
    split; [exact Hne | now apply fits_short_enough]. }
  assert (Hs : sanitize_ingredients (request_ingredients request) <> []).
  { rewrite sanitize_spec, (filter_fits _ Hfits). intros Hnil.
    apply map_eq_nil in Hnil. now apply filter_nonblank_nil in Hnil. }
  rewrite (endpoint_on_accepted request Hv Hs). cbv zeta.
  destruct (sanitized_is_stable (request_ingredients request)) as [Hf _].
  rewrite orchestrator_on_valid
    by (cbn [request_ingredients]; rewrite Hf; exact Hs).
  cbn [request_ingredients]. rewrite Hf. cbv zeta.
  split; [|split].
  - intros Hok Hsome. rewrite Hok. cbn [negb].
    destruct (recipes (generate_recipes
                         (sanitize_ingredients (request_ingredients request))))
      eqn:Er; [now elim Hsome|].
    now rewrite Hok.
  - intros Hok Hnone. rewrite Hok, Hnone. reflexivity.
  - intros Hfail. rewrite Hfail. cbn [negb]. now rewrite Hfail.
Qed.

(** X9.  When the list of a request is not empty, holds a non-blank entry
    and only entries whose normal form has at most 100 characters, the
    endpoint asks the model about the normalized ingredients only (the
    second normalization by [RecipeRequest] and the filter of the
    orchestrator change nothing), and its reply follows the client's
    result: that result when it is a success with recipes, and otherwise
    status 500 with the failure message.  The bound is on the normal
    form: an entry that lowercasing lengthens beyond 100 characters is
    accepted by validation and dropped by normalization. *)
Theorem endpoint_follows_client (request : RecipeRequest) :
  let given := request_ingredients request in
  let answer := generate_recipes (sanitize_ingredients given) in
  given <> [] -> Forall fits given -> ~ Forall blank given ->
  (success answer = true -> recipes answer <> [] ->
   Main.generate_recipes request = Main.Respond answer)
  /\ (success answer = true -> recipes answer = [] ->
      Main.generate_recipes request
      = Main.Abort {| Main.status_code := 500;
                      Main.detail :=
                        Some "No recipes could be generated with the provided ingredients" |})
  /\ (success answer = false ->
      Main.generate_recipes request
      = Main.Abort {| Main.status_code := 500; Main.detail := message answer |}).
Proof. exact (handler_follows_client request). Qed.

(** X10.  The endpoint returns a body only for a list that validation
    accepted, and the body is then a success that holds at least one
    recipe; it never answers with the status 500 of an internal error of
    its own. *)
Theorem endpoint_returns_recipes_only (request : RecipeRequest) :
  (forall body, Main.generate_recipes request = Main.Respond body ->
     success body = true /\ recipes body <> []
     /\ fst (validate_ingredients (request_ingredients request)) = true
     /\ body = generate_recipes
                 (sanitize_ingredients (request_ingredients request)))
  /\ (forall e, Main.generate_recipes request = Main.Abort e ->
        Main.status_code e = 400
        \/ (Main.status_code e = 500
            /\ Main.detail e
               = message (generate_recipes_from_ingredients
                            {| request_ingredients :=
                                 sanitize_ingredients
                                   (request_ingredients request) |}))).
Proof.
  destruct (fst (validate_ingredients (request_ingredients request))) eqn:Hv.
  - destruct (sanitize_ingredients (request_ingredients request)) as [|a l] eqn:Hs.
    + unfold Main.generate_recipes.
      destruct (validate_ingredients (request_ingredients request)) as [ok why].
      simpl in Hv. subst ok. cbn [negb]. rewrite Hs.
      split; [discriminate|]. intros e [= <-]. now left.
    + assert (Hne : sanitize_ingredients (request_ingredients request) <> [])
        by (rewrite Hs; discriminate).
      rewrite (endpoint_on_accepted request Hv Hne). cbv zeta.
      destruct (sanitized_is_stable (request_ingredients request)) as [Hf _].
      pose proof (orchestrator_on_valid
                    {| request_ingredients :=
                         sanitize_ingredients (request_ingredients request) |})
        as Ho.
      cbn [request_ingredients] in Ho. rewrite Hf in Ho. specialize (Ho Hne).
      cbv zeta in Ho. rewrite <- Hs.
      destruct (success (generate_recipes_from_ingredients
                           {| request_ingredients :=
                                sanitize_ingredients (request_ingredients request) |}))
        eqn:Eok; cbn [negb].
      * split; [|discriminate]. intros body [= <-].
        revert Eok. rewrite Ho.
        destruct (success (generate_recipes
                             (sanitize_ingredients (request_ingredients request))))
          eqn:Ec; cbn [negb].
        -- destruct (recipes (generate_recipes
                                (sanitize_ingredients (request_ingredients request))))
             eqn:Er; [discriminate|].
           intros _. rewrite Ec, Er. repeat split; discriminate.
        -- rewrite Ec. discriminate.
      * split; [discriminate|]. intros e [= <-]. right. split; reflexivity.
  - unfold Main.generate_recipes.
    destruct (validate_ingredients (request_ingredients request)) as [ok why].
    simpl in Hv. subst ok. cbn [negb].
    split; [discriminate|]. intros e [= <-]. now left.
Qed.

(** X11.  The health check reports "healthy" exactly when the model answers
    the test prompt with a text that holds "Hello", and "degraded"
    otherwise, also when the call to the model raises; the status of the
    model is "operational" in the first case and "unavailable" in the
    second. *)
Theorem health_reflects_model_answer :
  (status test_service_health = "healthy" <->
   exists text, generate_content "Say 'Hello' in one word." = Ok text
                /\ contains "Hello" text = true)
  /\ (status test_service_health = "healthy"
      /\ gemini_ai test_service_health = "operational"
      \/ status test_service_health = "degraded"
         /\ gemini_ai test_service_health = "unavailable")
  /\ (forall e, generate_content "Say 'Hello' in one word." = Raise e ->
        status test_service_health = "degraded").
Proof.
  unfold test_service_health, test_connection. cbv zeta.
  destruct (generate_content "Say 'Hello' in one word.") as [text|e] eqn:E.
  - destruct (contains "Hello" text) eqn:Ec; cbn [status gemini_ai].
    + split; [|split; [now left | discriminate]].
      split; [intros _; now exists text | reflexivity].
    + split; [|split; [now right | discriminate]].
      split; [discriminate|]. intros [t [[= <-] Ht]]. congruence.
  - cbn [status gemini_ai].
    split; [|split; [now right | reflexivity]].
    split; [discriminate|]. intros [t [Ht _]]. discriminate Ht.
Qed.

(** X25.  [POST /api/recipes/generate] on a list the validator of the
    request accepts, when the request built holds an ingredient and
    validation accepts it.  The model is asked about the ingredients of the
    request as they are, trimmed and lowercased by the validator, and the
    answer of the route follows the client's result: status 200 with that
    result when it is a success with recipes, and otherwise status 500 with
    the failure message. *)
Theorem route_follows_client (v : list string) (request : RecipeRequest) :
  validate_request v = Ok request ->
  let given := request_ingredients request in
  let answer := generate_recipes given in
  given <> [] -> Forall short_enough given ->
  (success answer = true -> recipes answer <> [] ->
   Main.post_generate_recipes v = Ok (Main.Respond answer))
  /\ (success answer = true -> recipes answer = [] ->
      Main.post_generate_recipes v
      = Ok (Main.Abort
              {| Main.status_code := 500;
                 Main.detail :=
                   Some "No recipes could be generated with the provided ingredients" |}))
  /\ (success answer = false ->
      Main.post_generate_recipes v
      = Ok (Main.Abort {| Main.status_code := 500;
                          Main.detail := message answer |})).
Proof.
  intros Hr. cbv zeta. intros Hne Hshort.
  destruct (built_request v request Hr) as [_ [_ Hb]].
  assert (Hsame : sanitize_ingredients (request_ingredients request)
                  = request_ingredients request)
    by now apply sanitize_built.
  assert (Hfits : Forall fits (request_ingredients request)).
  { apply Forall_forall. intros s Hs.
    pose proof (proj1 (Forall_forall _ _) Hb s Hs) as [_ Hn].
    pose proof (proj1 (Forall_forall _ _) Hshort s Hs) as Hlen.
    apply lowercase_fits; [now apply normal_is_lowercase | exact Hlen]. }
  assert (Hnb : ~ Forall blank (request_ingredients request)).
  { intros Hall. destruct (request_ingredients request) as [|a l];
      [now elim Hne|].
    inversion Hb as [|? ? [Ha _] _]; subst.
    inversion Hall as [|? ? Hba _]; subst. contradiction. }
  pose proof (handler_follows_client request Hne Hfits Hnb) as Hh.
  cbv zeta in Hh. rewrite Hsame in Hh. destruct Hh as [Hh1 [Hh2 Hh3]].
  unfold Main.post_generate_recipes. rewrite Hr. cbn [bind].
  split; [|split].
  - intros Hok Hsome. now rewrite (Hh1 Hok Hsome).
  - intros Hok Hnone. now rewrite (Hh2 Hok Hnone).
  - intros Hfail. now rewrite (Hh3 Hfail).
Qed.

End Pipeline.

Section PipelineRuns.
Import Py Json Models GeminiService RecipeService Samples.

Lemma model_failure_becomes_failure_envelope_witness :
  @generate_recipes_from_ingredients strict_validation
    (unreachable "503 Service Unavailable")
    {| request_ingredients := [" "; "Egg"] |}
  = failure "Failed to generate recipes: 503 Service Unavailable".
Proof.
  apply (@model_failure_becomes_failure_envelope strict_validation
           (unreachable "503 Service Unavailable")
           {| request_ingredients := [" "; "Egg"] |}
           (Exn ProviderError "503 Service Unavailable")).
  - simpl. discriminate.
  - reflexivity.
Defined.

Lemma parsed_answer_decides_outcome_witness :
  @generate_recipes_from_ingredients strict_validation
    (answering (recipes_text [recipe_text "Omelette"; nameless_recipe_text]))
    {| request_ingredients := ["egg"] |}
  = {| recipes := [omelette]; success := true;
       message := Some "Generated 1 recipes using your ingredients" |}.
Proof.
  apply (proj2 (@parsed_answer_decides_outcome strict_validation
                  (answering (recipes_text [recipe_text "Omelette"; nameless_recipe_text]))
                  {| request_ingredients := ["egg"] |}
                  (recipes_text [recipe_text "Omelette"; nameless_recipe_text])
                  [omelette]
                  ltac:(simpl; discriminate) eq_refl eq_refl)).
  discriminate.
Defined.

Lemma blank_entries_do_not_matter_witness :
  @generate_recipes_from_ingredients strict_validation
    (answering (recipes_text [recipe_text "Omelette"]))
    {| request_ingredients := [""; "egg"; "  "] |}
  = @generate_recipes_from_ingredients strict_validation
      (answering (recipes_text [recipe_text "Omelette"]))
      {| request_ingredients := ["egg"] |}.
Proof.
  apply (@blank_entries_do_not_matter strict_validation
           (answering (recipes_text [recipe_text "Omelette"]))
           {| request_ingredients := ["egg"] |}
           {| request_ingredients := [""; "egg"; "  "] |}).
  - simpl. discriminate.
  - reflexivity.
Defined.

Lemma endpoint_rejects_unusable_input_witness :
  @Main.post_generate_recipes sample_casing strict_validation
    (answering (recipes_text [recipe_text "Omelette"])) ["  "; ""]
  = Ok (Main.Abort {| Main.status_code := 400;
                      Main.detail := Some "Ingredients list cannot be empty" |}).
Proof.
  apply (proj1 (proj2 (@endpoint_rejects_unusable_input sample_casing
                         strict_validation
                         (answering (recipes_text [recipe_text "Omelette"]))
                         ["  "; ""]))).
  - discriminate.
  - repeat constructor.
Defined.

(** An entry that lowercasing lengthens beyond 100 characters reaches the
    handler in its lowercase form, and is rejected there. *)
Example lengthened_entry_is_rejected :
  @Main.post_generate_recipes sample_casing strict_validation
    (answering (recipes_text [recipe_text "Omelette"])) [dotted_ingredient]
  = Ok (Main.Abort
          {| Main.status_code := 400;
             Main.detail :=
               Some ("Ingredient '"
                       ++ @normal_form sample_casing dotted_ingredient
                       ++ "' is too long") |}).
Proof. reflexivity. Qed.

Lemma endpoint_follows_client_witness :
  @Main.generate_recipes sample_casing strict_validation
    (answering (recipes_text [recipe_text "Omelette"]))
    {| request_ingredients := ["egg"; "butter"] |}
  = Main.Respond
      (@generate_recipes strict_validation
         (answering (recipes_text [recipe_text "Omelette"])) ["egg"; "butter"]).
Proof.
  apply (proj1 (@endpoint_follows_client sample_casing strict_validation
                  (answering (recipes_text [recipe_text "Omelette"]))
                  {| request_ingredients := ["egg"; "butter"] |}
                  ltac:(simpl; discriminate)
                  ltac:(simpl; repeat constructor; unfold fits;
                        vm_compute; lia)
                  ltac:(simpl; intros Hb; inversion Hb as [|? ? He _];
                        vm_compute in He; discriminate He))).
  - reflexivity.
  - vm_compute. discriminate.
Defined.

Lemma route_follows_client_witness :
  @Main.post_generate_recipes sample_casing strict_validation
    (answering (recipes_text [recipe_text "Omelette"]))
    [" Egg "; " "; "BUTTER"]
  = Ok (Main.Respond
          (@generate_recipes strict_validation
             (answering (recipes_text [recipe_text "Omelette"]))
             ["egg"; "butter"])).
Proof.
  apply (proj1 (@route_follows_client sample_casing strict_validation
                  (answering (recipes_text [recipe_text "Omelette"]))
                  [" Egg "; " "; "BUTTER"]
                  {| request_ingredients := ["egg"; "butter"] |}
                  eq_refl
                  ltac:(simpl; discriminate)
                  ltac:(simpl; repeat constructor; unfold short_enough;
                        vm_compute; lia))).
  - reflexivity.
  - vm_compute. discriminate.
Defined.

Lemma endpoint_returns_recipes_only_witness :
  recipes (@generate_recipes strict_validation
             (answering (recipes_text [recipe_text "Omelette"])) ["egg"])
  <> [].
Proof.
  apply (proj1 (@endpoint_returns_recipes_only sample_casing strict_validation
                  (answering (recipes_text [recipe_text "Omelette"]))
                  {| request_ingredients := ["egg"] |})
           (@generate_recipes strict_validation
              (answering (recipes_text [recipe_text "Omelette"])) ["egg"])).
  reflexivity.
Defined.

Lemma health_reflects_model_answer_witness :
  status (@test_service_health (answering "Hello!")) = "healthy"
  /\ status (@test_service_health (answering "hello")) = "degraded"
  /\ status (@test_service_health (unreachable "timeout")) = "degraded".
Proof.
  split; [|split].
  - apply (proj1 (@health_reflects_model_answer (answering "Hello!"))).
    exists "Hello!". split; reflexivity.
  - reflexivity.
  - apply (proj2 (proj2 (@health_reflects_model_answer (unreachable "timeout")))
             (Exn ProviderError "timeout")).
    reflexivity.
Defined.

End PipelineRuns.
(** ** A fenced answer inside prose *)

Section Fences.
Import Py Json Models GeminiService.

Lemma lstrip_app_headed (a b : string) :
  headed b -> lstrip (a ++ b) = lstrip a ++ b.
Proof.
  intros Hb. induction a as [|c a IH]; simpl.
  - now apply lstrip_of_headed.
  - destruct (isspace c); [exact IH | reflexivity].
Qed.

Lemma rstrip_cons_nonspace (c : char) (b : string) :
  isspace c = false -> rstrip (String c b) = String c (rstrip b).
Proof. intros Hc. simpl. rewrite Hc. now destruct (rstrip b). Qed.

Lemma rstrip_app_nonspace (x : string) (c : char) (b : string) :
  isspace c = false ->
  rstrip (x ++ String c b) = x ++ String c (rstrip b).
Proof.
  intros Hc. induction x as [|d x IH].
  - now apply rstrip_cons_nonspace.
  - cbn [append rstrip]. rewrite IH. now destruct x.
Qed.

Lemma tick_free_lstrip (s : string) : tick_free s = true -> tick_free (lstrip s) = true.
Proof.
  induction s as [|c s IH]; simpl; [reflexivity|]. intros Hs.
  destruct (isspace c); [|exact Hs].
  apply andb_prop in Hs. now apply IH.
Qed.

Lemma tick_free_rstrip (s : string) : tick_free s = true -> tick_free (rstrip s) = true.
Proof.
  induction s as [|c s IH]; simpl; [reflexivity|]. intros Hs.
  apply andb_prop in Hs. destruct Hs as [Hc Hs]. specialize (IH Hs).
  destruct (rstrip s); [destruct (isspace c)|]; simpl in *;
    now rewrite ?Hc, ?IH.
Qed.

Lemma startswith_self (a b : string) : startswith a (a ++ b) = true.
Proof.
  induction a as [|c a IH]; simpl; [reflexivity|].
  now rewrite char_eqb_refl, IH.
Qed.

Lemma occurs_at_app_skip (sub a b : string) (k : nat) :
  occurs_at sub (a ++ b) (Text.length a + k) = occurs_at sub b k.
Proof. induction a as [|c a IH]; simpl; [reflexivity | exact IH]. Qed.

Lemma occurs_in_tick_free_prefix (sub a b : string) (j : nat) :
  tick_free a = true -> j < Text.length a ->
  occurs_at (String "`" sub) (a ++ b) j = false.
Proof.
  revert j. induction a as [|c a IH]; intros j Ha Hj; simpl in Hj; [lia|].
  cbn [tick_free] in Ha. apply andb_prop in Ha. destruct Ha as [Hc Ha].
  destruct j as [|j]; cbn [append occurs_at].
  - cbn [startswith]. rewrite char_eqb_sym.
    apply negb_true_iff in Hc. now rewrite Hc.
  - apply IH; [exact Ha | lia].
Qed.

Lemma occurs_in_tick_free (sub s : string) (j : nat) :
  tick_free s = true -> occurs_at (String "`" sub) s j = false.
Proof.
  revert s. induction j as [|j IH]; intros s Hs.
  - destruct s as [|c s]; [reflexivity|]. cbn [occurs_at startswith].
    cbn [tick_free] in Hs. apply andb_prop in Hs. destruct Hs as [Hc _].
    rewrite char_eqb_sym. apply negb_true_iff in Hc. now rewrite Hc.
  - destruct s as [|c s]; [reflexivity|]. cbn [occurs_at].
    cbn [tick_free] in Hs. apply andb_prop in Hs. now apply IH.
Qed.

(** After a closing fence followed by a text without backtick, no fence
    begins. *)
Lemma no_fence_after_closing (q : string) (k : nat) :
  tick_free q = true -> 0 < k -> occurs_at fence (fence ++ q) k = false.
Proof.
  intros Hq Hk.
  destruct k as [|[|[|k]]]; [lia| | |].
  - destruct q as [|c q]; [reflexivity|]. cbn [tick_free] in Hq.
    apply andb_prop in Hq. destruct Hq as [Hc _].
    apply negb_true_iff in Hc. rewrite char_eqb_sym in Hc.
    cbn. cbn in Hc. now rewrite Hc.
  - destruct q as [|c q]; [reflexivity|]. cbn [tick_free] in Hq.
    apply andb_prop in Hq. destruct Hq as [Hc _].
    apply negb_true_iff in Hc. rewrite char_eqb_sym in Hc.
    cbn. cbn in Hc. now rewrite Hc.
  - change (occurs_at fence (fence ++ q) (S (S (S k))))
      with (occurs_at fence q k).
    now apply occurs_in_tick_free.
Qed.

Lemma substring_app_skip (a b : string) (n m : nat) :
  substring (Text.length a + n) m (a ++ b) = substring n m b.
Proof. induction a as [|c a IH]; simpl; [reflexivity | exact IH]. Qed.

Lemma substring_prefix (b c : string) :
  substring 0 (Text.length b) (b ++ c) = b.
Proof.
  induction b as [|d b IH]; simpl.
  - now destruct c.
  - now rewrite IH.
Qed.

(** The trimmed form of a fenced block between two texts without
    backtick, and the places of its markers: [opening] is the opening
    marker, which begins with a backtick. *)
Lemma fenced_shape (opening pre body post : string) :
  tick_free pre = true -> tick_free post = true ->
  let p := lstrip pre in
  let q := rstrip post in
  let text := strip (pre ++ String "`" opening ++ body ++ fence ++ post) in
  text = p ++ String "`" opening ++ body ++ fence ++ q
  /\ first_occurrence (String "`" opening) text (Text.length p)
  /\ last_occurrence fence text
       (Text.length p + (Text.length (String "`" opening) + Text.length body))
  /\ substring (Text.length p + Text.length (String "`" opening))
       (Text.length body) text = body.
Proof.
  intros Hpre Hpost. cbv zeta.
  assert (E : strip (pre ++ String "`" opening ++ body ++ fence ++ post)
              = lstrip pre ++ String "`" opening ++ body ++ fence ++ rstrip post).
  { unfold strip. rewrite lstrip_app_headed by reflexivity.
    assert (A : forall x y z w : string, x ++ y ++ z ++ fence ++ w
                  = (x ++ y ++ z ++ "``") ++ String "`" w).
    { intros x y z w.
      induction x as [|c x IH]; cbn [append]; [|f_equal; exact IH].
      induction y as [|c y IH]; cbn [append]; [|f_equal; exact IH].
      induction z as [|c z IH]; cbn [append]; [reflexivity | f_equal; exact IH]. }
    rewrite A, rstrip_app_nonspace by reflexivity. now rewrite <- A. }
  rewrite E. pose proof (tick_free_lstrip _ Hpre) as Hp.
  pose proof (tick_free_rstrip _ Hpost) as Hq.
  split; [reflexivity|]. split; [|split].
  - split.
    + rewrite <- (Nat.add_0_r (Text.length (lstrip pre))).
      rewrite occurs_at_app_skip. apply startswith_self.
    + intros j Hj. now apply occurs_in_tick_free_prefix.
  - split.
    + rewrite occurs_at_app_skip.
      rewrite occurs_at_app_skip.
      rewrite <- (Nat.add_0_r (Text.length body)).
      rewrite occurs_at_app_skip. apply (startswith_self fence).
    + intros j Hj.
      replace j with (Text.length (lstrip pre)
                      + (Text.length (String "`" opening)
                         + (Text.length body
                            + (j - (Text.length (lstrip pre)
                                    + (Text.length (String "`" opening)
                                       + Text.length body)))))) by lia.
      rewrite !occurs_at_app_skip. apply no_fence_after_closing; [exact Hq | lia].
  - rewrite substring_app_skip.
    rewrite <- (Nat.add_0_r (Text.length (String "`" opening))).
    rewrite substring_app_skip. apply substring_prefix.
Qed.

Section WithValidation.
Context `{Validation}.

Lemma parse_by_candidate (raw other : string) :
  json_candidate other = json_candidate raw ->
  _parse_ai_response other = _parse_ai_response raw.
Proof. intros Hc. unfold _parse_ai_response, parse_body. now rewrite Hc. Qed.

Lemma candidate_of_fence_free (body : string) :
  absent fence body -> json_candidate body = strip body.
Proof.
  intros Hb. apply candidate_plain. intros j.
  rewrite (occurs_at_strip fence body j eq_refl) by discriminate. apply Hb.
Qed.

(** X12.  Prose around a tagged fenced block is ignored: when the answer
    is a block opened by the tagged marker and closed by a fence, between
    two texts that hold no backtick, the candidate is the body of the
    block, trimmed; and when the body holds no fence, the answer parses as
    the body alone does. *)
Theorem tagged_fence_inside_prose (pre body post : string) :
  tick_free pre = true -> tick_free post = true ->
  json_candidate (pre ++ json_fence ++ body ++ fence ++ post) = strip body
  /\ (absent fence body ->
      _parse_ai_response (pre ++ json_fence ++ body ++ fence ++ post)
      = _parse_ai_response body).
Proof.
  intros Hpre Hpost.
  destruct (fenced_shape "``json" pre body post Hpre Hpost)
    as [_ [Hfirst [Hlast Hsub]]].
  change (String "`" "``json") with json_fence in *.
  assert (Hc : json_candidate (pre ++ json_fence ++ body ++ fence ++ post)
               = strip body).
  { destruct (candidate_tagged _ _ Hfirst) as [j [Hj ->]].
    rewrite (last_occurrence_unique _ _ _ _ Hj Hlast).
    change (Text.length json_fence) with 7 in *.
    replace (Text.length (lstrip pre) + (7 + Text.length body)
             - (Text.length (lstrip pre) + 7))
      with (Text.length body) by lia.
    now rewrite Hsub. }
  split; [exact Hc|]. intros Hb. symmetry. apply parse_by_candidate.
  now rewrite Hc, candidate_of_fence_free.
Qed.

(** X13.  The same holds for a block opened by the generic marker, as long
    as the tagged marker occurs nowhere in the answer. *)
Theorem generic_fence_inside_prose (pre body post : string) :
  tick_free pre = true -> tick_free post = true ->
  absent json_fence (pre ++ fence ++ body ++ fence ++ post) ->
  json_candidate (pre ++ fence ++ body ++ fence ++ post) = strip body
  /\ (absent fence body ->
      _parse_ai_response (pre ++ fence ++ body ++ fence ++ post)
      = _parse_ai_response body).
Proof.
  intros Hpre Hpost Hno.
  destruct (fenced_shape "``" pre body post Hpre Hpost)
    as [_ [Hfirst [Hlast Hsub]]].
  change (String "`" "``") with fence in *.
  assert (Hno' : absent json_fence
                   (strip (pre ++ fence ++ body ++ fence ++ post))).
  { intros j. rewrite (occurs_at_strip json_fence _ j eq_refl) by discriminate.
    apply Hno. }
  assert (Hc : json_candidate (pre ++ fence ++ body ++ fence ++ post)
               = strip body).
  { destruct (candidate_generic _ _ Hno' Hfirst) as [j [Hj ->]].
    rewrite (last_occurrence_unique _ _ _ _ Hj Hlast).
    change (Text.length fence) with 3 in *.
    replace (Text.length (lstrip pre) + (3 + Text.length body)
             - (Text.length (lstrip pre) + 3))
      with (Text.length body) by lia.
    now rewrite Hsub. }
  split; [exact Hc|]. intros Hb. symmetry. apply parse_by_candidate.
  now rewrite Hc, candidate_of_fence_free.
Qed.

End WithValidation.

End Fences.

(** ** More on the interaction log *)

Section LogMore.
Import Py StorageService.

Variable path : string.
Variable size : list Interaction -> nat.

Lemma get_recent_suffix (fs : storage) (limit : Z) :
  exists older,
    get_all_interactions fs = (older ++ get_recent_interactions fs limit)%list.
Proof.
  unfold get_recent_interactions.
  destruct (get_all_interactions fs) as [|i l] eqn:E; [now exists []|].
  unfold list_slice_from.
  exists (firstn (Z.to_nat (slice_bound (Z.of_nat (List.length (i :: l))) (- limit)))
            (i :: l)).
  now rewrite firstn_skipn.
Qed.

(** X14.  For a positive limit, [get_recent_interactions] returns the last
    [min(limit, n)] records of the store, in store order; with a limit of
    at least [n] it returns the whole store. *)
Theorem recent_positive_limit (fs : storage) (limit : Z) :
  (0 < limit)%Z ->
  let n := List.length (get_all_interactions fs) in
  get_recent_interactions fs limit
  = last_records (Nat.min (Z.to_nat limit) n) (get_all_interactions fs)
  /\ List.length (get_recent_interactions fs limit) = Nat.min (Z.to_nat limit) n
  /\ ((Z.of_nat n <= limit)%Z ->
      get_recent_interactions fs limit = get_all_interactions fs).
Proof.
  intros Hpos. cbv zeta.
  split; [now apply get_recent_positive|].
  split; [now apply get_recent_length|].
  intros Hn. rewrite get_recent_positive by exact Hpos. unfold last_records.
  replace (List.length (get_all_interactions fs)
           - Nat.min (Z.to_nat limit) (List.length (get_all_interactions fs)))
    with 0 by lia.
  reflexivity.
Qed.

Lemma recent_positive_limit_witness :
  map interaction_id (get_recent_interactions Samples.five_logged 2)
  = map interaction_id
      (last_records 2 (get_all_interactions Samples.five_logged)).
Proof.
  rewrite (proj1 (recent_positive_limit Samples.five_logged 2 ltac:(lia))).
  reflexivity.
Defined.

(** X15.  For a negative limit [-k], the slice [interactions[k:]] is taken:
    [get_recent_interactions] returns every record but the [k] oldest, and
    nothing when the store has at most [k] records. *)
Theorem recent_negative_limit_drops_oldest (fs : storage) (limit : Z) :
  (limit < 0)%Z ->
  get_recent_interactions fs limit
  = skipn (Z.to_nat (- limit)) (get_all_interactions fs)
  /\ List.length (get_recent_interactions fs limit)
     = List.length (get_all_interactions fs) - Z.to_nat (- limit).
Proof.
  intros Hneg.
  assert (E : get_recent_interactions fs limit
              = skipn (Z.to_nat (- limit)) (get_all_interactions fs)).
  { unfold get_recent_interactions.
    destruct (get_all_interactions fs) as [|i l] eqn:El;
      [now rewrite skipn_nil|].
    unfold list_slice_from, slice_bound.
    destruct (Z.ltb_spec (- limit) 0) as [|_]; [lia|].
    destruct (Z.le_gt_cases (- limit) (Z.of_nat (List.length (i :: l)))) as [L|G].
    - now rewrite Z.min_l by lia.
    - rewrite Z.min_r by lia. rewrite Nat2Z.id.
      rewrite skipn_all. symmetry. apply skipn_all2. lia. }
  split; [exact E|]. rewrite E. apply length_skipn.
Qed.

Lemma recent_negative_limit_drops_oldest_witness :
  map interaction_id (get_recent_interactions Samples.five_logged (-3))
  = [ "recipe_interaction_20240101_120003";
      "recipe_interaction_20240101_120004" ].
Proof.
  rewrite (proj1 (recent_negative_limit_drops_oldest Samples.five_logged (-3)
                    ltac:(lia))).
  reflexivity.
Defined.

(** X16.  Whatever the limit, [get_recent_interactions] returns a final
    segment of the store: records of the store only, consecutive, in store
    order and ending with the newest. *)
Theorem recent_is_final_segment (fs : storage) (limit : Z) :
  (exists older,
      get_all_interactions fs = (older ++ get_recent_interactions fs limit)%list)
  /\ (forall r, In r (get_recent_interactions fs limit) ->
                In r (get_all_interactions fs))
  /\ List.length (get_recent_interactions fs limit)
     <= List.length (get_all_interactions fs).
Proof.
  destruct (get_recent_suffix fs limit) as [older E].
  split; [now exists older|]. split.
  - intros r Hr. rewrite E. apply in_or_app. now right.
  - apply (f_equal (@List.length _)) in E. rewrite length_app in E. lia.
Qed.

(** *** Identifiers *)

Lemma scan_for_none (id : string) (l : list Interaction) :
  scan_for id l = None <-> forall r, In r l -> interaction_id r <> id.
Proof.
  induction l as [|i l IH]; simpl; [split; [intros _ r [] | reflexivity]|].
  destruct (text_eqb_spec (interaction_id i) id) as [E|N].
  - split; [discriminate|]. intros Hall. exfalso. apply (Hall i); [now left | exact E].
  - rewrite IH. split.
    + intros Hl r [<-|Hr]; [exact N | now apply Hl].
    + intros Hall r Hr. apply Hall. now right.
Qed.

Lemma scan_for_some (id : string) (l : list Interaction) (r : Interaction) :
  scan_for id l = Some r <->
  exists before after,
    l = (before ++ r :: after)%list /\ interaction_id r = id
    /\ forall o, In o before -> interaction_id o <> id.
Proof.
  induction l as [|i l IH]; simpl.
  - split; [discriminate|]. intros [[|? ?] [after [E _]]]; discriminate E.
  - destruct (text_eqb_spec (interaction_id i) id) as [E|N].
    + split.
      * intros [= <-]. exists [], l. repeat split; [exact E | intros o []].
      * intros [[|o before] [after [El [Hid Hb]]]]; simpl in El.
        -- now injection El as ->.
        -- injection El as <- _. exfalso. apply (Hb i); [now left | exact E].
    + rewrite IH. split.
      * intros [before [after [-> [Hid Hb]]]]. exists (i :: before), after.
        repeat split; [exact Hid|]. intros o [<-|Ho]; [exact N | now apply Hb].
      * intros [[|o before] [after [El [Hid Hb]]]]; simpl in El.
        -- injection El as -> _. contradiction.
        -- injection El as _ ->. exists before, after.
           repeat split; [exact Hid|]. intros o' Ho'. apply Hb. now right.
Qed.

(** X17.  [get_interaction_by_id] finds nothing exactly when no record of
    the store bears the identifier; otherwise it returns the oldest record
    that bears it.  The endpoint answers 404 "Interaction not found" in
    the first case and returns that record in the second. *)
Theorem lookup_returns_oldest_match (fs : storage) (id : string) :
  (get_interaction_by_id fs id = None <->
   forall r, In r (get_all_interactions fs) -> interaction_id r <> id)
  /\ (forall r,
        get_interaction_by_id fs id = Some r <->
        exists before after,
          get_all_interactions fs = (before ++ r :: after)%list
          /\ interaction_id r = id
          /\ forall o, In o before -> interaction_id o <> id)
  /\ (Main.get_interaction fs id
      = Main.Abort {| Main.status_code := 404;
                      Main.detail := Some "Interaction not found" |}
      <-> forall r, In r (get_all_interactions fs) -> interaction_id r <> id)
  /\ (forall r, Main.get_interaction fs id = Main.Respond r <->
                get_interaction_by_id fs id = Some r).
Proof.
  unfold Main.get_interaction, get_interaction_by_id.
  split; [apply scan_for_none|]. split; [intros r; apply scan_for_some|].
  split.
  - rewrite <- scan_for_none.
    destruct (scan_for id (get_all_interactions fs));
      split; congruence.
  - intros r. destruct (scan_for id (get_all_interactions fs));
      split; congruence.
Qed.

Lemma lookup_returns_oldest_match_witness :
  Main.get_interaction Samples.five_logged "recipe_interaction_20240101_999999"
  = Main.Abort {| Main.status_code := 404;
                  Main.detail := Some "Interaction not found" |}.
Proof.
  apply (proj1 (proj2 (proj2 (lookup_returns_oldest_match Samples.five_logged
                                "recipe_interaction_20240101_999999")))).
  intros r Hr. simpl in Hr.
  repeat (destruct Hr as [<-|Hr]; [discriminate|]). contradiction.
Defined.

Lemma scan_for_distinct (l : list Interaction) (r : Interaction) :
  NoDup (ids l) -> In r l -> scan_for (interaction_id r) l = Some r.
Proof.
  induction l as [|i l IH]; intros Hd Hr; [contradiction|]. simpl.
  inversion Hd as [|? ? Hi Hl]; subst.
  destruct Hr as [->|Hr]; [now rewrite text_eqb_refl|].
  destruct (text_eqb_spec (interaction_id i) (interaction_id r)) as [E|_].
  - exfalso. apply Hi. rewrite E. now apply in_map.
  - now apply IH.
Qed.

(** X18.  In a store whose records bear pairwise distinct identifiers,
    every record is read back by its own identifier. *)
Theorem distinct_ids_make_records_retrievable (fs : storage) (r : Interaction) :
  NoDup (ids (get_all_interactions fs)) ->
  In r (get_all_interactions fs) ->
  get_interaction_by_id fs (interaction_id r) = Some r.
Proof. intros Hd Hr. now apply scan_for_distinct. Qed.

Lemma samples_five_distinct : NoDup (ids (get_all_interactions Samples.five_logged)).
Proof.
  simpl. repeat (constructor; [simpl; intuition discriminate|]). constructor.
Qed.

Lemma distinct_ids_make_records_retrievable_witness :
  Forall (fun r => get_interaction_by_id Samples.five_logged (interaction_id r)
                   = Some r)
    (get_all_interactions Samples.five_logged).
Proof.
  apply Forall_forall. intros r Hr.
  exact (distinct_ids_make_records_retrievable Samples.five_logged r
           samples_five_distinct Hr).
Defined.

End LogMore.

(** ** Appending to the log *)

Section LogAppend.
Import Py StorageService.

Variable path : string.
Variable size : list Interaction -> nat.

Lemma generate_interaction_id_injective (now other : string) :
  generate_interaction_id now = generate_interaction_id other -> now = other.
Proof. unfold generate_interaction_id. simpl. now intros [= ->]. Qed.

Lemma scan_for_older (id : string) (l : list Interaction) (r o : Interaction) :
  scan_for id l = Some o -> scan_for id (l ++ [r])%list = Some o.
Proof.
  induction l as [|i l IH]; simpl; [discriminate|].
  destruct (Text.eqb (interaction_id i) id); [intros Ho; exact Ho | exact IH].
Qed.

Lemma NoDup_snoc {A : Type} (l : list A) (x : A) :
  NoDup l -> ~ In x l -> NoDup (l ++ [x]).
Proof.
  induction l as [|a l IH]; intros Hd Hx; simpl.
  - constructor; [intros [] | constructor].
  - inversion Hd as [|? ? Ha Hl]; subst. constructor.
    + intros Hin. apply in_app_or in Hin. destruct Hin as [Hin|[<-|[]]].
      * contradiction.
      * apply Hx. now left.
    + apply IH; [exact Hl|]. intros Hin. apply Hx. now right.
Qed.

(** X19.  Appending at a clock reading whose identifier no record of the
    store bears keeps the identifiers pairwise distinct: afterwards every
    older record is still read back by its identifier, and the returned
    identifier reads back the new record, with the ingredients given.
    Distinct clock readings give distinct identifiers. *)
Theorem append_keeps_ids_distinct (now now_iso : string)
    (user_ingredients : list string) (llm_response : option string)
    (parsed_recipes : list Json.json) (ok : bool) (error : option string)
    (f : file) (l : list Interaction) :
  interactions f = Some l ->
  NoDup (ids l) ->
  (forall i, In i l -> interaction_id i <> generate_interaction_id now) ->
  exists fs' r,
    store_interaction path size now now_iso user_ingredients llm_response
      parsed_recipes ok error (Some f)
    = Ok (generate_interaction_id now, fs')
    /\ get_all_interactions fs' = (l ++ [r])%list
    /\ NoDup (ids (get_all_interactions fs'))
    /\ (forall o, In o l -> get_interaction_by_id fs' (interaction_id o) = Some o)
    /\ get_interaction_by_id fs' (generate_interaction_id now) = Some r
    /\ ingredients (user_input r) = user_ingredients
    /\ (forall other, other <> now ->
          generate_interaction_id other <> generate_interaction_id now).
Proof.
  intros Hl Hd Hfresh. unfold store_interaction. rewrite Hl.
  eexists. eexists. split; [reflexivity|].
  unfold get_interaction_by_id, write, get_all_interactions.
  cbn [interactions].
  split; [reflexivity|]. split; [|split; [|split; [|split]]].
  - unfold ids. rewrite map_app. cbn [map interaction_id].
    apply NoDup_snoc; [exact Hd|]. intros Hin. apply in_map_iff in Hin.
    destruct Hin as [i [Hi Hin]]. now apply (Hfresh i).
  - intros o Ho. apply scan_for_older. now apply scan_for_distinct.
  - apply scan_for_fresh; [exact Hfresh | reflexivity].
  - reflexivity.
  - intros other Hne E. apply Hne. now apply generate_interaction_id_injective.
Qed.

(** X20.  Each record an append writes has counts and a status that agree
    with its data ([ingredient_count], [recipe_count], [response_length],
    [processing_status]), and the append leaves that property of the older
    records as it was. *)
Theorem append_writes_consistent_record (now now_iso : string)
    (user_ingredients : list string) (llm_response : option string)
    (parsed_recipes : list Json.json) (ok : bool) (error : option string)
    (f : file) (l : list Interaction) :
  interactions f = Some l ->
  exists fs' r,
    store_interaction path size now now_iso user_ingredients llm_response
      parsed_recipes ok error (Some f)
    = Ok (generate_interaction_id now, fs')
    /\ get_all_interactions fs' = (l ++ [r])%list
    /\ well_counted r
    /\ recipes (parsed_output r) = parsed_recipes
    /\ raw_response (llm_interaction r) = llm_response
    /\ error_message (metadata r) = error
    /\ (Forall well_counted l -> Forall well_counted (get_all_interactions fs')).
Proof.
  intros Hl. unfold store_interaction. rewrite Hl.
  eexists. eexists. split; [reflexivity|].
  unfold write, get_all_interactions. cbn [interactions].
  split; [reflexivity|].
  assert (Hw : well_counted
                 {| interaction_id := generate_interaction_id now;
                    timestamp := now_iso;
                    user_input := {| ingredients := user_ingredients;
                                     ingredient_count := List.length user_ingredients |};
                    llm_interaction := {|
                      raw_response := llm_response;
                      response_length := match llm_response with
                                         | Some text => Text.length text
                                         | None => 0
                                         end;
                      response_type := match llm_response with
                                       | Some _ => "str"
                                       | None => "NoneType"
                                       end |};
                    parsed_output := {|
                      recipes := parsed_recipes;
                      recipe_count := match parsed_recipes with
                                      | [] => 0
                                      | _ => List.length parsed_recipes
                                      end;
                      success := ok |};
                    metadata := {|
                      error_message := error;
                      processing_status := if ok then "success" else "failed" |} |}).
  { unfold well_counted. cbn.
    split; [reflexivity|]. split; [now destruct parsed_recipes|].
    split; [reflexivity|]. destruct ok; split; split; congruence. }
  split; [exact Hw|]. repeat (split; [reflexivity|]).
  intros Hall. apply Forall_app. split; [exact Hall | now constructor].
Qed.

Lemma count_successful_app (l : list Interaction) (r : Interaction) :
  count_successful (l ++ [r])
  = count_successful l + (if success (parsed_output r) then 1 else 0).
Proof. induction l as [|i l IH]; simpl; [lia | rewrite IH; lia]. Qed.

Lemma sum_recipe_count_app (l : list Interaction) (r : Interaction) :
  sum_recipe_count (l ++ [r]) = sum_recipe_count l + recipe_count (parsed_output r).
Proof. induction l as [|i l IH]; simpl; [lia | rewrite IH; lia]. Qed.

(** The statistics of a store that holds a record and counts fewer than
    [2^1023] recipes. *)
Lemma stats_of_records (f : file) (l : list Interaction) :
  interactions f = Some l -> l <> [] ->
  (Z.of_nat (sum_recipe_count l) < 2 ^ 1023)%Z ->
  reports "total_interactions" (SInt (Z.of_nat (List.length l)))
    (get_storage_stats path (Some f))
  /\ reports "successful_interactions" (SInt (Z.of_nat (count_successful l)))
       (get_storage_stats path (Some f))
  /\ reports "failed_interactions"
       (SInt (Z.of_nat (List.length l) - Z.of_nat (count_successful l)))
       (get_storage_stats path (Some f))
  /\ reports "total_recipes_generated" (SInt (Z.of_nat (sum_recipe_count l)))
       (get_storage_stats path (Some f))
  /\ reports "file_size_bytes" (SInt (Z.of_nat (st_size f)))
       (get_storage_stats path (Some f)).
Proof.
  intros Hl Hne Hrange.
  unfold get_storage_stats, get_all_interactions. rewrite Hl.
  destruct l as [|i l']; [now elim Hne|].
  remember (i :: l') as l eqn:El.
  assert (Hn : 0 < List.length l) by (subst l; simpl; lia).
  pose proof (count_successful_le l) as Hs.
  destruct (Nat.ltb_spec 0 (List.length l)) as [_|]; [|lia].
  rewrite (true_div_defined (count_successful l) (List.length l))
    by (try lia; now left).
  cbn [bind].
  destruct (Nat.ltb_spec 0 (count_successful l)) as [Hpos|Hzero].
  - rewrite (true_div_defined (sum_recipe_count l) (count_successful l))
      by (try lia; now right).
    cbn [bind]. repeat split; eexists; split; reflexivity.
  - cbn [bind]. repeat split; eexists; split; reflexivity.
Qed.

(** X21.  Logging one more interaction moves the statistics as expected:
    the total grows by one, the successful count by one when the
    interaction is logged as a success and the failed count by one
    otherwise, and the number of recipes generated by the number of recipes
    logged; the size reported is that of the file just written.  The
    statistics are those of a log that counts, with the new record, fewer
    than [2^1023] recipes: beyond that the division of the average can
    raise [OverflowError], see [division_can_overflow]. *)
Theorem stats_follow_append (now now_iso : string)
    (user_ingredients : list string) (llm_response : option string)
    (parsed_recipes : list Json.json) (ok : bool) (error : option string)
    (f : file) (l : list Interaction) :
  interactions f = Some l ->
  (Z.of_nat (sum_recipe_count l + List.length parsed_recipes) < 2 ^ 1023)%Z ->
  exists fs' r,
    store_interaction path size now now_iso user_ingredients llm_response
      parsed_recipes ok error (Some f)
    = Ok (generate_interaction_id now, fs')
    /\ reports "total_interactions" (SInt (Z.of_nat (List.length l) + 1))
         (get_storage_stats path fs')
    /\ reports "successful_interactions"
         (SInt (Z.of_nat (count_successful l) + (if ok then 1 else 0)))
         (get_storage_stats path fs')
    /\ reports "failed_interactions"
         (SInt (Z.of_nat (List.length l) - Z.of_nat (count_successful l)
                + (if ok then 0 else 1)))
         (get_storage_stats path fs')
    /\ reports "total_recipes_generated"
         (SInt (Z.of_nat (sum_recipe_count l)
                + Z.of_nat (List.length parsed_recipes)))
         (get_storage_stats path fs')
    /\ reports "file_size_bytes" (SInt (Z.of_nat (size (l ++ [r])%list)))
         (get_storage_stats path fs').
Proof.
  intros Hl Hrange. unfold store_interaction. rewrite Hl.
  eexists. eexists. split; [reflexivity|].
  match goal with
  | |- context [write size (l ++ [?new])%list] => set (r := new)
  end.
  assert (E0 : sum_recipe_count (l ++ [r])%list
               = sum_recipe_count l + List.length parsed_recipes)
    by (rewrite sum_recipe_count_app; subst r; cbn;
        destruct parsed_recipes; simpl; lia).
  destruct (stats_of_records
              {| interactions := Some (l ++ [r])%list;
                 st_size := size (l ++ [r])%list |}
              (l ++ [r])%list eq_refl)
    as [Ht [Hs [Hf [Hg Hz]]]];
    [now destruct l | rewrite E0; exact Hrange |].
  unfold write.
  assert (E1 : Z.of_nat (List.length (l ++ [r])%list)
               = (Z.of_nat (List.length l) + 1)%Z)
    by (rewrite length_app; simpl; lia).
  assert (E2 : Z.of_nat (count_successful (l ++ [r])%list)
               = (Z.of_nat (count_successful l) + (if ok then 1 else 0))%Z)
    by (rewrite count_successful_app; subst r; cbn; destruct ok; lia).
  assert (E3 : Z.of_nat (sum_recipe_count (l ++ [r])%list)
               = (Z.of_nat (sum_recipe_count l)
                  + Z.of_nat (List.length parsed_recipes))%Z)
    by (rewrite sum_recipe_count_app; subst r; cbn;
        destruct parsed_recipes; simpl; lia).
  split; [rewrite <- E1; exact Ht|]. split; [rewrite <- E2; exact Hs|].
  split; [|split; [rewrite <- E3; exact Hg | exact Hz]].
  replace (Z.of_nat (List.length l) - Z.of_nat (count_successful l)
           + (if ok then 0 else 1))%Z
    with (Z.of_nat (List.length (l ++ [r])%list)
          - Z.of_nat (count_successful (l ++ [r])%list))%Z
    by (rewrite E1, E2; destruct ok; lia).
  exact Hf.
Qed.

(** X22.  [store_interaction] needs the storage file: without the file it
    raises [FileNotFoundError], with a document that lacks the key
    [interactions] it raises [KeyError], and in both cases nothing is
    written; with a document that holds a list of records under the key it
    appends one record; and whenever it returns, it returns the identifier
    it generated, the file existed and its document had the key.
    [ensure_storage_file_exists] creates an empty log when the file is
    missing and otherwise leaves the file as it is, so it never loses a
    record; an append made right after it on a missing file returns its
    identifier and leaves a log of one record. *)
Theorem append_needs_the_storage_file (now now_iso : string)
    (user_ingredients : list string) (llm_response : option string)
    (parsed_recipes : list Json.json) (ok : bool) (error : option string)
    (fs : storage) :
  let append :=
    store_interaction path size now now_iso user_ingredients llm_response
      parsed_recipes ok error in
  (fs = None -> exists e, append fs = Raise e /\ exn_class e = FileNotFoundError)
  /\ (forall f, fs = Some f -> interactions f = None ->
        exists e, append fs = Raise e /\ exn_class e = KeyError)
  /\ (forall f l, fs = Some f -> interactions f = Some l ->
        exists fs' r,
          append fs = Ok (generate_interaction_id now, fs')
          /\ get_all_interactions fs' = (l ++ [r])%list)
  /\ (forall id fs', append fs = Ok (id, fs') ->
        id = generate_interaction_id now
        /\ exists f, fs = Some f /\ interactions f <> None)
  /\ get_all_interactions (ensure_storage_file_exists size fs)
     = get_all_interactions fs
  /\ ensure_storage_file_exists size (ensure_storage_file_exists size fs)
     = ensure_storage_file_exists size fs
  /\ (fs = None ->
      exists fs' r,
        append (ensure_storage_file_exists size fs)
        = Ok (generate_interaction_id now, fs')
        /\ get_all_interactions fs' = [r]
        /\ ingredients (user_input r) = user_ingredients).
Proof.
  cbv zeta. unfold store_interaction, ensure_storage_file_exists.
  split; [|split; [|split; [|split; [|split; [|split]]]]].
  - intros ->. eexists. split; reflexivity.
  - intros f -> Hk. rewrite Hk. eexists. split; reflexivity.
  - intros f l -> El. rewrite El. eexists. eexists. split; reflexivity.
  - intros id fs' Ha. destruct fs as [f|]; [|discriminate Ha].
    destruct (interactions f) as [l|] eqn:El; [|discriminate Ha].
    injection Ha as <- _. split; [reflexivity|]. exists f.
    split; [reflexivity | congruence].
  - now destruct fs.
  - now destruct fs.
  - intros ->. cbn. eexists. eexists. split; [reflexivity|].
    split; reflexivity.
Qed.

End LogAppend.

Section LogAppendRuns.
Import Py StorageService.

Lemma append_keeps_ids_distinct_witness :
  exists fs',
    store_interaction Samples.path Samples.size
      "20240101_120005" "2024-01-01T12:00:05" ["sugar"] None [] false
      (Some "model unreachable") Samples.five_logged
    = Ok ("recipe_interaction_20240101_120005", fs')
    /\ NoDup (ids (get_all_interactions fs')).
Proof.
  destruct Samples.five_logged as [f|] eqn:E; [|discriminate E].
  destruct (interactions f) as [l|] eqn:El;
    [|vm_compute in E; injection E as <-; discriminate El].
  assert (Hl : l = get_all_interactions Samples.five_logged)
    by (rewrite E; unfold get_all_interactions; now rewrite El).
  destruct (append_keeps_ids_distinct Samples.path Samples.size
              "20240101_120005" "2024-01-01T12:00:05"
              ["sugar"] None [] false (Some "model unreachable") f l El)
    as [fs' [r [Hs [_ [Hd _]]]]].
  - rewrite Hl. apply samples_five_distinct.
  - rewrite Hl. intros i Hi. simpl in Hi.
    repeat (destruct Hi as [<-|Hi]; [discriminate|]). contradiction.
  - exists fs'. split; [exact Hs | exact Hd].
Defined.

Lemma append_writes_consistent_record_witness :
  exists fs' r,
    store_interaction Samples.path Samples.size "20240101_120000"
      "2024-01-01T12:00:00" ["salt"; "egg"] (Some Samples.no_recipes_text)
      [Json.JObj []] true None
      (Some {| interactions := Some []; st_size := Samples.size [] |})
    = Ok ("recipe_interaction_20240101_120000", fs')
    /\ get_all_interactions fs' = [r]
    /\ well_counted r.
Proof.
  destruct (append_writes_consistent_record Samples.path Samples.size
              "20240101_120000" "2024-01-01T12:00:00" ["salt"; "egg"]
              (Some Samples.no_recipes_text) [Json.JObj []] true None
              {| interactions := Some []; st_size := Samples.size [] |} []
              eq_refl) as [fs' [r [Hs [Ha [Hw _]]]]].
  exists fs', r. split; [exact Hs|]. split; [exact Ha | exact Hw].
Defined.

Lemma stats_follow_append_witness :
  exists fs',
    store_interaction Samples.path Samples.size
      "20240101_120005" "2024-01-01T12:00:05" ["sugar"] None
      [Json.JObj []] true None
      (Some {| interactions := Some []; st_size := Samples.size [] |})
    = Ok ("recipe_interaction_20240101_120005", fs')
    /\ reports "total_interactions" (SInt 1)
         (get_storage_stats Samples.path fs')
    /\ reports "total_recipes_generated" (SInt 1)
         (get_storage_stats Samples.path fs').
Proof.
  destruct (stats_follow_append Samples.path Samples.size
              "20240101_120005" "2024-01-01T12:00:05" ["sugar"] None
              [Json.JObj []] true None
              {| interactions := Some []; st_size := Samples.size [] |} []
              eq_refl ltac:(vm_compute; reflexivity))
    as [fs' [r [Hs [Ht [_ [_ [Hg _]]]]]]].
  exists fs'. split; [exact Hs|]. split; [exact Ht | exact Hg].
Defined.

Lemma append_needs_the_storage_file_witness :
  exists e,
    store_interaction Samples.path Samples.size "20240101_120000"
      "2024-01-01T12:00:00" ["salt"] None [] false None None = Raise e
    /\ exn_class e = FileNotFoundError.
Proof.
  apply (proj1 (append_needs_the_storage_file Samples.path Samples.size
                  "20240101_120000" "2024-01-01T12:00:00" ["salt"] None []
                  false None None)).
  reflexivity.
Defined.

End LogAppendRuns.

Section FenceRuns.
Import Py Json Models GeminiService Samples.

Lemma tagged_fence_inside_prose_witness :
  @_parse_ai_response strict_validation
    (("Here are your recipes:" ++ nl) ++ json_fence
       ++ (nl ++ recipes_text [recipe_text "Omelette"] ++ nl)
       ++ fence ++ (nl ++ "Enjoy!"))
  = Ok [omelette].
Proof.
  rewrite (proj2 (@tagged_fence_inside_prose strict_validation
                    ("Here are your recipes:" ++ nl)
                    (nl ++ recipes_text [recipe_text "Omelette"] ++ nl)
                    (nl ++ "Enjoy!") eq_refl eq_refl)).
  - reflexivity.
  - apply contains_absent. reflexivity.
Defined.

Lemma generic_fence_inside_prose_witness :
  json_candidate
    ("Sure: " ++ fence ++ (nl ++ no_recipes_text ++ nl) ++ fence ++ " Done.")
  = no_recipes_text.
Proof.
  rewrite (proj1 (@generic_fence_inside_prose strict_validation
                    "Sure: " (nl ++ no_recipes_text ++ nl) " Done."
                    eq_refl eq_refl
                    ltac:(apply contains_absent; reflexivity))).
  reflexivity.
Defined.

End FenceRuns.

(** ** The summary of a list of recipes *)

Section Summaries.
Import Py Models RecipeService.
Context `{Casing}.

Lemma count_get_set_same (key : string) (n : nat) (counts : list (string * nat)) :
  count_get key (count_set key n counts) = n.
Proof.
  induction counts as [|[k m] rest IH]; simpl.
  - now rewrite text_eqb_refl.
  - destruct (text_eqb_spec k key) as [->|N]; simpl.
    + now rewrite text_eqb_refl.
    + destruct (text_eqb_spec k key); [contradiction | exact IH].
Qed.

Lemma count_get_set_other (key other : string) (n : nat)
    (counts : list (string * nat)) :
  other <> key ->
  count_get other (count_set key n counts) = count_get other counts.
Proof.
  intros Hne. induction counts as [|[k m] rest IH]; simpl.
  - destruct (text_eqb_spec key other); [congruence | reflexivity].
  - destruct (text_eqb_spec k key) as [->|N]; simpl.
    + destruct (text_eqb_spec key other); [congruence | reflexivity].
    + destruct (text_eqb_spec k other); [reflexivity | exact IH].
Qed.

Lemma sum_counts_set (key : string) (n : nat) (counts : list (string * nat)) :
  sum_counts (count_set key n counts) + count_get key counts
  = sum_counts counts + n.
Proof.
  induction counts as [|[k m] rest IH]; simpl; [lia|].
  destruct (text_eqb_spec k key); simpl; lia.
Qed.

Lemma count_set_keys (key : string) (n : nat) (counts : list (string * nat)) :
  forall k, In k (map fst (count_set key n counts)) <->
            k = key \/ In k (map fst counts).
Proof.
  intros k. induction counts as [|[k' m] rest IH]; simpl.
  - intuition.
  - destruct (text_eqb_spec k' key) as [->|N]; simpl; [intuition|].
    rewrite IH. intuition.
Qed.

Lemma count_set_NoDup (key : string) (n : nat) (counts : list (string * nat)) :
  NoDup (map fst counts) -> NoDup (map fst (count_set key n counts)).
Proof.
  induction counts as [|[k m] rest IH]; simpl; intros Hd.
  - constructor; [intros [] | constructor].
  - inversion Hd as [|? ? Hk Hrest]; subst.
    destruct (text_eqb_spec k key) as [->|N]; simpl.
    + now constructor.
    + constructor; [|now apply IH]. intros Hin.
      apply count_set_keys in Hin. destruct Hin as [->|Hin]; contradiction.
Qed.

(** The loop over the recipes, from any distribution built so far. *)
Lemma tally_spec (recipes : list Recipe) (counts : list (string * nat)) :
  sum_counts (tally counts recipes) = sum_counts counts + List.length recipes
  /\ (forall key, count_get key (tally counts recipes)
                  = count_get key counts
                    + List.length (with_difficulty key recipes))
  /\ (NoDup (map fst counts) -> NoDup (map fst (tally counts recipes)))
  /\ (forall key, In key (map fst (tally counts recipes)) <->
                  In key (map fst counts)
                  \/ exists r, In r recipes /\ lower (difficulty r) = key).
Proof.
  revert counts. induction recipes as [|r recipes IH]; intros counts.
  - simpl. split; [lia|]. split; [intros key; lia|]. split; [exact (fun d => d)|].
    intros key. split; [now left|]. intros [Hk|[r [[] _]]]. exact Hk.
  - cbn [tally]. cbv zeta.
    set (d := lower (difficulty r)).
    destruct (IH (count_set d (count_get d counts + 1) counts))
      as [Hsum [Hget [Hnd Hkeys]]].
    split; [|split; [|split]].
    + pose proof (sum_counts_set d (count_get d counts + 1) counts).
      rewrite Hsum. simpl. lia.
    + intros key. rewrite Hget. unfold with_difficulty. cbn [filter].
      fold d. destruct (text_eqb_spec d key) as [<-|N].
      * rewrite count_get_set_same. simpl. lia.
      * rewrite count_get_set_other by congruence. lia.
    + intros Hd. apply Hnd. now apply count_set_NoDup.
    + intros key. rewrite Hkeys, count_set_keys. split.
      * intros [[->|Hk]|[r' [Hr' Hd']]].
        -- right. exists r. split; [now left | reflexivity].
        -- now left.
        -- right. exists r'. split; [now right | exact Hd'].
      * intros [Hk|[r' [[<-|Hr'] Hd']]].
        -- left. now right.
        -- left. left. now rewrite <- Hd'.
        -- right. now exists r'.
Qed.

(** X23.  The difficulty distribution of a summary counts every recipe once:
    its keys are pairwise distinct and lowercase, they are exactly the
    lowercased difficulties that occur, the count under a key is the number
    of recipes with that difficulty whatever its case, and the counts add up
    to the number of recipes. *)
Theorem summary_counts_every_recipe (recipes : list Recipe) (summary : Summary) :
  get_recipe_summary recipes = Some summary ->
  total_recipes summary = List.length recipes
  /\ sum_counts (difficulty_distribution summary) = List.length recipes
  /\ NoDup (map fst (difficulty_distribution summary))
  /\ (forall key, count_get key (difficulty_distribution summary)
                  = List.length (with_difficulty key recipes))
  /\ (forall key, In key (map fst (difficulty_distribution summary)) <->
                  exists r, In r recipes /\ lower (difficulty r) = key)
  /\ (forall key, In key (map fst (difficulty_distribution summary)) ->
                  is_lowercase key).
Proof.
  destruct recipes as [|r0 rest]; [discriminate|].
  unfold get_recipe_summary. intros [= <-].
  cbn [total_recipes difficulty_distribution].
  destruct (tally_spec (r0 :: rest) []) as [Hsum [Hget [Hnd Hkeys]]].
  assert (Hk : forall key, In key (map fst (tally [] (r0 :: rest))) <->
                           exists r, In r (r0 :: rest) /\ lower (difficulty r) = key).
  { intros key. rewrite Hkeys. simpl. intuition. }
  split; [reflexivity|]. split; [exact Hsum|].
  split; [apply Hnd; constructor|]. split; [exact Hget|].
  split; [exact Hk|].
  intros key Hin. apply Hk in Hin. destruct Hin as [r [_ <-]].
  apply lower_idempotent.
Qed.

Lemma sum_calories_nonempty (recipes : list Recipe) :
  recipes <> [] -> (0 < Z.of_nat (List.length recipes))%Z.
Proof. destruct recipes; [congruence | simpl; lia]. Qed.

Lemma get_recipe_summary_some (recipes : list Recipe) :
  recipes <> [] ->
  get_recipe_summary recipes
  = Some {| total_recipes := List.length recipes;
            average_calories :=
              (sum_calories recipes / Z.of_nat (List.length recipes))%Z;
            difficulty_distribution := tally [] recipes;
            cooking_times := map cookingTime recipes |}.
Proof. destruct recipes; [congruence | reflexivity]. Qed.

(** X24.  [get_recipe_summary] returns the empty dict exactly for the empty
    list.  Otherwise the cooking times are those of the recipes, in their
    order, and the average is the floor of the mean of the calories:
    [average * n <= total < (average + 1) * n]. *)
Theorem summary_average_is_floor_of_mean (recipes : list Recipe) :
  (get_recipe_summary recipes = None <-> recipes = [])
  /\ (forall summary, get_recipe_summary recipes = Some summary ->
        let n := Z.of_nat (List.length recipes) in
        cooking_times summary = map cookingTime recipes
        /\ (average_calories summary * n <= sum_calories recipes)%Z
        /\ (sum_calories recipes < (average_calories summary + 1) * n)%Z).
Proof.
  split.
  - destruct recipes; simpl; split; congruence.
  - intros summary Hs. cbv zeta.
    assert (Hne : recipes <> []) by (intros ->; discriminate Hs).
    pose proof (sum_calories_nonempty recipes Hne) as Hn.
    rewrite (get_recipe_summary_some recipes Hne) in Hs. injection Hs as <-.
    cbn [cooking_times average_calories].
    split; [reflexivity|].
    pose proof (Z.mul_div_le (sum_calories recipes)
                  (Z.of_nat (List.length recipes)) Hn) as Hlow.
    pose proof (Z.mul_succ_div_gt (sum_calories recipes)
                  (Z.of_nat (List.length recipes)) Hn) as Hhigh.
    split; lia.
Qed.

End Summaries.

Section SummaryRuns.
Import Py Models RecipeService.

Lemma summary_counts_every_recipe_witness :
  exists summary,
    @get_recipe_summary sample_casing Samples.menu = Some summary
    /\ difficulty_distribution summary = [("easy", 2); ("hard", 1)]
    /\ sum_counts (difficulty_distribution summary) = 3.
Proof.
  eexists. split; [reflexivity|]. split; [reflexivity|].
  apply (@summary_counts_every_recipe sample_casing Samples.menu _ eq_refl).
Defined.

Lemma summary_average_is_floor_of_mean_witness :
  exists summary,
    @get_recipe_summary sample_casing Samples.menu = Some summary
    /\ average_calories summary = 343%Z
    /\ (average_calories summary * 3 <= 1031 < (average_calories summary + 1) * 3)%Z.
Proof.
  eexists. split; [reflexivity|]. split; [reflexivity|].
  destruct (proj2 (@summary_average_is_floor_of_mean sample_casing Samples.menu)
              _ eq_refl)
    as [_ [Hlow Hhigh]].
  split; [exact Hlow | exact Hhigh].
Defined.

End SummaryRuns.

Section LogRuns.
Import Py StorageService.

Lemma recent_is_final_segment_witness :
  Forall (fun r => In r (get_all_interactions Samples.five_logged))
    (get_recent_interactions Samples.five_logged 0).
Proof.
  apply Forall_forall.
  exact (proj1 (proj2 (recent_is_final_segment Samples.five_logged 0))).
Defined.

End LogRuns.
